(** * WorldHost: entity store, spatial math, movement and durability

    A shallow embedding of the simulation core of the WorldHost server
    (packages/shared/src/index.ts, world/space.ts, world/contracts.js,
    world/ecs.ts, world/chunks.js, world/systems/movement.js and
    world/systems/durability.ts) together with the properties its
    specification states about it.

    Conventions of the embedding.
    - A JavaScript [number] is a real number ([R]): arithmetic is exact,
      there is no rounding, no NaN and no infinity.  Where the source can
      divide by zero the case is discussed at the place.  Integral
      quantities produced by [Math.floor]/[Math.ceil] (chunk and grid
      indices) are integers ([Z]).
    - A JavaScript [Set] of objects is a list in insertion order; objects
      carry the reference ([ref]) that the [Set] compares.
    - A [Map] with string keys is a [gmap string _].
    - A thrown [Error] is a result [Err _] returned with the state as
      the statements executed before the [throw] left it. *)

From Stdlib Require Import Reals Lra Lia ZArith Ascii String DecimalString DecimalZ DecimalPos.
From stdpp Require Import gmap strings list.

Local Open Scope R_scope.

(** ** Geometric types (shared/src/index.ts) *)

Record Vec3 := mkVec3 { x : R; y : R; z : R }.

Record AABB := mkAABB { min : Vec3; max : Vec3 }.

Record ChunkKey := mkChunkKey { layerId : string; cx : Z; cy : Z; cz : Z }.

(** ** Numbers as the source uses them *)

(** [a < b], [a <= b] and [a === b] on numbers, as booleans. *)
Definition num_lt (a b : R) : bool := if Rlt_dec a b then true else false.

Definition num_le (a b : R) : bool := if Rle_dec a b then true else false.

Definition num_eq (a b : R) : bool := if Req_dec_T a b then true else false.

(** [v || d] for an optional number: [undefined] and [0] are falsy. *)
Definition num_or (v : option R) (d : R) : R :=
  match v with
  | Some r => if num_eq r 0 then d else r
  | None => d
  end.

(** [Math.trunc], and the remainder operator [%] of JavaScript, whose
    result takes the sign of the dividend: [a % b = a - b * trunc (a / b)]. *)
Definition Ztrunc (r : R) : Z := if num_le 0 r then Zfloor r else Zceil r.

Definition js_mod (a b : R) : R := a - b * IZR (Ztrunc (a / b)).

(** [Number.MAX_SAFE_INTEGER], and the integers that a number holds
    exactly and prints as plain decimal digits. *)
Definition MAX_SAFE_INTEGER : Z := 9007199254740991.

Definition safeInteger (n : Z) : Prop := (Z.abs n <= MAX_SAFE_INTEGER)%Z.

(** The integers [lo, lo+1, ..., hi-1]: the values a loop
    [for (let i = lo; i < hi; i++)] runs through. *)
Definition zrange (lo hi : Z) : list Z :=
  map (fun i => (lo + Z.of_nat i)%Z) (seq 0 (Z.to_nat (hi - lo))).

Module Vec3Utils.

Definition create (px py pz : R) : Vec3 := mkVec3 px py pz.

Definition add (a b : Vec3) : Vec3 :=
  mkVec3 (x a + x b) (y a + y b) (z a + z b).

Definition subtract (a b : Vec3) : Vec3 :=
  mkVec3 (x a - x b) (y a - y b) (z a - z b).

Definition multiply (v : Vec3) (scalar : R) : Vec3 :=
  mkVec3 (x v * scalar) (y v * scalar) (z v * scalar).

Definition length (v : Vec3) : R :=
  sqrt (x v * x v + y v * y v + z v * z v).

Definition distance (a b : Vec3) : R :=
  let diff := subtract a b in
  sqrt (x diff * x diff + y diff * y diff + z diff * z diff).

Definition normalize (v : Vec3) : Vec3 :=
  let len := length v in
  if num_eq len 0 then mkVec3 0 0 0 else multiply v (1 / len).

End Vec3Utils.

(** ** Chunk keys and their string form (shared/src/index.ts, ChunkUtils) *)

Module ChunkUtils.

Local Open Scope string_scope.

Definition create (l : string) (kx ky kz : Z) : ChunkKey := mkChunkKey l kx ky kz.

(** [String(n)] for an integer [n] in the range where JavaScript prints
    plain decimal digits: an optional minus sign and the digits.  From
    1e21 on the template literal prints exponent notation ("1e+21"),
    which [fromString] does not match; indices of that size are outside
    this definition, and the statements about the key strings are made
    for [safeInteger] indices. *)
Definition numberToString (n : Z) : string :=
  NilZero.string_of_int (Z.to_int n).

(** [`${key.layerId}:${key.cx},${key.cy},${key.cz}`] *)
Definition toString (key : ChunkKey) : string :=
  layerId key ++ ":" ++ numberToString (cx key) ++ "," ++
  numberToString (cy key) ++ "," ++ numberToString (cz key).

(** The pieces of the regular expression
    [/^([^:]+):(-?\d+),(-?\d+),(-?\d+)$/].  Every repetition in it is
    followed by a character that the repeated class excludes (or by the
    end of the input), so the longest match of each repetition is the
    only one a backtracking matcher can succeed with; the matcher below
    takes the longest match and does not backtrack. *)

Definition notColon (c : ascii) : bool := negb (Ascii.eqb c ":").

Definition isDigit (c : ascii) : bool :=
  (48 <=? nat_of_ascii c)%nat && (nat_of_ascii c <=? 57)%nat.

(** The longest prefix whose characters satisfy [p], and the rest. *)
Fixpoint span (p : ascii -> bool) (s : string) : string * string :=
  match s with
  | String c s' =>
      if p c then let '(a, b) := span p s' in (String c a, b) else ("", s)
  | EmptyString => ("", "")
  end.

(** A literal character. *)
Definition expect (c : ascii) (s : string) : option string :=
  match s with
  | String c' s' => if Ascii.eqb c c' then Some s' else None
  | EmptyString => None
  end.

(** The group [(-?\d+)]: the matched text and the rest of the input. *)
Definition matchInt (s : string) : option (string * string) :=
  let '(sign, s1) :=
    match s with
    | String "-"%char s' => ("-", s')
    | _ => ("", s)
    end in
  let '(ds, rest) := span isDigit s1 in
  match ds with
  | EmptyString => None
  | _ => Some (sign ++ ds, rest)
  end.

(** [parseInt(text, 10)] on a text of the form [-?\d+]; [None] stands
    for NaN, which no text matched by the group produces. *)
Definition parseInt (text : string) : option Z :=
  Z.of_int <$> NilZero.int_of_string text.

Definition fromString (str : string) : option ChunkKey :=
  let '(g1, r0) := span notColon str in
  match g1 with
  | EmptyString => None
  | _ =>
      r1 ← expect ":" r0;
      '(g2, r2) ← matchInt r1;
      r3 ← expect "," r2;
      '(g3, r4) ← matchInt r3;
      r5 ← expect "," r4;
      '(g4, r6) ← matchInt r5;
      match r6 with
      | EmptyString =>
          kx ← parseInt g2; ky ← parseInt g3; kz ← parseInt g4;
          Some (mkChunkKey g1 kx ky kz)
      | _ => None
      end
  end.

Definition equals (a b : ChunkKey) : bool :=
  bool_decide (layerId a = layerId b) && (cx a =? cx b)%Z &&
  (cy a =? cy b)%Z && (cz a =? cz b)%Z.

(** A layer id that the string form can carry: not empty, no colon. *)
Definition plainLayerId (l : string) : Prop :=
  l <> "" /\ fst (span notColon l) = l.

End ChunkUtils.

(** ** Contracts and their schemas (shared/src/index.ts, world/contracts.js) *)

Inductive Geometry := box | sphere | cylinder | mesh.

Inductive Weather := clear | rain | storm | snow.

Inductive TimeOfDay := day | night | dawn | dusk.

(** An entry [{contractType, max}] of a [contract_limit] contract. *)
Record LimitEntry := mkLimitEntry { contractType : string; entryMax : R }.

(** The records handed to the store.  The first fourteen constructors are
    the interfaces of [AnyContract], fields in the order of the interface,
    optional fields as options.  [Malformed t] stands for any other record
    whose [type] field is [t]: one with an unknown [type], or one whose
    fields do not have the types the schema of [t] asks for.  The values
    of [properties] (declared [any]) are kept as strings. *)
Inductive Contract :=
| Identity (id : string) (name description : option string)
| Shape (bounds : AABB) (geometry : option Geometry)
| Solidity (solid : bool) (collisionLayers : option (list string))
| Visual (color texture material : option string) (visible : bool)
| Entrance (targetLayerId : string) (targetPosition : Vec3) (enabled : bool)
| Mobility (position : Vec3) (velocity : option Vec3) (maxSpeed acceleration : option R)
| Portable (canPickup : bool) (weight : option R)
| Inventory (items : list string) (capacity : option R)
| Durability (health maxHealth : R) (armor : option R)
| ContractLimit (limits : list LimitEntry)
| MovementRules (stepDistance : R) (allowDiagonal diagonalNormalized : option bool)
| WorldConditions (gravity : option R) (weather : option Weather)
    (timeOfDay : option TimeOfDay) (terrainSeed : option string)
    (properties : option (list (string * string)))
| WorldCommands (commands : list string)
| CommandAccess (allowed : list string)
| Malformed (type : string).

(** The [type] field of a record. *)
Definition typeOf (c : Contract) : string :=
  match c with
  | Identity _ _ _ => "identity"
  | Shape _ _ => "shape"
  | Solidity _ _ => "solidity"
  | Visual _ _ _ _ => "visual"
  | Entrance _ _ _ => "entrance"
  | Mobility _ _ _ _ => "mobility"
  | Portable _ _ => "portable"
  | Inventory _ _ => "inventory"
  | Durability _ _ _ => "durability"
  | ContractLimit _ => "contract_limit"
  | MovementRules _ _ _ => "movement_rules"
  | WorldConditions _ _ _ _ _ => "world_conditions"
  | WorldCommands _ => "world_commands"
  | CommandAccess _ => "command_access"
  | Malformed t => t
  end.

(** [z.number().positive()], [z.number().nonnegative()] and [.optional()]. *)
Definition positive_number (r : R) : bool := num_lt 0 r.

Definition nonnegative_number (r : R) : bool := num_le 0 r.

Definition optional {A} (check : A -> bool) (v : option A) : bool :=
  match v with
  | Some a => check a
  | None => true
  end.

(** [z.boolean().optional().default(true)] *)
Definition default_true (v : option bool) : option bool :=
  match v with
  | Some b => Some b
  | None => Some true
  end.

(** [DurabilityObjectSchema]: the base object, without the refinement. *)
Definition DurabilityObjectSchema (c : Contract) : option Contract :=
  match c with
  | Durability h m a =>
      if nonnegative_number h && positive_number m && optional nonnegative_number a
      then Some c else None
  | _ => None
  end.

(** [DurabilitySchema = DurabilityObjectSchema.refine(data => data.health <= data.maxHealth)] *)
Definition DurabilitySchema (c : Contract) : option Contract :=
  match DurabilityObjectSchema c with
  | Some (Durability h m a) => if num_le h m then Some (Durability h m a) else None
  | _ => None
  end.

(** [AnyContractSchema.parse]: the discriminated union on [type]; the
    member for ["durability"] is [DurabilityObjectSchema].  [Some data] is
    the parsed record, [None] a [ZodError]. *)
Definition AnyContractSchema (c : Contract) : option Contract :=
  match c with
  | Identity _ _ _ => Some c
  | Mobility _ _ ms acc =>
      if optional positive_number ms && optional positive_number acc
      then Some c else None
  | Shape _ _ => Some c
  | Visual _ _ _ _ => Some c
  | Solidity _ _ => Some c
  | Entrance _ _ _ => Some c
  | Portable _ w => if optional nonnegative_number w then Some c else None
  | Inventory _ cap => if optional positive_number cap then Some c else None
  | Durability _ _ _ => DurabilityObjectSchema c
  | ContractLimit limits =>
      if forallb (fun l => positive_number (entryMax l)) limits then Some c else None
  | MovementRules sd ad dn =>
      if positive_number sd
      then Some (MovementRules sd (default_true ad) (default_true dn)) else None
  | WorldConditions _ _ _ _ _ => Some c
  | WorldCommands _ => Some c
  | CommandAccess _ => Some c
  | Malformed _ => None
  end.

Module ContractRegistry.

(** [initializeSchemas]: the schema registered for each contract type.
    ["durability"] is registered with the refined [DurabilitySchema];
    every other type with the member of the union for it. *)
Definition schemas (contractType : string) : option (Contract -> option Contract) :=
  if bool_decide (contractType = "durability") then Some DurabilitySchema
  else if bool_decide (contractType ∈
    ["identity"; "mobility"; "shape"; "visual"; "solidity"; "entrance";
     "portable"; "inventory"; "contract_limit"; "movement_rules";
     "world_conditions"; "world_commands"; "command_access"]%string)
  then Some (fun c => if bool_decide (typeOf c = contractType)
                      then AnyContractSchema c else None)
  else None.

(** [initializeDefaultLimits] *)
Definition globalLimits : gmap string R :=
  list_to_map
    [("identity", 1); ("mobility", 1); ("shape", 1); ("visual", 1);
     ("solidity", 1); ("inventory", 1); ("durability", 1);
     ("contract_limit", 1); ("entrance", 1); ("portable", 3);
     ("movement_rules", 1); ("world_conditions", 1);
     ("world_commands", 1); ("command_access", 1)]%string.

(** [validate(contract)]: [AnyContractSchema.parse(contract)]; the
    [schemas] map is not consulted. *)
Definition validate (contract : Contract) : option Contract :=
  AnyContractSchema contract.

Definition getSchema (contractType : string) := schemas contractType.

(** [checkLimits(entityId, contractType, existingContracts, entityContractLimit)]:
    [true] for [{allowed: true}]. *)
Definition checkLimits (ct : string) (existingContracts : list Contract)
    (entityContractLimit : option Contract) : bool :=
  let entityLimits :=
    match entityContractLimit with
    | Some (ContractLimit limits) => limits
    | _ => []
    end in
  let currentCount :=
    IZR (Z.of_nat (length (filter (fun c => typeOf c = ct) existingContracts))) in
  match find (fun l => bool_decide (contractType l = ct)) entityLimits with
  | Some entityLimit => negb (num_le (entryMax entityLimit) currentCount)
  | None =>
      match globalLimits !! ct with
      | Some globalLimit => negb (num_le globalLimit currentCount)
      | None => true
      end
  end.

End ContractRegistry.

(** ** The entity store (world/ecs.ts, class ECSWorld) *)

(** A contract object held by the store.  [validate] returns a fresh
    object for every record it accepts, and a [Set] tells objects apart by
    reference: [ref] is that reference. *)
Record Obj := mkObj { ref : nat; val : Contract }.

(** A call of the hooks registered for an event.  The hooks registered in
    the repository (layer tracking in world/state.ts, logging and the
    deferred [ensureDurability] of the durability system) do not write
    to the store while they run; the model records that they were called,
    in call order. *)
Inductive HookCall :=
| EntityAdd (entityId : string)
| EntityRemove (entityId : string)
| ContractAdd (entityId : string) (contract : Contract)
| ContractRemove (entityId : string) (contract : Contract).

Record ECSWorld := mkECSWorld {
  (** [Map<EntityId, Set<Contract>>] *)
  entities : gmap string (list Obj);
  (** [Map<ContractType, Set<EntityId>>] *)
  contractIndex : gmap string (list string);
  (** the reference of the next object [validate] creates *)
  nextRef : nat;
  (** the hook calls made so far, oldest first *)
  hookCalls : list HookCall
}.

Inductive Error :=
| EntityAlreadyExists (entityId : string)
| EntityDoesNotExist (entityId : string)
| InvalidContract
| ContractLimitViolation
| InvalidChunkKey (keyStr : string).

(** How a call ends: it returns, it throws, or it does not end. *)
Inductive Outcome (A : Type) :=
| Return (a : A)
| Throw (e : Error)
| Diverge.

Arguments Return {A} a.
Arguments Throw {A} e.
Arguments Diverge {A}.

Module ECS.

Definition createECSWorld : ECSWorld := mkECSWorld ∅ ∅ 0 [].

Definition hasEntity (w : ECSWorld) (id : string) : bool :=
  bool_decide (is_Some (entities w !! id)).

(** [Set.prototype.add] on a set of strings. *)
Definition set_add (e : string) (s : list string) : list string :=
  if bool_decide (e ∈ s) then s else s ++ [e].

(** [Set.prototype.delete] on a set of strings. *)
Definition set_delete (e : string) (s : list string) : list string :=
  filter (fun e' => e' ≠ e) s.

Definition hasType (contractType : string) (c : Obj) : bool :=
  bool_decide (typeOf (val c) = contractType).

(** [getContract(entityId, contractType)]: the first contract of the
    type, in insertion order; the object as the store holds it. *)
Definition getContractObj (w : ECSWorld) (entityId contractType : string) : option Obj :=
  match entities w !! entityId with
  | None => None
  | Some contracts => List.find (hasType contractType) contracts
  end.

Definition getContract (w : ECSWorld) (entityId contractType : string) : option Contract :=
  val <$> getContractObj w entityId contractType.

Definition getContracts (w : ECSWorld) (entityId : string) : list Contract :=
  match entities w !! entityId with
  | Some contracts => val <$> contracts
  | None => []
  end.

Definition hasContract (w : ECSWorld) (entityId contractType : string) : bool :=
  bool_decide (is_Some (getContract w entityId contractType)).

Definition getEntitiesWithContract (w : ECSWorld) (contractType : string) : list string :=
  match contractIndex w !! contractType with
  | Some entities => entities
  | None => []
  end.

(** [removeContractInternal(entityId, contract)] *)
Definition removeContractInternal (w : ECSWorld) (entityId : string) (contract : Obj)
    : bool * ECSWorld :=
  match entities w !! entityId with
  | None => (false, w)
  | Some contracts =>
      if bool_decide (ref contract ∈ ref <$> contracts) then
        let contracts' := filter (fun c => ref c ≠ ref contract) contracts in
        let ct := typeOf (val contract) in
        let index' :=
          match contractIndex w !! ct with
          | Some entitiesWithContract =>
              match set_delete entityId entitiesWithContract with
              | [] => delete ct (contractIndex w)
              | rest => <[ct := rest]> (contractIndex w)
              end
          | None => contractIndex w
          end in
        (true,
         mkECSWorld (<[entityId := contracts']> (entities w)) index' (nextRef w)
           (hookCalls w ++ [ContractRemove entityId (val contract)]))
      else (false, w)
  end.

(** [getMaxContractsAllowed(entityId, contractType, contractLimitContract)] *)
Definition getMaxContractsAllowed (ct : string) (contractLimitContract : option Contract) : R :=
  let global :=
    match ContractRegistry.globalLimits !! ct with
    | Some globalLimit => globalLimit
    | None => IZR MAX_SAFE_INTEGER
    end in
  match contractLimitContract with
  | Some (ContractLimit limits) =>
      match find (fun l => bool_decide (contractType l = ct)) limits with
      | Some entityLimit => entryMax entityLimit
      | None => global
      end
  | _ => global
  end.

(** The loop
    [while (existingOfSameType.length >= maxAllowed) {
       const oldest = existingOfSameType.shift();
       if (oldest) this.removeContractInternal(entityId, oldest); }].
    With the array empty and the condition still true, [shift()] yields
    [undefined] and nothing changes any more: the loop does not end
    ([None]). *)
Fixpoint evictOldest (maxAllowed : R) (existingOfSameType : list Obj)
    (entityId : string) (w : ECSWorld) : option ECSWorld :=
  if num_le maxAllowed (IZR (Z.of_nat (length existingOfSameType))) then
    match existingOfSameType with
    | oldestContract :: rest =>
        evictOldest maxAllowed rest entityId
          (snd (removeContractInternal w entityId oldestContract))
    | [] => None
    end
  else Some w.

(** [addContract(entityId, contract)] *)
Definition addContract (w : ECSWorld) (entityId : string) (contract : Contract)
    : Outcome unit * ECSWorld :=
  match entities w !! entityId with
  | None => (Throw (EntityDoesNotExist entityId), w)
  | Some contracts =>
      match ContractRegistry.validate contract with
      | None => (Throw InvalidContract, w)
      | Some data =>
          let validContract := mkObj (nextRef w) data in
          let contractLimitContract := getContract w entityId "contract_limit" in
          let existingOfSameType := filter (fun c => typeOf (val c) = typeOf data) contracts in
          let maxAllowed := getMaxContractsAllowed (typeOf data) contractLimitContract in
          match evictOldest maxAllowed existingOfSameType entityId
                  (mkECSWorld (entities w) (contractIndex w) (S (nextRef w)) (hookCalls w)) with
          | None => (Diverge, w)
          | Some w1 =>
              let existingContracts := default [] (entities w1 !! entityId) in
              if ContractRegistry.checkLimits (typeOf data) (val <$> existingContracts)
                   contractLimitContract
              then
                (Return (),
                 mkECSWorld
                   (<[entityId := existingContracts ++ [validContract]]> (entities w1))
                   (<[typeOf data :=
                        set_add entityId (default [] (contractIndex w1 !! typeOf data))]>
                      (contractIndex w1))
                   (nextRef w1)
                   (hookCalls w1 ++ [ContractAdd entityId data]))
              else (Throw ContractLimitViolation, w1)
          end
      end
  end.

(** The loop [for (const contract of contracts) this.addContract(id, contract)]
    of [createEntity]; a throw ends it. *)
Fixpoint addContracts (w : ECSWorld) (id : string) (contracts : list Contract)
    : Outcome unit * ECSWorld :=
  match contracts with
  | [] => (Return (), w)
  | contract :: rest =>
      match addContract w id contract with
      | (Return _, w') => addContracts w' id rest
      | failed => failed
      end
  end.

(** [createEntity(id, contracts)] *)
Definition createEntity (w : ECSWorld) (id : string) (contracts : list Contract)
    : Outcome string * ECSWorld :=
  if hasEntity w id then (Throw (EntityAlreadyExists id), w)
  else
    let w0 := mkECSWorld (<[id := []]> (entities w)) (contractIndex w)
                (nextRef w) (hookCalls w) in
    match addContracts w0 id contracts with
    | (Return _, w1) =>
        (Return id,
         mkECSWorld (entities w1) (contractIndex w1) (nextRef w1)
           (hookCalls w1 ++ [EntityAdd id]))
    | (Throw e, w1) => (Throw e, w1)
    | (Diverge, w1) => (Diverge, w1)
    end.

(** [removeEntity(id)] *)
Definition removeEntity (w : ECSWorld) (id : string) : bool * ECSWorld :=
  match entities w !! id with
  | None => (false, w)
  | Some contracts =>
      let w1 := foldl (fun w' c => snd (removeContractInternal w' id c)) w contracts in
      (true,
       mkECSWorld (delete id (entities w1)) (contractIndex w1) (nextRef w1)
         (hookCalls w1 ++ [EntityRemove id]))
  end.

(** [removeContract(entityId, contractType)] *)
Definition removeContract (w : ECSWorld) (entityId contractType : string)
    : bool * ECSWorld :=
  match getContractObj w entityId contractType with
  | None => (false, w)
  | Some contract => removeContractInternal w entityId contract
  end.

(** [new Set(array)] on strings: the first occurrence of each element, in
    order. *)
Definition set_of (l : list string) : list string :=
  foldl (fun s e => set_add e s) [] l.

(** [getAllEntities()]: the keys of [entities].  The map of the model
    keeps no insertion order: the keys come in the order of the map. *)
Definition getAllEntities (w : ECSWorld) : list string :=
  (map_to_list (entities w)).*1.

(** [getEntitiesWithContracts(contractTypes)]: the entities listed for the
    first type, intersected with those listed for each further type. *)
Definition getEntitiesWithContracts (w : ECSWorld) (contractTypes : list string)
    : list string :=
  match contractTypes with
  | [] => getAllEntities w
  | first :: rest =>
      foldl (fun result ct =>
               let entitiesWithContract := set_of (getEntitiesWithContract w ct) in
               set_of (filter (fun id => id ∈ entitiesWithContract) result))
        (set_of (getEntitiesWithContract w first)) rest
  end.

(** [getEntitiesWithAnyContract(contractTypes)] *)
Definition getEntitiesWithAnyContract (w : ECSWorld) (contractTypes : list string)
    : list string :=
  foldl (fun result ct =>
           foldl (fun result entityId => set_add entityId result) result
             (getEntitiesWithContract w ct))
    [] contractTypes.

(** [updateContract(world, entityId, contractType, updateFn)] *)
Definition updateContract (w : ECSWorld) (entityId contractType : string)
    (updateFn : Contract -> Contract) : Outcome bool * ECSWorld :=
  match getContract w entityId contractType with
  | None => (Return false, w)
  | Some existingContract =>
      match addContract w entityId (updateFn existingContract) with
      | (Return _, w') => (Return true, w')
      | (Throw e, w') => (Throw e, w')
      | (Diverge, w') => (Diverge, w')
      end
  end.

End ECS.

(** ** The durability system (world/systems/durability.ts) *)

Inductive DestroyCause := cause_damage | cause_command | cause_timeout.

Module DamageEvent.
Record t := mk {
  entityId : string;
  damage : R;
  source : option string;
  timestamp : Z
}.
End DamageEvent.

Module HealEvent.
Record t := mk {
  entityId : string;
  healing : R;
  source : option string;
  timestamp : Z
}.
End HealEvent.

Module DestroyEvent.
Record t := mk {
  entityId : string;
  cause : DestroyCause;
  source : option string;
  timestamp : Z
}.
End DestroyEvent.

(** The event arrays of [BasicDurabilitySystem], oldest first.  No
    handler is registered with [onDamage], [onHeal] or [onDestroy] in the
    repository; a handler call follows each [push] with the event pushed,
    and the model keeps the events. *)
Record BasicDurabilitySystem := mkDurabilitySystem {
  damageEvents : list DamageEvent.t;
  healEvents : list HealEvent.t;
  destroyEvents : list DestroyEvent.t
}.

Module Durability.

(** [calculateActualDamage(damage, armor)]; [!armor] holds for
    [undefined] and for [0]. *)
Definition calculateActualDamage (damage : R) (armor : option R) : R :=
  match armor with
  | None => damage
  | Some a =>
      if num_eq a 0 || num_le a 0 then damage
      else
        let damageReduction := Rmin 0.75 (a * 0.01) in
        damage * (1 - damageReduction)
  end.

(** [destroyEntity(entityId, cause, source)]; [now] is what [Date.now()]
    returns during the call. *)
Definition destroyEntity (now : Z) (st : ECSWorld * BasicDurabilitySystem)
    (entityId : string) (cause : DestroyCause) (source : option string)
    : ECSWorld * BasicDurabilitySystem :=
  let '(w, sys) := st in
  let destroyEvent := DestroyEvent.mk entityId cause source now in
  let sys' := mkDurabilitySystem (damageEvents sys) (healEvents sys)
                (destroyEvents sys ++ [destroyEvent]) in
  (snd (ECS.removeEntity w entityId), sys').

(** [damage(entityId, amount, source)].  A contract found under the
    type ["durability"] is a durability record: [validate] lets no other
    record with that type into the store. *)
Definition damage (now : Z) (st : ECSWorld * BasicDurabilitySystem)
    (entityId : string) (amount : R) (source : option string)
    : Outcome bool * (ECSWorld * BasicDurabilitySystem) :=
  let '(w, sys) := st in
  match ECS.getContract w entityId "durability" with
  | Some (Durability health maxHealth armor) =>
      let actualDamage := calculateActualDamage amount armor in
      if num_le actualDamage 0 then (Return false, st)
      else
        let newHealth := Rmax 0 (health - actualDamage) in
        let damageEvent := DamageEvent.mk entityId actualDamage source now in
        let sys1 := mkDurabilitySystem (damageEvents sys ++ [damageEvent])
                      (healEvents sys) (destroyEvents sys) in
        let updatedDurability := Durability newHealth maxHealth armor in
        match ECS.addContract w entityId updatedDurability with
        | (Return _, w1) =>
            if num_le newHealth 0
            then (Return true, destroyEntity now (w1, sys1) entityId cause_damage source)
            else (Return true, (w1, sys1))
        | (Throw e, w1) => (Throw e, (w1, sys1))
        | (Diverge, w1) => (Diverge, (w1, sys1))
        end
  | _ => (Return false, st)
  end.

(** [DEFAULT_DURABILITY] *)
Definition DEFAULT_DURABILITY : Contract := Durability 1 1 None.

(** [getDurability(entityId)]; [None] is the [Error] thrown for an entity
    without identity. *)
Definition getDurability (w : ECSWorld) (entityId : string) : option Contract :=
  match ECS.getContract w entityId "durability" with
  | Some durability => Some durability
  | None =>
      match ECS.getContract w entityId "identity" with
      | Some _ => Some DEFAULT_DURABILITY
      | None => None
      end
  end.

(** [heal(entityId, amount, source)] *)
Definition heal (now : Z) (st : ECSWorld * BasicDurabilitySystem)
    (entityId : string) (amount : R) (source : option string)
    : Outcome bool * (ECSWorld * BasicDurabilitySystem) :=
  let '(w, sys) := st in
  match ECS.getContract w entityId "durability" with
  | Some (Durability health maxHealth armor) =>
      if num_le maxHealth health then (Return false, st)
      else
        let newHealth := Rmin maxHealth (health + amount) in
        let actualHealing := newHealth - health in
        if num_le actualHealing 0 then (Return false, st)
        else
          let healEvent := HealEvent.mk entityId actualHealing source now in
          let sys1 := mkDurabilitySystem (damageEvents sys)
                        (healEvents sys ++ [healEvent]) (destroyEvents sys) in
          let updatedDurability := Durability newHealth maxHealth armor in
          match ECS.addContract w entityId updatedDurability with
          | (Return _, w1) => (Return true, (w1, sys1))
          | (Throw e, w1) => (Throw e, (w1, sys1))
          | (Diverge, w1) => (Diverge, (w1, sys1))
          end
  | _ => (Return false, st)
  end.

(** [repair(entityId)] *)
Definition repair (now : Z) (st : ECSWorld * BasicDurabilitySystem) (entityId : string)
    : Outcome bool * (ECSWorld * BasicDurabilitySystem) :=
  match ECS.getContract (fst st) entityId "durability" with
  | Some (Durability health maxHealth _) =>
      heal now st entityId (maxHealth - health) None
  | _ => (Return false, st)
  end.

(** [isDestroyed(entityId)]; the [catch] returns true.  A record found
    under ["durability"] or made from the default is a durability
    record. *)
Definition isDestroyed (w : ECSWorld) (entityId : string) : bool :=
  if negb (ECS.hasEntity w entityId) then true
  else
    match getDurability w entityId with
    | Some (Durability health _ _) => num_le health 0
    | Some _ => false
    | None => true
    end.

(** [getDurabilityPercentage(entityId)]; the [catch] returns 0. *)
Definition getDurabilityPercentage (w : ECSWorld) (entityId : string) : R :=
  match getDurability w entityId with
  | Some (Durability health maxHealth _) => health / maxHealth * 100
  | _ => 0
  end.

(** [isDamaged(entityId)]; the [catch] returns false. *)
Definition isDamaged (w : ECSWorld) (entityId : string) : bool :=
  match getDurability w entityId with
  | Some (Durability health maxHealth _) => num_lt health maxHealth
  | _ => false
  end.

Inductive HealthStatus := healthy | damaged | critical | destroyed | no_identity.

(** [getHealthStatus(entityId)].  The [try] block calls
    [getDurabilityPercentage] only, which catches what [getDurability]
    throws, so the [catch] that returns ['no-identity'] is not entered. *)
Definition getHealthStatus (w : ECSWorld) (entityId : string) : HealthStatus :=
  let percentage := getDurabilityPercentage w entityId in
  if num_le percentage 0 then destroyed
  else if num_le percentage 25 then critical
  else if num_lt percentage 100 then damaged
  else healthy.

(** [array.slice(-n)]: the last [n] elements. *)
Definition slice_last {A} (n : nat) (l : list A) : list A :=
  drop (length l - n) l.

(** [cleanupEvents()] *)
Definition cleanupEvents (sys : BasicDurabilitySystem) : BasicDurabilitySystem :=
  let maxEvents := 100%nat in
  let keep {A} (events : list A) :=
    if (maxEvents <? length events)%nat then slice_last maxEvents events else events in
  mkDurabilitySystem (keep (damageEvents sys)) (keep (healEvents sys))
    (keep (destroyEvents sys)).

(** [processDestroyedEntities()]: the loop runs over the array that
    [getEntitiesWithContract] returned before it. *)
Definition processDestroyedEntities (now : Z) (st : ECSWorld * BasicDurabilitySystem)
    : ECSWorld * BasicDurabilitySystem :=
  foldl (fun st entityId =>
           match ECS.getContract (fst st) entityId "durability" with
           | Some (Durability health _ _) =>
               if num_le health 0 then destroyEntity now st entityId cause_damage None
               else st
           | _ => st
           end)
    st (ECS.getEntitiesWithContract (fst st) "durability").

(** [update(deltaTime)] *)
Definition update (now : Z) (st : ECSWorld * BasicDurabilitySystem)
    : ECSWorld * BasicDurabilitySystem :=
  let '(w, sys) := processDestroyedEntities now st in
  (w, cleanupEvents sys).

End Durability.

(** ** Configuration (config.ts) *)

(** The constants that the modules below import from the configuration;
    each is read from the environment, with a default. *)
Record Config := mkConfig {
  CHUNK_SIZE : R;
  CHUNK_HEIGHT : R;
  COLLISION_EPSILON : R
}.

(** The configuration when the environment sets none of the variables. *)
Definition defaultConfig : Config := mkConfig 32 256 0.001.

(** ** Layers and chunk coordinates (world/space.ts) *)

Record LayerConfig := mkLayerConfig {
  layer_id : string;
  layer_name : string;
  layer_description : option string;
  chunkSize : R;
  layer_gravity : R;
  spawnPoint : Vec3;
  boundaries : option AABB
}.

Module Space.

(** The [layers] map of [LayerRegistry] after the constructor ran. *)
Definition initialLayers (cfg : Config) : gmap string LayerConfig :=
  {[ "default" :=
       mkLayerConfig "default" "Default Layer" (Some "The default world layer")
         (CHUNK_SIZE cfg) (-9.81) (mkVec3 0 10 0) None ]}.

(** [getChunkSize(layerId)]: [layer?.chunkSize || DEFAULT_CHUNK_SIZE] *)
Definition getChunkSize (cfg : Config) (layers : gmap string LayerConfig)
    (layerId : string) : R :=
  num_or (chunkSize <$> (layers !! layerId)) (CHUNK_SIZE cfg).

(** [worldToChunk(position, chunkSize)]: the object [{cx, cy, cz}] *)
Definition worldToChunk (cfg : Config) (position : Vec3) (chunkSize : R) : Z * Z * Z :=
  (Zfloor (x position / chunkSize),
   Zfloor (y position / CHUNK_HEIGHT cfg),
   Zfloor (z position / chunkSize)).

(** [chunkToWorld(cx, cy, cz, chunkSize)] *)
Definition chunkToWorld (cfg : Config) (kx ky kz : Z) (chunkSize : R) : Vec3 :=
  mkVec3 (IZR kx * chunkSize) (IZR ky * CHUNK_HEIGHT cfg) (IZR kz * chunkSize).

(** [keyFromPos(layerId, position, size)] *)
Definition keyFromPos (cfg : Config) (layers : gmap string LayerConfig)
    (layerId : string) (position : Vec3) (size : option R) : ChunkKey :=
  let chunkSize := num_or size (getChunkSize cfg layers layerId) in
  let '(kx, ky, kz) := worldToChunk cfg position chunkSize in
  ChunkUtils.create layerId kx ky kz.

(** [getIntersectingChunks(layerId, bounds, chunkSize)] *)
Definition getIntersectingChunks (cfg : Config) (layers : gmap string LayerConfig)
    (layerId : string) (bounds : AABB) (chunkSize : option R) : list ChunkKey :=
  let size := num_or chunkSize (getChunkSize cfg layers layerId) in
  let maxExclusive :=
    mkVec3 (Rmax (x (min bounds)) (x (max bounds) - 1e-6))
           (Rmax (y (min bounds)) (y (max bounds) - 1e-6))
           (Rmax (z (min bounds)) (z (max bounds) - 1e-6)) in
  let '(minCx, minCy, minCz) := worldToChunk cfg (min bounds) size in
  let '(maxCx, maxCy, maxCz) := worldToChunk cfg maxExclusive size in
  let spanX := x (max bounds) - x (min bounds) in
  let spanZ := z (max bounds) - z (min bounds) in
  let '(minCx, maxCx) :=
    if num_lt (x (min bounds)) 0 && num_lt 0 (x (max bounds)) && num_lt spanX size
    then (0%Z, 0%Z) else (minCx, maxCx) in
  let '(minCz, maxCz) :=
    if num_lt (z (min bounds)) 0 && num_lt 0 (z (max bounds)) && num_lt spanZ size
    then (0%Z, 0%Z) else (minCz, maxCz) in
  kx ← zrange minCx (maxCx + 1);
  ky ← zrange minCy (maxCy + 1);
  kz ← zrange minCz (maxCz + 1);
  [ChunkUtils.create layerId kx ky kz].

(** [getNeighboringChunks(centerChunk, radius)] *)
Definition getNeighboringChunks (centerChunk : ChunkKey) (radius : Z) : list ChunkKey :=
  dx ← zrange (- radius) (radius + 1);
  dy ← zrange (- radius) (radius + 1);
  dz ← zrange (- radius) (radius + 1);
  [ChunkUtils.create (layerId centerChunk)
     (cx centerChunk + dx) (cy centerChunk + dy) (cz centerChunk + dz)].

(** [worldToChunkForLayer(layerId, position)] and
    [chunkToWorldForLayer(layerId, cx, cy, cz)] *)
Definition worldToChunkForLayer (cfg : Config) (layers : gmap string LayerConfig)
    (layerId : string) (position : Vec3) : Z * Z * Z :=
  worldToChunk cfg position (getChunkSize cfg layers layerId).

Definition chunkToWorldForLayer (cfg : Config) (layers : gmap string LayerConfig)
    (layerId : string) (kx ky kz : Z) : Vec3 :=
  chunkToWorld cfg kx ky kz (getChunkSize cfg layers layerId).

(** [getChunkKey(layerId, position, chunkSize)] *)
Definition getChunkKey (cfg : Config) (layerId : string) (position : Vec3)
    (chunkSize : R) : ChunkKey :=
  let '(kx, ky, kz) := worldToChunk cfg position chunkSize in
  ChunkUtils.create layerId kx ky kz.

(** [getChunksInRadius(layerId, center, radius)] *)
Definition getChunksInRadius (cfg : Config) (layers : gmap string LayerConfig)
    (layerId : string) (center : Vec3) (radius : R) : list ChunkKey :=
  let chunkSize := getChunkSize cfg layers layerId in
  let chunkRadius := Zceil (radius / chunkSize) in
  let centerChunk := keyFromPos cfg layers layerId center None in
  getNeighboringChunks centerChunk chunkRadius.

(** [pointInAABB(point, bounds)] *)
Definition pointInAABB (point : Vec3) (bounds : AABB) : bool :=
  num_le (x (min bounds)) (x point) && num_le (x point) (x (max bounds)) &&
  num_le (y (min bounds)) (y point) && num_le (y point) (y (max bounds)) &&
  num_le (z (min bounds)) (z point) && num_le (z point) (z (max bounds)).

(** [aabbIntersect(a, b)] *)
Definition aabbIntersect (a b : AABB) : bool :=
  num_le (x (min a)) (x (max b)) && num_le (x (min b)) (x (max a)) &&
  num_le (y (min a)) (y (max b)) && num_le (y (min b)) (y (max a)) &&
  num_le (z (min a)) (z (max b)) && num_le (z (min b)) (z (max a)).

(** [distance(a, b)] and [distanceSquared(a, b)] *)
Definition distance (a b : Vec3) : R :=
  let dx := x a - x b in
  let dy := y a - y b in
  let dz := z a - z b in
  sqrt (dx * dx + dy * dy + dz * dz).

Definition distanceSquared (a b : Vec3) : R :=
  let dx := x a - x b in
  let dy := y a - y b in
  let dz := z a - z b in
  dx * dx + dy * dy + dz * dz.

(** [clamp(value, min, max)] *)
Definition clamp (value lo hi : R) : R := Rmax lo (Rmin hi value).

(** [lerp(a, b, t)] and [lerpVec3(a, b, t)] *)
Definition lerp (a b t : R) : R := a + (b - a) * clamp t 0 1.

Definition lerpVec3 (a b : Vec3) (t : R) : Vec3 :=
  mkVec3 (lerp (x a) (x b) t) (lerp (y a) (y b) t) (lerp (z a) (z b) t).

End Space.

(** The layer registry (world/space.ts, class LayerRegistry): its [layers]
    map; the [defaultLayer] field is set by the constructor and not
    written again. *)
Module LayerRegistry.

Definition getLayer (layers : gmap string LayerConfig) (layerId : string)
    : option LayerConfig :=
  layers !! layerId.

Definition hasLayer (layers : gmap string LayerConfig) (layerId : string) : bool :=
  bool_decide (is_Some (layers !! layerId)).

(** [createLayer(config)]: [id] is [config.id], [config] holds the other
    fields, [generated] is what [generateLayerId()] would return. *)
Definition createLayer (cfg : Config) (generated : string) (id : option string)
    (config : LayerConfig) (layers : gmap string LayerConfig)
    : LayerConfig * gmap string LayerConfig :=
  let id :=
    match id with
    | Some i => if bool_decide (i = ""%string) then generated else i
    | None => generated
    end in
  let layerConfig :=
    mkLayerConfig id (layer_name config) (layer_description config)
      (num_or (Some (chunkSize config)) (CHUNK_SIZE cfg))
      (layer_gravity config) (spawnPoint config) (boundaries config) in
  (layerConfig, <[id := layerConfig]> layers).

(** [removeLayer(layerId)]; [None] is the [Error] thrown for the default
    layer, which leaves the map as it is. *)
Definition removeLayer (layerId : string) (layers : gmap string LayerConfig)
    : option bool * gmap string LayerConfig :=
  if bool_decide (layerId = "default"%string) then (None, layers)
  else (Some (bool_decide (is_Some (layers !! layerId))), delete layerId layers).

End LayerRegistry.

(** ** Chunks and their occupancy grids (world/chunks.js) *)

(** [chunk.solidGrid]: [data] is the [Uint8Array]. *)
Record SolidGrid := mkSolidGrid {
  width : Z;
  height : Z;
  depth : Z;
  data : list Z
}.

(** A chunk record; [subscriptions] keeps the handles of the sockets. *)
Record Chunk := mkChunk {
  key : ChunkKey;
  chunkEntities : list string;
  loaded : bool;
  lastAccessed : Z;
  subscriptions : list nat;
  lastModified : Z;
  version : Z;
  solidGrid : option SolidGrid
}.

(** The state that the movement system works on: the entity store, the
    [chunks] map of the chunk manager (keyed by the string form of the
    chunk key) and the [layers] map of the layer registry. *)
Record Sim := mkSim {
  ecsWorld : ECSWorld;
  chunks : gmap string Chunk;
  layers : gmap string LayerConfig
}.

(** Code that reads and writes the state of the simulation. *)
Definition M (A : Type) : Type := Sim -> A * Sim.

Definition ret {A} (a : A) : M A := fun s => (a, s).

Definition bind {A B} (m : M A) (f : A -> M B) : M B :=
  fun s => let '(a, s') := m s in f a s'.

Declare Scope sim_scope.
Delimit Scope sim_scope with sim.
Notation "a <- m ;; k" := (bind m (fun a => k))
  (at level 100, m at next level, right associativity) : sim_scope.

(** A loop [for (const a of l) { acc = step(acc, a) }] over the state. *)
Fixpoint foldM {A B} (step : B -> A -> M B) (acc : B) (l : list A) : M B :=
  match l with
  | [] => ret acc
  | a :: l' => bind (step acc a) (fun acc' => foldM step acc' l')
  end.

Module ChunkManager.

(** [getChunk(chunkKey)]: gets the chunk, creating it when there is
    none; [now] is what [Date.now()] returns. *)
Definition getChunk (now : Z) (chunkKey : ChunkKey) : M Chunk := fun s =>
  let keyStr := ChunkUtils.toString chunkKey in
  match chunks s !! keyStr with
  | None =>
      let chunk := mkChunk chunkKey [] false now [] now 1 None in
      (chunk, mkSim (ecsWorld s) (<[keyStr := chunk]> (chunks s)) (layers s))
  | Some c =>
      let chunk := mkChunk (key c) (chunkEntities c) (loaded c) now (subscriptions c)
                     (lastModified c) (version c) (solidGrid c) in
      (chunk, mkSim (ecsWorld s) (<[keyStr := chunk]> (chunks s)) (layers s))
  end.

(** [isSolid(chunk, x, y, z)] *)
Definition isSolid (chunk : Chunk) (gx gy gz : Z) : bool :=
  match solidGrid chunk with
  | None => false
  | Some grid =>
      if ((gx <? 0) || (width grid <=? gx) || (gy <? 0) || (height grid <=? gy) ||
          (gz <? 0) || (depth grid <=? gz))%Z
      then false
      else
        let index := (gx + gy * width grid + gz * width grid * height grid)%Z in
        bool_decide (data grid !! Z.to_nat index = Some 1%Z)
  end.

(** [markChunkModified(chunk)] *)
Definition markChunkModified (now : Z) (chunk : Chunk) : Chunk :=
  mkChunk (key chunk) (chunkEntities chunk) (loaded chunk) (lastAccessed chunk)
    (subscriptions chunk) now (version chunk + 1) (solidGrid chunk).

(** [initializeSolidGrid(chunk, resolution)] for an integer resolution;
    [None] is the [RangeError] of [new Uint8Array(size)] for a negative
    size.  The array starts with zeros. *)
Definition initializeSolidGrid (chunk : Chunk) (resolution : Z) : option Chunk :=
  let size := (resolution * resolution * resolution)%Z in
  if (size <? 0)%Z then None
  else
    Some (mkChunk (key chunk) (chunkEntities chunk) (loaded chunk) (lastAccessed chunk)
            (subscriptions chunk) (lastModified chunk) (version chunk)
            (Some (mkSolidGrid resolution resolution resolution
                     (replicate (Z.to_nat size) 0%Z)))).

(** [setSolid(chunk, x, y, z, solid)] at an integer grid position; an
    assignment past the end of a [Uint8Array] does nothing. *)
Definition setSolid (now : Z) (chunk : Chunk) (gx gy gz : Z) (solid : bool) : Chunk :=
  match solidGrid chunk with
  | None => chunk
  | Some grid =>
      if ((gx <? 0) || (width grid <=? gx) || (gy <? 0) || (height grid <=? gy) ||
          (gz <? 0) || (depth grid <=? gz))%Z
      then chunk
      else
        let index := (gx + gy * width grid + gz * width grid * height grid)%Z in
        let data' := <[Z.to_nat index := if solid then 1%Z else 0%Z]> (data grid) in
        markChunkModified now
          (mkChunk (key chunk) (chunkEntities chunk) (loaded chunk) (lastAccessed chunk)
             (subscriptions chunk) (lastModified chunk) (version chunk)
             (Some (mkSolidGrid (width grid) (height grid) (depth grid) data')))
  end.





End ChunkManager.

(** ** The movement system (world/systems/movement.js) *)

(** A collision record [{hit, point, normal, distance, entityId}]. *)
Record Collision := mkCollision {
  hit : bool;
  point : Vec3;
  normal : Vec3;
  distance : R;
  entityId : option string
}.

(** The result [{ok, position, blockedReason, collisionNormal}] of
    [attemptMove]. *)
Record MoveResult := mkMoveResult {
  ok : bool;
  position : Vec3;
  blockedReason : option string;
  collisionNormal : option Vec3
}.

(** The result [{hit, t, normal}] of [intersectSegmentAABB]. *)
Record Sweep := mkSweep {
  sweepHit : bool;
  t : R;
  sweepNormal : Vec3
}.

Inductive Axis := axisX | axisY | axisZ.

(** [String.prototype.includes] *)
Fixpoint includes (needle hay : string) : bool :=
  String.prefix needle hay ||
  match hay with
  | EmptyString => false
  | String _ hay' => includes needle hay'
  end.

Module Movement.

Local Open Scope sim_scope.

(** The calls on [this.ecsWorld] and on the layer registry. *)
Definition getContract (entityId contractType : string) : M (option Contract) :=
  fun s => (ECS.getContract (ecsWorld s) entityId contractType, s).

Definition getEntitiesWithContract (contractType : string) : M (list string) :=
  fun s => (ECS.getEntitiesWithContract (ecsWorld s) contractType, s).

Definition addContract (entityId : string) (contract : Contract) : M (Outcome unit) :=
  fun s =>
    let '(r, w) := ECS.addContract (ecsWorld s) entityId contract in
    (r, mkSim w (chunks s) (layers s)).

Definition getLayers : M (gmap string LayerConfig) := fun s => (layers s, s).

(** [v[axis]] *)
Definition coord (axis : Axis) (v : Vec3) : R :=
  match axis with
  | axisX => x v
  | axisY => y v
  | axisZ => z v
  end.

(** The normal [{x: 0, y: 0, z: 0}] with [sign] put on [axis]. *)
Definition axisNormal (axis : Axis) (sign : R) : Vec3 :=
  match axis with
  | axisX => mkVec3 sign 0 0
  | axisY => mkVec3 0 sign 0
  | axisZ => mkVec3 0 0 sign
  end.

(** The collision record that the checks return when nothing is hit. *)
Definition noHit (movingAABB : AABB) (displacement : Vec3) : Collision :=
  mkCollision false (Vec3Utils.add (min movingAABB) displacement) (mkVec3 0 1 0)
    (Vec3Utils.length displacement) None.

(** [getEntityAABB(shape, position)], on the bounds of the shape. *)
Definition getEntityAABB (bounds : AABB) (position : Vec3) : AABB :=
  mkAABB (Vec3Utils.add (min bounds) position) (Vec3Utils.add (max bounds) position).

(** The [map] over the key strings in [getChunksForMovement]: the first
    string that does not parse throws. *)
Fixpoint parseKeys (keyStrs : list string) : Outcome (list ChunkKey) :=
  match keyStrs with
  | [] => Return []
  | keyStr :: rest =>
      match ChunkUtils.fromString keyStr with
      | None => Throw (InvalidChunkKey keyStr)
      | Some key =>
          match parseKeys rest with
          | Return keys => Return (key :: keys)
          | failed => failed
          end
      end
  end.

(** [getChunksForMovement(startPos, endPos)]; the [Set] of key strings
    keeps the first occurrence of each string, in insertion order. *)
Definition getChunksForMovement (cfg : Config) (startPos endPos : Vec3)
    : M (Outcome (list ChunkKey)) :=
  registry <- getLayers ;;
  let layerId := "default"%string in
  let startChunk := Space.keyFromPos cfg registry layerId startPos None in
  let endChunk := Space.keyFromPos cfg registry layerId endPos None in
  let chunkSet :=
    foldl (fun set k => ECS.set_add (ChunkUtils.toString k) set) []
      (startChunk :: endChunk :: Space.getNeighboringChunks startChunk 1) in
  ret (parseKeys chunkSet).

(** [checkStaticSolids(movingAABB, displacement, chunkKey)], after the
    chunk has been fetched.  The three nested loops return the same
    record at the first solid cell they meet: the model asks whether
    there is one. *)
Definition gridCollision (chunk : Chunk) (movingAABB : AABB) (displacement : Vec3)
    : Collision :=
  match solidGrid chunk with
  | None => noHit movingAABB displacement
  | Some grid =>
      let endAABB :=
        mkAABB (Vec3Utils.add (min movingAABB) displacement)
               (Vec3Utils.add (max movingAABB) displacement) in
      let gridRes := width grid in
      let chunkSize := 32 in
      let minGridX := Zfloor (js_mod (x (min endAABB)) chunkSize / chunkSize * IZR gridRes) in
      let maxGridX := Zceil (js_mod (x (max endAABB)) chunkSize / chunkSize * IZR gridRes) in
      let minGridY := Zfloor (js_mod (y (min endAABB)) 256 / 256 * IZR gridRes) in
      let maxGridY := Zceil (js_mod (y (max endAABB)) 256 / 256 * IZR gridRes) in
      let minGridZ := Zfloor (js_mod (z (min endAABB)) chunkSize / chunkSize * IZR gridRes) in
      let maxGridZ := Zceil (js_mod (z (max endAABB)) chunkSize / chunkSize * IZR gridRes) in
      if existsb (fun gx =>
           existsb (fun gy =>
             existsb (fun gz => ChunkManager.isSolid chunk gx gy gz)
               (zrange (Z.max 0 minGridZ) (Z.min gridRes maxGridZ)))
             (zrange (Z.max 0 minGridY) (Z.min gridRes maxGridY)))
           (zrange (Z.max 0 minGridX) (Z.min gridRes maxGridX))
      then
        mkCollision true (min endAABB) (mkVec3 0 1 0)
          (Vec3Utils.length displacement * 0.5) None
      else noHit movingAABB displacement
  end.

Definition checkStaticSolids (now : Z) (movingAABB : AABB) (displacement : Vec3)
    (chunkKey : ChunkKey) : M Collision :=
  chunk <- ChunkManager.getChunk now chunkKey ;;
  ret (gridCollision chunk movingAABB displacement).

(** One turn of the loop over the axes in [intersectSegmentAABB], on
    the variables [(tmin, tmax, normal)]; [None] is the early
    [return { hit: false, ... }]. *)
Definition slab (start dir : Vec3) (aabb : AABB) (st : option (R * R * Vec3))
    (axis : Axis) : option (R * R * Vec3) :=
  match st with
  | None => None
  | Some (tmin, tmax, normal) =>
      let s := coord axis start in
      let d := coord axis dir in
      let lo := coord axis (min aabb) in
      let hi := coord axis (max aabb) in
      if num_lt (Rabs d) 1e-9 then
        if num_lt s lo || num_lt hi s then None else Some (tmin, tmax, normal)
      else
        let t1 := (lo - s) / d in
        let t2 := (hi - s) / d in
        let '(t1, t2) := if num_lt t2 t1 then (t2, t1) else (t1, t2) in
        let '(tmin, normal) :=
          if num_lt tmin t1
          then (t1, axisNormal axis (if num_lt 0 d then -1 else 1))
          else (tmin, normal) in
        let tmax := Rmin tmax t2 in
        if num_lt tmax tmin then None else Some (tmin, tmax, normal)
  end.

(** [intersectSegmentAABB(start, end, aabb)] *)
Definition intersectSegmentAABB (start end_ : Vec3) (aabb : AABB) : Sweep :=
  let dir := Vec3Utils.subtract end_ start in
  match foldl (slab start dir aabb) (Some (0, 1, mkVec3 0 0 0)) [axisX; axisY; axisZ] with
  | None => mkSweep false 1 (mkVec3 0 0 0)
  | Some (tmin, _, normal) => mkSweep (num_le 0 tmin && num_le tmin 1) tmin normal
  end.

(** [checkDynamicSolid(movingAABB, displacement, otherEntityId)] *)
Definition checkDynamicSolid (movingAABB : AABB) (displacement : Vec3)
    (otherEntityId : string) : M Collision :=
  otherSolidity <- getContract otherEntityId "solidity" ;;
  match otherSolidity with
  | Some (Solidity true _) =>
      otherShape <- getContract otherEntityId "shape" ;;
      otherMobility <- getContract otherEntityId "mobility" ;;
      ret match otherShape, otherMobility with
          | Some (Shape otherBounds _), Some (Mobility otherPosition _ _ _) =>
              let otherAABB := getEntityAABB otherBounds otherPosition in
              let halfExtents :=
                mkVec3 ((x (max movingAABB) - x (min movingAABB)) / 2)
                       ((y (max movingAABB) - y (min movingAABB)) / 2)
                       ((z (max movingAABB) - z (min movingAABB)) / 2) in
              let startCenter :=
                mkVec3 ((x (min movingAABB) + x (max movingAABB)) / 2)
                       ((y (min movingAABB) + y (max movingAABB)) / 2)
                       ((z (min movingAABB) + z (max movingAABB)) / 2) in
              let endCenter := Vec3Utils.add startCenter displacement in
              let expandedAABB :=
                mkAABB
                  (mkVec3 (x (min otherAABB) - x halfExtents)
                          (y (min otherAABB) - y halfExtents)
                          (z (min otherAABB) - z halfExtents))
                  (mkVec3 (x (max otherAABB) + x halfExtents)
                          (y (max otherAABB) + y halfExtents)
                          (z (max otherAABB) + z halfExtents)) in
              let sweep := intersectSegmentAABB startCenter endCenter expandedAABB in
              if sweepHit sweep then
                let totalDist := Vec3Utils.length displacement in
                let hitDist := Rmax 0 (Rmin 1 (t sweep)) * totalDist in
                let hitPoint :=
                  Vec3Utils.add startCenter
                    (Vec3Utils.multiply (Vec3Utils.subtract endCenter startCenter)
                       (t sweep)) in
                mkCollision true hitPoint (sweepNormal sweep) hitDist (Some otherEntityId)
              else noHit movingAABB displacement
          | _, _ => noHit movingAABB displacement
          end
  | _ => ret (noHit movingAABB displacement)
  end.

(** The update [if (c.hit && c.distance < closestCollision.distance)
    closestCollision = c] of both loops of [performSweptAABB]. *)
Definition closer (closestCollision c : Collision) : Collision :=
  if hit c && num_lt (distance c) (distance closestCollision) then c
  else closestCollision.

(** [performSweptAABB(entityId, startPos, endPos, shape)] *)
Definition performSweptAABB (cfg : Config) (now : Z) (entityId : string)
    (startPos endPos : Vec3) (bounds : AABB) : M (Outcome Collision) :=
  let displacement := Vec3Utils.subtract endPos startPos in
  let movingAABB := getEntityAABB bounds startPos in
  let closestCollision :=
    mkCollision false endPos (mkVec3 0 1 0) (Vec3Utils.length displacement) None in
  affectedChunks <- getChunksForMovement cfg startPos endPos ;;
  match affectedChunks with
  | Return affectedChunks =>
      withSolidity <- getEntitiesWithContract "solidity" ;;
      let solidEntities := ECS.set_delete entityId withSolidity in
      closestCollision <-
        foldM (fun closestCollision chunkKey =>
                 staticCollision <- checkStaticSolids now movingAABB displacement chunkKey ;;
                 ret (closer closestCollision staticCollision))
          closestCollision affectedChunks ;;
      closestCollision <-
        foldM (fun closestCollision otherEntityId =>
                 dynamicCollision <- checkDynamicSolid movingAABB displacement otherEntityId ;;
                 ret (closer closestCollision dynamicCollision))
          closestCollision solidEntities ;;
      ret (Return closestCollision)
  | Throw e => ret (Throw e)
  | Diverge => ret Diverge
  end.

(** [clampMovementToCollision(startPos, endPos, collision)] *)
Definition clampMovementToCollision (cfg : Config) (startPos endPos : Vec3)
    (collision : Collision) : Vec3 :=
  let displacement := Vec3Utils.subtract endPos startPos in
  let clampFactor :=
    Rmax 0 (distance collision / Vec3Utils.length displacement - COLLISION_EPSILON cfg) in
  let clampedDisplacement := Vec3Utils.multiply displacement clampFactor in
  Vec3Utils.add startPos clampedDisplacement.

(** [collision.entityId ? `Blocked by entity ${collision.entityId}` : 'Blocked by solid'];
    the empty string is falsy. *)
Definition blockedReasonOf (collision : Collision) : string :=
  match entityId collision with
  | Some id => if bool_decide (id = ""%string) then "Blocked by solid"
               else ("Blocked by entity " ++ id)%string
  | None => "Blocked by solid"
  end.

(** [attemptMove(entityId, want, deltaTime)].  A contract found under
    the type ["mobility"] (["shape"]) is a mobility (shape) record:
    [validate] lets no other record with that type into the store. *)
Definition attemptMove (cfg : Config) (now : Z) (entityId : string) (want : Vec3)
    (deltaTime : R) : M (Outcome MoveResult) :=
  mobility <- getContract entityId "mobility" ;;
  shape <- getContract entityId "shape" ;;
  match mobility with
  | Some (Mobility currentPosition _ maxSpeed _) =>
      match shape with
      | Some (Shape bounds _) =>
          let maxSpeed := num_or maxSpeed 5 in
          let direction := Vec3Utils.subtract want currentPosition in
          let wantDistance := Vec3Utils.length direction in
          if num_lt wantDistance (COLLISION_EPSILON cfg) then
            ret (Return (mkMoveResult true currentPosition None None))
          else
            let normalizedDirection := Vec3Utils.normalize direction in
            let maxDisplacement := maxSpeed * deltaTime in
            let actualDistance := Rmin wantDistance maxDisplacement in
            let displacement := Vec3Utils.multiply normalizedDirection actualDistance in
            let proposedPosition := Vec3Utils.add currentPosition displacement in
            collision <- performSweptAABB cfg now entityId currentPosition
                           proposedPosition bounds ;;
            match collision with
            | Return collision =>
                if negb (hit collision) then
                  ret (Return (mkMoveResult true proposedPosition None None))
                else
                  let clampedPosition :=
                    clampMovementToCollision cfg currentPosition proposedPosition
                      collision in
                  ret (Return (mkMoveResult false clampedPosition
                                 (Some (blockedReasonOf collision))
                                 (Some (normal collision))))
            | Throw e => ret (Throw e)
            | Diverge => ret Diverge
            end
      | _ =>
          ret (Return (mkMoveResult false currentPosition
                         (Some "No shape contract"%string) None))
      end
  | _ =>
      ret (Return (mkMoveResult false (mkVec3 0 0 0)
                     (Some "No mobility contract"%string) None))
  end.

(** [moveEntity(entityId, targetPosition, deltaTime)]; the condition
    [result.ok || result.position] holds for every result. *)
Definition moveEntity (cfg : Config) (now : Z) (entityId : string)
    (targetPosition : Vec3) (deltaTime : R) : M (Outcome bool) :=
  result <- attemptMove cfg now entityId targetPosition deltaTime ;;
  match result with
  | Return result =>
      mobility <- getContract entityId "mobility" ;;
      match mobility with
      | Some (Mobility _ velocity maxSpeed acceleration) =>
          added <- addContract entityId
                     (Mobility (position result) velocity maxSpeed acceleration) ;;
          match added with
          | Return _ => ret (Return (ok result))
          | Throw e => ret (Throw e)
          | Diverge => ret Diverge
          end
      | _ => ret (Return (ok result))
      end
  | Throw e => ret (Throw e)
  | Diverge => ret Diverge
  end.

(** [checkCollision(entityId, newPosition)] *)
Definition checkCollision (cfg : Config) (now : Z) (entityId : string)
    (newPosition : Vec3) : M (Outcome bool) :=
  result <- attemptMove cfg now entityId newPosition 0.016 ;;
  match result with
  | Return result => ret (Return (negb (ok result)))
  | Throw e => ret (Throw e)
  | Diverge => ret Diverge
  end.

(** [isOnGround(entityId)] *)
Definition isOnGround (cfg : Config) (now : Z) (entityId : string) : M (Outcome bool) :=
  mobility <- getContract entityId "mobility" ;;
  match mobility with
  | Some (Mobility position _ _ _) =>
      checkCollision cfg now entityId
        (mkVec3 (x position) (y position - 0.1) (z position))
  | _ => ret (Return false)
  end.

(** The end [this.ecsWorld.addContract(entityId, updatedMobility); return true]
    of [applyImpulse], [setVelocity] and [teleport]. *)
Definition storeMobility (entityId : string) (updatedMobility : Contract)
    : M (Outcome bool) :=
  added <- addContract entityId updatedMobility ;;
  match added with
  | Return _ => ret (Return true)
  | Throw e => ret (Throw e)
  | Diverge => ret Diverge
  end.

(** [applyImpulse(entityId, impulse)] *)
Definition applyImpulse (entityId : string) (impulse : Vec3) : M (Outcome bool) :=
  mobility <- getContract entityId "mobility" ;;
  match mobility with
  | Some (Mobility position velocity maxSpeed acceleration) =>
      let currentVelocity := default (mkVec3 0 0 0) velocity in
      let newVelocity := Vec3Utils.add currentVelocity impulse in
      storeMobility entityId (Mobility position (Some newVelocity) maxSpeed acceleration)
  | _ => ret (Return false)
  end.

(** [setVelocity(entityId, velocity)] *)
Definition setVelocity (entityId : string) (velocity : Vec3) : M (Outcome bool) :=
  mobility <- getContract entityId "mobility" ;;
  match mobility with
  | Some (Mobility position _ maxSpeed acceleration) =>
      storeMobility entityId (Mobility position (Some velocity) maxSpeed acceleration)
  | _ => ret (Return false)
  end.

(** [teleport(entityId, position)] *)
Definition teleport (cfg : Config) (now : Z) (entityId : string) (position : Vec3)
    : M (Outcome bool) :=
  mobility <- getContract entityId "mobility" ;;
  match mobility with
  | Some (Mobility _ _ maxSpeed acceleration) =>
      collides <- checkCollision cfg now entityId position ;;
      match collides with
      | Return true => ret (Return false)
      | Return false =>
          storeMobility entityId
            (Mobility position (Some (mkVec3 0 0 0)) maxSpeed acceleration)
      | Throw e => ret (Throw e)
      | Diverge => ret Diverge
      end
  | _ => ret (Return false)
  end.

End Movement.

(** ** Vocabulary of the statements *)

(** The next character of a string, if any, is not a digit. *)
Definition endsDigits (r : string) : Prop :=
  match r with
  | String c _ => ChunkUtils.isDigit c = false
  | EmptyString => True
  end.

(** The contracts of an entity, [[]] when there is no such entity. *)
Definition contractsOf (w : ECSWorld) (e : string) : list Obj :=
  default [] (entities w !! e).

(** The contracts of an entity that have a given type, oldest first. *)
Definition contractsOfType (w : ECSWorld) (e ct : string) : list Obj :=
  filter (fun o => typeOf (val o) = ct) (contractsOf w e).

(** How many contracts the eviction loop of [addContract] removes from
    [n] contracts of a type whose maximum is [maxAllowed]. *)
Fixpoint evictCount (maxAllowed : R) (n : nat) : nat :=
  match n with
  | O => O
  | S n' =>
      if num_le maxAllowed (IZR (Z.of_nat (S n'))) then S (evictCount maxAllowed n') else O
  end.

(** The index after [removeContractInternal] took a contract of type [ct]
    from entity [e]. *)
Definition indexRemove (ct e : string) (index : gmap string (list string))
    : gmap string (list string) :=
  match index !! ct with
  | Some entitiesWithContract =>
      match ECS.set_delete e entitiesWithContract with
      | [] => delete ct index
      | rest => <[ct := rest]> index
      end
  | None => index
  end.

(** The store after the contracts [gone] of entity [e], whose contracts
    were [cs], have been removed one by one. *)
Definition evicted (w : ECSWorld) (e : string) (cs gone : list Obj) : ECSWorld :=
  mkECSWorld
    (<[e := filter (fun c => ref c ∉ ref <$> gone) cs]> (entities w))
    (foldl (fun index o => indexRemove (typeOf (val o)) e index) (contractIndex w) gone)
    (nextRef w)
    (hookCalls w ++ ((fun o => ContractRemove e (val o)) <$> gone)).

(** The store after [addContract] put a new object last on entity [e],
    whose contracts were [cs]. *)
Definition added (w : ECSWorld) (e : string) (cs : list Obj) (o : Obj) : ECSWorld :=
  mkECSWorld
    (<[e := cs ++ [o]]> (entities w))
    (<[typeOf (val o) :=
         ECS.set_add e (default [] (contractIndex w !! typeOf (val o)))]> (contractIndex w))
    (nextRef w)
    (hookCalls w ++ [ContractAdd e (val o)]).

(** A record that [validate] returns as it is. *)
Definition validContract (c : Contract) : Prop :=
  ContractRegistry.validate c = Some c.

(** What the store maintains for each entity: the objects have distinct
    references and each holds a record that [validate] returned. *)
Definition entityInvariant (w : ECSWorld) (e : string) : Prop :=
  NoDup (ref <$> contractsOf w e) /\
  Forall (fun o => validContract (val o)) (contractsOf w e).

(** An interval [lo, hi] that has the origin strictly inside and is
    shorter than [size]. *)
Definition straddlesOrigin (lo hi size : R) : Prop :=
  lo < 0 /\ 0 < hi /\ hi - lo < size.

(** A computation that leaves the entity store as it found it. *)
Definition preservesStore {A} (m : M A) : Prop :=
  forall s, ecsWorld (snd (m s)) = ecsWorld s.

(** The occupancy grid of the chunk with a given key, if the chunk is
    there and has one. *)
Definition gridOf (s : Sim) (k : ChunkKey) : option SolidGrid :=
  chunks s !! ChunkUtils.toString k ≫= solidGrid.

(** A computation that leaves every occupancy grid as it found it. *)
Definition preservesGrids {A} (m : M A) : Prop :=
  forall s k, gridOf (snd (m s)) k = gridOf s k.

(** Two states with the same entity store, the same occupancy grids and
    the same layers. *)
Definition sameWorld (s s' : Sim) : Prop :=
  ecsWorld s' = ecsWorld s /\ (forall k, gridOf s' k = gridOf s k) /\ layers s' = layers s.

(** The candidate collisions of [performSweptAABB] in a state: the one of
    the occupancy grid of a chunk, and the one of another entity. *)
Definition staticCandidate (s : Sim) (movingAABB : AABB) (displacement : Vec3)
    (k : ChunkKey) : Collision :=
  fst (Movement.checkStaticSolids 0 movingAABB displacement k s).

Definition dynamicCandidate (s : Sim) (movingAABB : AABB) (displacement : Vec3)
    (other : string) : Collision :=
  fst (Movement.checkDynamicSolid movingAABB displacement other s).

(** The chunks that [performSweptAABB] looks at for a move, [[]] if
    [getChunksForMovement] throws. *)
Definition affectedChunks (cfg : Config) (s : Sim) (startPos endPos : Vec3) : list ChunkKey :=
  match fst (Movement.getChunksForMovement cfg startPos endPos s) with
  | Return keys => keys
  | _ => []
  end.

(** The other entities that [performSweptAABB] looks at for a move of [e]. *)
Definition solidEntities (s : Sim) (e : string) : list string :=
  ECS.set_delete e (ECS.getEntitiesWithContract (ecsWorld s) "solidity").

(** All candidates of a move, in the order in which [performSweptAABB]
    looks at them: the grids of the affected chunks, then the entities. *)
Definition candidates (cfg : Config) (s : Sim) (e : string) (startPos endPos : Vec3)
    (bounds : AABB) : list Collision :=
  let displacement := Vec3Utils.subtract endPos startPos in
  let movingAABB := Movement.getEntityAABB bounds startPos in
  (staticCandidate s movingAABB displacement <$> affectedChunks cfg s startPos endPos) ++
  (dynamicCandidate s movingAABB displacement <$> solidEntities s e).

(** Adds a key to a list of keys unless a key with the same string form
    is in the list: what the [Set] of key strings keeps. *)
Definition addKey (keys : list ChunkKey) (k : ChunkKey) : list ChunkKey :=
  if bool_decide (ChunkUtils.toString k ∈ ChunkUtils.toString <$> keys) then keys
  else keys ++ [k].

(** What the store maintains for all entities: the objects of an entity
    have distinct references, older than the next one [validate] hands
    out, and each holds a record that [validate] returned. *)
Definition storeInvariant (w : ECSWorld) : Prop :=
  forall e cs, entities w !! e = Some cs ->
    NoDup (ref <$> cs) /\
    Forall (fun o => validContract (val o) /\ (ref o < nextRef w)%nat) cs.

(** Every entity that the index lists for a type holds a contract of
    the type. *)
Definition indexSound (w : ECSWorld) : Prop :=
  forall e ct, e ∈ ECS.getEntitiesWithContract w ct -> ECS.hasContract w e ct = true.

(** The states of the store: the empty one, and those that the four
    operations leave, however they end. *)
Inductive reachable : ECSWorld -> Prop :=
| reach_createECSWorld : reachable ECS.createECSWorld
| reach_createEntity w id contracts :
    reachable w -> reachable (snd (ECS.createEntity w id contracts))
| reach_removeEntity w id :
    reachable w -> reachable (snd (ECS.removeEntity w id))
| reach_addContract w e c :
    reachable w -> reachable (snd (ECS.addContract w e c))
| reach_removeContract w e ct :
    reachable w -> reachable (snd (ECS.removeContract w e ct)).

(** A grid whose array has one cell for each position. *)
Definition gridWellFormed (grid : SolidGrid) : Prop :=
  (0 <= width grid)%Z /\ (0 <= height grid)%Z /\ (0 <= depth grid)%Z /\
  length (data grid) = Z.to_nat (width grid * height grid * depth grid).

(** A position inside a grid. *)
Definition inGrid (grid : SolidGrid) (gx gy gz : Z) : Prop :=
  (0 <= gx < width grid)%Z /\ (0 <= gy < height grid)%Z /\ (0 <= gz < depth grid)%Z.

(** The point of the segment from [start] to [end_] at the parameter
    [tau] is inside a box on an axis; on an axis along which the segment
    does not move (by 1e-9 or more) this is said of its start. *)
Definition insideOn (start end_ : Vec3) (aabb : AABB) (axis : Axis) (tau : R) : Prop :=
  let s := Movement.coord axis start in
  let d := Movement.coord axis end_ - Movement.coord axis start in
  (Rabs d < 1e-9 ->
     Movement.coord axis (min aabb) <= s <= Movement.coord axis (max aabb)) /\
  (1e-9 <= Rabs d ->
     Movement.coord axis (min aabb) <= s + tau * d <= Movement.coord axis (max aabb)).

(** A chunk key whose three indices are safe integers: the keys whose
    string form [ChunkUtils.toString] prints in plain digits. *)
Definition safeKey (k : ChunkKey) : Prop :=
  safeInteger (cx k) /\ safeInteger (cy k) /\ safeInteger (cz k).

(** ** States used as examples *)

Definition origin : Vec3 := mkVec3 0 0 0.

(** The entity of the test "should handle multiple entrances on the same
    entity" after its first [addContract]: an identity and one entrance. *)
Definition multiDoor : ECSWorld :=
  mkECSWorld
    {[ "multi-door" :=
         [mkObj 0 (Identity "multi-door" (Some "Multi Door") None);
          mkObj 1 (Entrance "overworld" origin true)] ]}
    {[ "identity" := ["multi-door"]; "entrance" := ["multi-door"] ]}
    2
    [ContractAdd "multi-door" (Identity "multi-door" (Some "Multi Door") None);
     EntityAdd "multi-door";
     ContractAdd "multi-door" (Entrance "overworld" origin true)].

(** An entity that holds three portable contracts, the global maximum. *)
Definition crate : ECSWorld :=
  mkECSWorld
    {[ "crate" :=
         [mkObj 0 (Portable true None); mkObj 1 (Portable true None);
          mkObj 2 (Portable true None)] ]}
    {[ "portable" := ["crate"] ]}
    3
    [ContractAdd "crate" (Portable true None); ContractAdd "crate" (Portable true None);
     ContractAdd "crate" (Portable true None); EntityAdd "crate"].

(** An entity created with two portable contracts. *)
Definition twoPortables : ECSWorld :=
  mkECSWorld
    {[ "crate" := [mkObj 0 (Portable true None); mkObj 1 (Portable false None)] ]}
    {[ "portable" := ["crate"] ]}
    2
    [ContractAdd "crate" (Portable true None); ContractAdd "crate" (Portable false None);
     EntityAdd "crate"].

(** An entity created with an identity only. *)
Definition lamp : ECSWorld :=
  mkECSWorld
    {[ "lamp" := [mkObj 0 (Identity "lamp" None None)] ]}
    {[ "identity" := ["lamp"] ]}
    1
    [ContractAdd "lamp" (Identity "lamp" None None); EntityAdd "lamp"].

(** An entity with an identity and a durability of 5 out of 5. *)
Definition target : ECSWorld :=
  mkECSWorld
    {[ "target" :=
         [mkObj 0 (Identity "target" None None); mkObj 1 (Durability 5 5 None)] ]}
    {[ "identity" := ["target"]; "durability" := ["target"] ]}
    2
    [ContractAdd "target" (Identity "target" None None);
     ContractAdd "target" (Durability 5 5 None); EntityAdd "target"].

(** The same entity at 2 out of 5. *)
Definition wounded : ECSWorld :=
  mkECSWorld
    {[ "target" :=
         [mkObj 0 (Identity "target" None None); mkObj 1 (Durability 2 5 None)] ]}
    {[ "identity" := ["target"]; "durability" := ["target"] ]}
    2
    [ContractAdd "target" (Identity "target" None None);
     ContractAdd "target" (Durability 2 5 None); EntityAdd "target"].

(** The box of the test "should find chunks that an AABB intersects". *)
Definition narrowBox : AABB := mkAABB (mkVec3 (-5) 0 (-5)) (mkVec3 5 10 5).

(** A box one unit wide in x and z that straddles the origin in y. *)
Definition uprightBox : AABB := mkAABB (mkVec3 0 (-5) 0) (mkVec3 1 5 1).

(** The same box turned onto the x axis. *)
Definition lyingBox : AABB := mkAABB (mkVec3 (-5) 0 0) (mkVec3 5 1 1).

(** The entities of the tests "should fail for entities without
    mobility" and "should fail for entities without shape". *)
Definition unitBox : AABB := mkAABB (mkVec3 (-0.5) (-0.5) (-0.5)) (mkVec3 0.5 0.5 0.5).

Definition incomplete : Sim :=
  mkSim
    (mkECSWorld
       {[ "no-mobility" := [mkObj 0 (Shape unitBox (Some box))];
          "no-shape" := [mkObj 1 (Mobility origin None (Some 5) None)] ]}
       {[ "shape" := ["no-mobility"]; "mobility" := ["no-shape"] ]}
       2
       [ContractAdd "no-mobility" (Shape unitBox (Some box)); EntityAdd "no-mobility";
        ContractAdd "no-shape" (Mobility origin None (Some 5) None); EntityAdd "no-shape"])
    ∅
    (Space.initialLayers defaultConfig).

(** The entity of the test "should allow movement in empty space", in a
    world with no chunk yet. *)
Definition emptySpace : Sim :=
  mkSim
    (mkECSWorld
       {[ "test-entity" :=
            [mkObj 0 (Mobility origin None (Some 5) None);
             mkObj 1 (Shape unitBox (Some box))] ]}
       {[ "mobility" := ["test-entity"]; "shape" := ["test-entity"] ]}
       2
       [ContractAdd "test-entity" (Mobility origin None (Some 5) None);
        ContractAdd "test-entity" (Shape unitBox (Some box)); EntityAdd "test-entity"])
    ∅
    (Space.initialLayers defaultConfig).

(** A grid as [generateChunkContent] leaves it at a chunk where it puts
    a block: 16 cells on each axis, the cell (8, 8, 8) solid. *)
Definition blockGrid : SolidGrid :=
  mkSolidGrid 16 16 16 (replicate 2184 0%Z ++ [1%Z] ++ replicate 1911 0%Z).

Definition originChunk : ChunkKey := mkChunkKey "default" 0 0 0.

(** A mover at (10, 130, 17), a solid obstacle at (15, 130, 17), both
    with the unit box as shape, in the chunk at the origin, which is
    loaded and has the grid above. *)
Definition tie : Sim :=
  mkSim
    (mkECSWorld
       {[ "mover" :=
            [mkObj 0 (Mobility (mkVec3 10 130 17) None None None);
             mkObj 1 (Shape unitBox (Some box))];
          "obstacle" :=
            [mkObj 2 (Mobility (mkVec3 15 130 17) None None None);
             mkObj 3 (Shape unitBox (Some box));
             mkObj 4 (Solidity true None)] ]}
       {[ "mobility" := ["mover"; "obstacle"]; "shape" := ["mover"; "obstacle"];
          "solidity" := ["obstacle"] ]}
       5
       [ContractAdd "mover" (Mobility (mkVec3 10 130 17) None None None);
        ContractAdd "mover" (Shape unitBox (Some box)); EntityAdd "mover";
        ContractAdd "obstacle" (Mobility (mkVec3 15 130 17) None None None);
        ContractAdd "obstacle" (Shape unitBox (Some box));
        ContractAdd "obstacle" (Solidity true None); EntityAdd "obstacle"])
    {[ "default:0,0,0" := mkChunk originChunk [] true 0 [] 0 2 (Some blockGrid) ]}
    (Space.initialLayers defaultConfig).

(** A durability system after 101 hits of 1 on "target", at the times 0
    to 100, and two heals: one damage event above the 100 that
    [cleanupEvents] keeps. *)
Definition burst : BasicDurabilitySystem :=
  mkDurabilitySystem
    (map (fun i => DamageEvent.mk "target" 1 None (Z.of_nat i)) (seq 0 101))
    [HealEvent.mk "target" 1 None 3; HealEvent.mk "target" 2 None 7]
    [].

(** * Properties *)

(** ** Numbers *)

Lemma num_lt_spec a b : num_lt a b = true <-> a < b.
Proof. unfold num_lt. destruct (Rlt_dec a b); split; (done || lra). Qed.

Lemma num_le_spec a b : num_le a b = true <-> a <= b.
Proof. unfold num_le. destruct (Rle_dec a b); split; (done || lra). Qed.

Lemma num_eq_spec a b : num_eq a b = true <-> a = b.
Proof. unfold num_eq. destruct (Req_dec_T a b); split; (done || lra). Qed.

Lemma num_lt_true a b : a < b -> num_lt a b = true.
Proof. apply num_lt_spec. Qed.

Lemma num_lt_false a b : b <= a -> num_lt a b = false.
Proof.
  intros H. destruct (num_lt a b) eqn:E; [|done].
  apply num_lt_spec in E. lra.
Qed.

Lemma num_le_true a b : a <= b -> num_le a b = true.
Proof. apply num_le_spec. Qed.

Lemma num_le_false a b : b < a -> num_le a b = false.
Proof.
  intros H. destruct (num_le a b) eqn:E; [|done].
  apply num_le_spec in E. lra.
Qed.

Lemma num_eq_true a b : a = b -> num_eq a b = true.
Proof. apply num_eq_spec. Qed.

Lemma num_eq_false a b : a <> b -> num_eq a b = false.
Proof.
  intros H. destruct (num_eq a b) eqn:E; [|done].
  by apply num_eq_spec in E.
Qed.

(** Decides the comparisons of the goal that linear arithmetic settles. *)
Ltac num_decide :=
  repeat match goal with
  | |- context [num_lt ?a ?b] =>
      first [rewrite (num_lt_true a b) by lra | rewrite (num_lt_false a b) by lra]
  | |- context [num_le ?a ?b] =>
      first [rewrite (num_le_true a b) by lra | rewrite (num_le_false a b) by lra]
  | |- context [num_eq ?a ?b] =>
      first [rewrite (num_eq_true a b) by lra | rewrite (num_eq_false a b) by lra]
  end.

Lemma elem_of_zrange i lo hi : i ∈ zrange lo hi <-> (lo <= i < hi)%Z.
Proof.
  unfold zrange. rewrite list_elem_of_fmap. split.
  - intros (n & -> & Hn). apply elem_of_seq in Hn. lia.
  - intros H. exists (Z.to_nat (i - lo)). split; [lia|].
    apply elem_of_seq. lia.
Qed.



(** ** Chunk keys *)

Example toString_ex :
  ChunkUtils.toString (mkChunkKey "test-layer" (-5) 10 3) = "test-layer:-5,10,3"%string.
Proof. reflexivity. Qed.

Example fromString_ex :
  ChunkUtils.fromString "test-layer:-5,10,3" = Some (mkChunkKey "test-layer" (-5) 10 3).
Proof. reflexivity. Qed.

Example fromString_invalid :
  ChunkUtils.fromString "invalid" = None /\
  ChunkUtils.fromString "layer:invalid,coords" = None /\
  ChunkUtils.fromString "" = None.
Proof. repeat split. Qed.

Section ChunkKeyRoundTrip.

Import ChunkUtils.
Local Open Scope string_scope.

Lemma append_empty_r (s : string) : s ++ "" = s.
Proof.
  induction s as [|c s IH]; [done|].
  change (String c (s ++ "") = String c s). by rewrite IH.
Qed.

Lemma span_endsDigits r : endsDigits r -> span isDigit r = ("", r).
Proof. destruct r as [|c r]; simpl; [done|]. by intros ->. Qed.

Lemma span_digits d r :
  endsDigits r ->
  span isDigit (NilEmpty.string_of_uint d ++ r) = (NilEmpty.string_of_uint d, r).
Proof.
  intros Hr. induction d; simpl; try (by rewrite IHd).
  by apply span_endsDigits.
Qed.

Lemma span_notColon l r :
  fst (span notColon l) = l ->
  span notColon (l ++ ":" ++ r) = (l, String ":" r).
Proof.
  induction l as [|c l IH]; simpl; [done|].
  destruct (notColon c); simpl; [|done].
  destruct (span notColon l) as [a b] eqn:E; simpl in *.
  intros [= Ha]. by rewrite (IH Ha).
Qed.

Lemma matchInt_uint d r :
  d <> Decimal.Nil -> endsDigits r ->
  matchInt (NilEmpty.string_of_uint d ++ r) = Some (NilEmpty.string_of_uint d, r).
Proof.
  intros Hd Hr. unfold matchInt.
  destruct d; try done; simpl; by rewrite (span_digits _ _ Hr).
Qed.

Lemma string_of_uint_nonnil d :
  d <> Decimal.Nil ->
  NilZero.string_of_uint d = NilEmpty.string_of_uint d /\
  NilEmpty.string_of_uint d <> "".
Proof. by destruct d. Qed.

Lemma matchInt_numberToString n r :
  endsDigits r ->
  matchInt (numberToString n ++ r) = Some (numberToString n, r).
Proof.
  intros Hr. unfold numberToString.
  destruct n as [|p|p]; cbn [Z.to_int NilZero.string_of_int].
  - change (matchInt (String "0" r) = Some ("0", r)).
    unfold matchInt; simpl. by rewrite (span_endsDigits _ Hr).
  - destruct (string_of_uint_nonnil _ (Unsigned.to_uint_nonnil p)) as [-> _].
    apply matchInt_uint; [apply Unsigned.to_uint_nonnil | done].
  - destruct (string_of_uint_nonnil _ (Unsigned.to_uint_nonnil p)) as [-> Hne].
    change (matchInt (String "-" (NilEmpty.string_of_uint (Pos.to_uint p) ++ r)) =
            Some (String "-" (NilEmpty.string_of_uint (Pos.to_uint p)), r)).
    unfold matchInt. rewrite (span_digits _ _ Hr).
    by destruct (NilEmpty.string_of_uint (Pos.to_uint p)).
Qed.

Lemma parseInt_numberToString n : parseInt (numberToString n) = Some n.
Proof.
  unfold parseInt, numberToString.
  rewrite NilZero.isi.
  - simpl. by rewrite DecimalZ.of_to.
  - destruct n; simpl; try done. intros [= H]. by apply Unsigned.to_uint_nonnil in H.
  - destruct n; simpl; try done. intros [= H]. by apply Unsigned.to_uint_nonnil in H.
Qed.

(** The string form of a key parses back to the key, for every layer id
    that is not empty and has no colon. *)
Lemma fromString_toString_plain (k : ChunkKey) :
  plainLayerId (layerId k) ->
  fromString (toString k) = Some k.
Proof.
  destruct k as [l kx ky kz]; intros [Hne Hnc]; cbn [layerId] in *.
  assert (Hcomma : forall s, expect "," ("," ++ s) = Some s) by reflexivity.
  unfold fromString, toString; cbn [layerId cx cy cz].
  rewrite (span_notColon _ _ Hnc).
  destruct l as [|c l]; [done|].
  cbn [expect Ascii.eqb Bool.eqb mbind option_bind].
  rewrite matchInt_numberToString by done. cbn [mbind option_bind].
  rewrite Hcomma. cbn [mbind option_bind].
  rewrite matchInt_numberToString by done. cbn [mbind option_bind].
  rewrite Hcomma. cbn [mbind option_bind].
  rewrite <- (append_empty_r (numberToString kz)) at 1.
  rewrite matchInt_numberToString by done. cbn [mbind option_bind].
  by rewrite !parseInt_numberToString.
Qed.

End ChunkKeyRoundTrip.

(** C8, as amended.  For every chunk key whose layer id is not empty and
    has no colon, and whose coordinates are safe integers, parsing the
    string form [<layer>:<cx>,<cy>,<cz>] yields the key again. *)
Theorem chunk_key_roundtrip (k : ChunkKey) :
  ChunkUtils.plainLayerId (layerId k) ->
  safeInteger (cx k) -> safeInteger (cy k) -> safeInteger (cz k) ->
  ChunkUtils.fromString (ChunkUtils.toString k) = Some k.
Proof. intros Hl _ _ _. by apply fromString_toString_plain. Qed.

Lemma chunk_key_roundtrip_witness :
  ChunkUtils.fromString (ChunkUtils.toString (mkChunkKey "test-layer" (-5) 10 3)) =
  Some (mkChunkKey "test-layer" (-5) 10 3).
Proof.
  apply chunk_key_roundtrip.
  - split; [discriminate|reflexivity].
  - unfold safeInteger, MAX_SAFE_INTEGER; simpl; lia.
  - unfold safeInteger, MAX_SAFE_INTEGER; simpl; lia.
  - unfold safeInteger, MAX_SAFE_INTEGER; simpl; lia.
Defined.

(** C8 as stated fails for a layer id with a colon, and for the empty
    layer id: the string form does not match the pattern. *)
Lemma chunk_key_colon_does_not_parse :
  ChunkUtils.toString (mkChunkKey "a:b" 1 2 3) = "a:b:1,2,3"%string /\
  ChunkUtils.fromString (ChunkUtils.toString (mkChunkKey "a:b" 1 2 3)) = None /\
  ChunkUtils.fromString (ChunkUtils.toString (mkChunkKey "a:b" 1 2 3)) <>
    Some (mkChunkKey "a:b" 1 2 3) /\
  ChunkUtils.fromString (ChunkUtils.toString (mkChunkKey "" 1 2 3)) = None.
Proof. repeat split; done. Qed.

(** ** The entity store *)

Section ECSFacts.

Import ECS.

Implicit Types (w : ECSWorld) (e ct : string) (o : Obj) (cs ks : list Obj).

Lemma removeContractInternal_member w e o cs :
  entities w !! e = Some cs ->
  ref o ∈ ref <$> cs ->
  removeContractInternal w e o = (true, evicted w e cs [o]).
Proof.
  intros He Hin. unfold removeContractInternal. rewrite He.
  rewrite bool_decide_eq_true_2 by done.
  unfold evicted, indexRemove. cbn [foldl]. do 3 f_equal.
  apply list_filter_iff. intros c.
  change (ref <$> [o]) with [ref o]. rewrite list_elem_of_singleton. tauto.
Qed.

Lemma evictCount_le m n : (evictCount m n <= n)%nat.
Proof. induction n as [|n IH]; simpl; [lia|]. destruct (num_le _ _); lia. Qed.

Lemma evictCount_rest m n :
  0 < m -> IZR (Z.of_nat (n - evictCount m n)) < m.
Proof.
  intros Hm. induction n as [|n IH].
  - by change (0 < m).
  - cbn [evictCount]. destruct (num_le m _) eqn:E.
    + by replace (S n - S (evictCount m n))%nat with (n - evictCount m n)%nat by lia.
    + replace (S n - 0)%nat with (S n) by lia.
      assert (~ m <= IZR (Z.of_nat (S n))) by (rewrite <- num_le_spec; congruence).
      lra.
Qed.

Lemma evictCount_integer (N : Z) n :
  (1 <= N)%Z ->
  evictCount (IZR N) n = Z.to_nat (Z.of_nat n - N + 1).
Proof.
  intros HN. induction n as [|n IH]; [cbn [evictCount]; lia|].
  cbn [evictCount]. destruct (num_le _ _) eqn:E.
  - apply num_le_spec in E. apply le_IZR in E. rewrite IH. lia.
  - destruct (Z_le_gt_dec N (Z.of_nat (S n))) as [H|H]; [|lia].
    apply IZR_le, num_le_spec in H. congruence.
Qed.

Lemma filter_all {A} (P : A -> Prop) `{!forall a, Decision (P a)} (l : list A) :
  (forall a, P a) -> filter P l = l.
Proof.
  intros HP. induction l as [|a l IH]; [done|].
  by rewrite filter_cons_True, IH.
Qed.

Lemma filter_filter_ref (r : nat) (rs : list nat) cs :
  filter (fun c => ref c ∉ rs) (filter (fun c => ref c ≠ r) cs) =
  filter (fun c => ref c ∉ r :: rs) cs.
Proof.
  rewrite list_filter_filter. apply list_filter_iff.
  intros c. rewrite not_elem_of_cons. tauto.
Qed.

Lemma evicted_nil w e cs :
  entities w !! e = Some cs -> evicted w e cs [] = w.
Proof.
  intros He. destruct w as [ents idx nr hs]. unfold evicted. cbn in *.
  rewrite app_nil_r. f_equal. rewrite insert_id; [done|]. rewrite He. f_equal.
  symmetry. apply filter_all. intros a. apply not_elem_of_nil.
Qed.

Lemma evicted_cons w e cs o gone :
  evicted (evicted w e cs [o]) e (filter (fun c => ref c ≠ ref o) cs) gone =
  evicted w e cs (o :: gone).
Proof.
  unfold evicted. cbn [entities contractIndex nextRef hookCalls foldl fmap list_fmap].
  f_equal.
  - rewrite insert_insert_eq. f_equal. apply filter_filter_ref.
  - by rewrite <- app_assoc.
Qed.

(** The eviction loop ends when the maximum is positive; it removes the
    [evictCount] oldest contracts of the list it is given, oldest first,
    and calls the removal hooks for each. *)
Lemma evictOldest_spec maxAllowed e ks : forall w cs,
  0 < maxAllowed ->
  entities w !! e = Some cs ->
  NoDup (ref <$> ks) ->
  ks ⊆ cs ->
  evictOldest maxAllowed ks e w =
    Some (evicted w e cs (take (evictCount maxAllowed (length ks)) ks)).
Proof.
  induction ks as [|o ks IH]; intros w cs Hm He Hnd Hsub.
  - cbn [evictOldest length evictCount take].
    rewrite num_le_false by (change (0 < maxAllowed); done).
    by rewrite evicted_nil.
  - cbn [evictOldest length evictCount].
    destruct (num_le maxAllowed _) eqn:E; [|by rewrite evicted_nil].
    assert (Ho : ref o ∈ ref <$> cs).
    { apply list_elem_of_fmap. exists o. split; [done|]. apply Hsub. by left. }
    rewrite (removeContractInternal_member _ _ _ _ He Ho). cbn [snd take].
    rewrite fmap_cons in Hnd. apply NoDup_cons in Hnd as [Hno Hnd].
    rewrite (IH _ (filter (fun c => ref c ≠ ref o) cs)); [|done| |done|].
    + by rewrite evicted_cons.
    + cbn [evicted entities]. rewrite lookup_insert_eq. f_equal.
      apply list_filter_iff. intros c.
      change (ref <$> [o]) with [ref o]. rewrite list_elem_of_singleton. tauto.
    + intros o' Ho'. apply list_elem_of_filter. split.
      * intros Heq. apply Hno. apply list_elem_of_fmap. by exists o'.
      * apply Hsub. by right.
Qed.

Lemma filter_all_elem {A} (P : A -> Prop) `{!forall a, Decision (P a)} (l : list A) :
  (forall a, a ∈ l -> P a) -> filter P l = l.
Proof.
  induction l as [|a l IH]; intros HP; [done|].
  rewrite filter_cons_True by (apply HP; by left).
  rewrite IH; [done|]. intros b Hb. apply HP. by right.
Qed.

Lemma filter_none_elem {A} (P : A -> Prop) `{!forall a, Decision (P a)} (l : list A) :
  (forall a, a ∈ l -> ~ P a) -> filter P l = [].
Proof.
  induction l as [|a l IH]; intros HP; [done|].
  rewrite filter_cons_False by (apply HP; by left).
  apply IH. intros b Hb. apply HP. by right.
Qed.

Lemma filter_not_in_take ks (k : nat) :
  NoDup (ref <$> ks) ->
  filter (fun o => ref o ∉ ref <$> take k ks) ks = drop k ks.
Proof.
  intros Hnd.
  rewrite <- (take_drop k ks), fmap_app in Hnd.
  apply NoDup_app in Hnd as (_ & Hdis & _).
  set (rs := ref <$> take k ks) in *.
  rewrite <- (take_drop k ks) at 1. rewrite filter_app.
  rewrite filter_none_elem, filter_all_elem; [done| |].
  - intros o Ho Hin. apply (Hdis (ref o)); [done|].
    apply list_elem_of_fmap. by exists o.
  - intros o Ho Hn. apply Hn. apply list_elem_of_fmap. by exists o.
Qed.

Lemma filter_type_fmap_val ct cs :
  filter (fun c => typeOf c = ct) (val <$> cs) =
  val <$> filter (fun o => typeOf (val o) = ct) cs.
Proof.
  induction cs as [|o cs IH]; [done|].
  rewrite fmap_cons, !filter_cons, IH. by destruct (decide (typeOf (val o) = ct)).
Qed.

(** After the [evictCount] oldest contracts of a type are removed, the
    contracts of that type that remain are the newer ones. *)
Lemma filter_type_after_eviction ct cs (k : nat) :
  NoDup (ref <$> cs) ->
  filter (fun o => typeOf (val o) = ct)
    (filter (fun c => ref c ∉
       ref <$> take k (filter (fun o => typeOf (val o) = ct) cs)) cs) =
  drop k (filter (fun o => typeOf (val o) = ct) cs).
Proof.
  intros Hnd. set (ks := filter (fun o => typeOf (val o) = ct) cs).
  rewrite list_filter_filter.
  rewrite <- (filter_not_in_take ks k).
  - subst ks. rewrite list_filter_filter. apply list_filter_iff. intros c. tauto.
  - subst ks. apply (NoDup_fmap_2_strong ref).
    + intros a b Ha%list_elem_of_filter Hb%list_elem_of_filter Heq.
      destruct Ha as [_ Ha], Hb as [_ Hb].
      apply list_elem_of_lookup in Ha as [i Hi], Hb as [j Hj].
      assert (i = j).
      { eapply NoDup_lookup; [exact Hnd| |];
          rewrite list_lookup_fmap; [by rewrite Hi|by rewrite Hj, Heq]. }
      subst. congruence.
    + apply NoDup_filter. by apply NoDup_fmap_1 in Hnd.
Qed.

Lemma checkLimits_below ct (existing : list Contract) (limit : option Contract) :
  IZR (Z.of_nat (length (filter (fun c => typeOf c = ct) existing)))
    < getMaxContractsAllowed ct limit ->
  ContractRegistry.checkLimits ct existing limit = true.
Proof.
  unfold ContractRegistry.checkLimits, getMaxContractsAllowed.
  intros H.
  destruct limit as [[]|]; cbn [find];
    repeat match goal with
    | |- context [find ?f ?l] => destruct (find f l)
    | |- context [ContractRegistry.globalLimits !! ct] =>
        destruct (ContractRegistry.globalLimits !! ct)
    end; try done; by rewrite num_le_false.
Qed.

Lemma NoDup_ref_filter (P : Obj -> Prop) `{!forall o, Decision (P o)} cs :
  NoDup (ref <$> cs) -> NoDup (ref <$> filter P cs).
Proof.
  induction cs as [|o cs IH]; [done|].
  rewrite fmap_cons, NoDup_cons. intros [Hno Hnd].
  rewrite filter_cons. destruct (decide (P o)); [|by apply IH].
  rewrite fmap_cons, NoDup_cons. split; [|by apply IH].
  intros (o' & Heq & Hin%list_elem_of_filter)%list_elem_of_fmap.
  apply Hno. apply list_elem_of_fmap. exists o'. tauto.
Qed.

(** [addContract] on an existing entity, with a record the schema
    accepts and a positive maximum for its type: the call returns; the
    [evictCount] oldest contracts of the type are removed first, oldest
    first, each with its removal hooks; the new object goes last. *)
Lemma addContract_returns w e c data cs :
  entities w !! e = Some cs ->
  NoDup (ref <$> cs) ->
  ContractRegistry.validate c = Some data ->
  0 < getMaxContractsAllowed (typeOf data) (getContract w e "contract_limit") ->
  let ks := filter (fun o => typeOf (val o) = typeOf data) cs in
  let k := evictCount (getMaxContractsAllowed (typeOf data)
                         (getContract w e "contract_limit")) (length ks) in
  let w0 := mkECSWorld (entities w) (contractIndex w) (S (nextRef w)) (hookCalls w) in
  addContract w e c =
    (Return (),
     added (evicted w0 e cs (take k ks)) e
       (filter (fun o => ref o ∉ ref <$> take k ks) cs) (mkObj (nextRef w) data)).
Proof.
  intros He Hnd Hv Hm ks k w0.
  unfold addContract. rewrite He, Hv.
  fold w0. fold ks.
  rewrite (evictOldest_spec _ e ks w0 cs Hm He).
  - fold k. cbn [evicted entities]. rewrite lookup_insert_eq.
    cbn [default from_option]. unfold Datatypes.id.
    rewrite checkLimits_below; [done|].
    rewrite filter_type_fmap_val, length_fmap.
    pose proof (filter_type_after_eviction (typeOf data) cs k Hnd) as Hdrop.
    fold ks in Hdrop. rewrite Hdrop.
    rewrite length_drop. by apply evictCount_rest.
  - by apply NoDup_ref_filter.
  - intros o Ho. by apply list_elem_of_filter in Ho as [_ Ho].
Qed.

Lemma ref_inj_on cs o o' :
  NoDup (ref <$> cs) -> o ∈ cs -> o' ∈ cs -> ref o = ref o' -> o = o'.
Proof.
  intros Hnd Ha Hb Heq.
  apply list_elem_of_lookup in Ha as [i Hi], Hb as [j Hj].
  assert (i = j).
  { eapply NoDup_lookup; [exact Hnd| |];
      rewrite list_lookup_fmap; [by rewrite Hi|by rewrite Hj, Heq]. }
  subst. congruence.
Qed.

Lemma find_hasType ct cs :
  List.find (hasType ct) cs = head (filter (fun o => typeOf (val o) = ct) cs).
Proof.
  induction cs as [|o cs IH]; [done|].
  cbn [List.find]. rewrite filter_cons. unfold hasType at 1.
  destruct (decide (typeOf (val o) = ct)).
  - by rewrite bool_decide_eq_true_2.
  - by rewrite bool_decide_eq_false_2.
Qed.

Lemma getContractObj_head w e ct :
  getContractObj w e ct = head (contractsOfType w e ct).
Proof.
  unfold getContractObj, contractsOfType, contractsOf.
  destruct (entities w !! e); [apply find_hasType|done].
Qed.

(** The contracts of the type of the new record, after [addContract]. *)
Lemma contractsOfType_added w e cs (k : nat) o :
  NoDup (ref <$> cs) ->
  let ks := filter (fun c => typeOf (val c) = typeOf (val o)) cs in
  contractsOfType
    (added (evicted w e cs (take k ks)) e
       (filter (fun c => ref c ∉ ref <$> take k ks) cs) o) e (typeOf (val o)) =
  drop k ks ++ [o].
Proof.
  intros Hnd ks. unfold contractsOfType, contractsOf.
  cbn [added entities]. rewrite lookup_insert_eq. cbn [default from_option].
  unfold Datatypes.id. rewrite filter_app.
  pose proof (filter_type_after_eviction (typeOf (val o)) cs k Hnd) as Hdrop.
  fold ks in Hdrop. rewrite Hdrop. by rewrite filter_cons_True.
Qed.

Lemma filter_iff_elem {A} (P Q : A -> Prop)
    `{!forall a, Decision (P a), !forall a, Decision (Q a)} (l : list A) :
  (forall a, a ∈ l -> P a <-> Q a) -> filter P l = filter Q l.
Proof.
  induction l as [|a l IH]; intros HPQ; [done|].
  rewrite !filter_cons.
  rewrite IH by (intros b Hb; apply HPQ; by right).
  apply decide_ext. apply HPQ. by left.
Qed.

(** The contracts of the other types, after [addContract]. *)
Lemma contractsOfType_added_other w e cs (k : nat) o ct :
  NoDup (ref <$> cs) ->
  ct ≠ typeOf (val o) ->
  let ks := filter (fun c => typeOf (val c) = typeOf (val o)) cs in
  contractsOfType
    (added (evicted w e cs (take k ks)) e
       (filter (fun c => ref c ∉ ref <$> take k ks) cs) o) e ct =
  filter (fun c => typeOf (val c) = ct) cs.
Proof.
  intros Hnd Hct ks. unfold contractsOfType, contractsOf.
  cbn [added entities]. rewrite lookup_insert_eq. cbn [default from_option].
  unfold Datatypes.id. rewrite filter_app.
  rewrite (filter_cons_False _ o) by congruence. rewrite filter_nil, app_nil_r.
  rewrite list_filter_filter. apply filter_iff_elem. intros c Hin. split; [tauto|].
  intros Hc. split; [done|].
  intros (o' & Href & Ho')%list_elem_of_fmap.
  apply subseteq_take in Ho'. apply list_elem_of_filter in Ho' as [Ht Ho'].
  assert (c = o') by (by eapply ref_inj_on). subst. congruence.
Qed.

End ECSFacts.

(** Runs the next [addContract] of the goal on an entity whose contracts
    are [cs], the maximum for the type of the record being [N]. *)
Ltac run_addContract cs N :=
  match goal with
  | |- context [ECS.addContract ?w ?e ?c] =>
      let H := fresh "Hadd" in
      pose proof (addContract_returns w e c c cs) as H; cbv zeta in H;
      replace (ECS.getMaxContractsAllowed (typeOf c) (ECS.getContract w e "contract_limit"))
        with (IZR N) in H by reflexivity;
      rewrite evictCount_integer in H by lia;
      rewrite H;
      [ | reflexivity | apply (bool_decide_unpack _); by vm_compute | reflexivity | lra ];
      clear H
  end.

(** The example states are states of the store: the calls that build them. *)
Lemma crate_reachable :
  ECS.createEntity ECS.createECSWorld "crate"
    [Portable true None; Portable true None; Portable true None] = (Return "crate", crate).
Proof.
  unfold ECS.createEntity, ECS.hasEntity, ECS.createECSWorld.
  cbn [entities contractIndex nextRef hookCalls].
  rewrite bool_decide_eq_false_2 by (rewrite lookup_empty; by intros [? ?]).
  cbn [ECS.addContracts].
  run_addContract (@nil Obj) 3%Z.
  run_addContract [mkObj 0 (Portable true None)] 3%Z.
  run_addContract [mkObj 0 (Portable true None); mkObj 1 (Portable true None)] 3%Z.
  reflexivity.
Qed.

(** ** Cardinality limits *)

(** C3, as amended.  Let N >= 1 be an integer and the effective maximum
    of kind K on the entity when [addContract] is called with a valid
    record of kind K (the entity's [contract_limit] entry for K if there
    is one, else the global default, else unbounded).  The call returns.
    With c the number of K-contracts held before, it first removes the
    max(0, c - N + 1) oldest of them, oldest first, calling the removal
    hooks for each, then puts the new record last and calls the add hooks.
    Afterwards the entity holds at most N contracts of kind K, contracts
    of other kinds are as before, and a query for K yields the oldest
    K-contract that remains: the new record when none remains, which is
    always so for N = 1. *)
Theorem addContract_cardinality
    (w : ECSWorld) (e : string) (c data : Contract) (cs : list Obj) (N : Z) :
  entities w !! e = Some cs ->
  NoDup (ref <$> cs) ->
  ContractRegistry.validate c = Some data ->
  ECS.getMaxContractsAllowed (typeOf data) (ECS.getContract w e "contract_limit") = IZR N ->
  (1 <= N)%Z ->
  let ks := contractsOfType w e (typeOf data) in
  let k := Z.to_nat (Z.of_nat (length ks) - N + 1) in
  let new := mkObj (nextRef w) data in
  exists w',
    ECS.addContract w e c = (Return (), w') /\
    contractsOfType w' e (typeOf data) = drop k ks ++ [new] /\
    (Z.of_nat (length (contractsOfType w' e (typeOf data))) <= N)%Z /\
    (forall ct, ct <> typeOf data -> contractsOfType w' e ct = contractsOfType w e ct) /\
    hookCalls w' =
      hookCalls w ++ ((fun o => ContractRemove e (val o)) <$> take k ks) ++
      [ContractAdd e data] /\
    ECS.getContractObj w' e (typeOf data) = head (drop k ks ++ [new]) /\
    (N = 1%Z -> ECS.getContract w' e (typeOf data) = Some data).
Proof.
  intros He Hnd Hv HN H1 ks k new. subst new.
  assert (Hm : 0 < ECS.getMaxContractsAllowed (typeOf data)
                     (ECS.getContract w e "contract_limit")).
  { rewrite HN. apply IZR_lt. lia. }
  pose proof (addContract_returns w e c data cs He Hnd Hv Hm) as Hadd.
  cbv zeta in Hadd. rewrite HN, evictCount_integer in Hadd by done.
  assert (Hks : ks = filter (fun o => typeOf (val o) = typeOf data) cs).
  { unfold ks, contractsOfType, contractsOf. by rewrite He. }
  rewrite <- Hks in Hadd. fold k in Hadd.
  eexists. split; [exact Hadd|].
  pose proof (contractsOfType_added
    (mkECSWorld (entities w) (contractIndex w) (S (nextRef w)) (hookCalls w))
    e cs k (mkObj (nextRef w) data) Hnd) as Hof.
  cbv zeta in Hof. cbn [val] in Hof. rewrite <- Hks in Hof.
  assert (Hlen : (Z.of_nat (length (drop k ks ++ [mkObj (nextRef w) data])) <= N)%Z).
  { rewrite length_app, length_drop. cbn [length]. lia. }
  split_and!.
  - exact Hof.
  - by rewrite Hof.
  - intros ct Hct.
    pose proof (contractsOfType_added_other
      (mkECSWorld (entities w) (contractIndex w) (S (nextRef w)) (hookCalls w))
      e cs k (mkObj (nextRef w) data) ct Hnd Hct) as Hother.
    cbv zeta in Hother. cbn [val] in Hother. rewrite <- Hks in Hother.
    rewrite Hother. unfold contractsOfType, contractsOf. by rewrite He.
  - cbn [added evicted hookCalls val]. by rewrite <- app_assoc.
  - rewrite getContractObj_head. by rewrite Hof.
  - intros ->. unfold ECS.getContract. rewrite getContractObj_head, Hof.
    replace k with (length ks) by lia. by rewrite drop_all.
Qed.

Lemma addContract_cardinality_witness :
  exists w',
    ECS.addContract multiDoor "multi-door"
      (Entrance "nether" (mkVec3 100 10 100) false) = (Return (), w') /\
    ECS.getContract w' "multi-door" "entrance" =
      Some (Entrance "nether" (mkVec3 100 10 100) false) /\
    length (contractsOfType w' "multi-door" "entrance") = 1%nat.
Proof.
  destruct (addContract_cardinality multiDoor "multi-door"
              (Entrance "nether" (mkVec3 100 10 100) false)
              (Entrance "nether" (mkVec3 100 10 100) false)
              [mkObj 0 (Identity "multi-door" (Some "Multi Door") None);
               mkObj 1 (Entrance "overworld" origin true)] 1)
    as (w' & Hadd & Hks & _ & _ & _ & _ & Hget).
  - reflexivity.
  - apply (bool_decide_unpack _). by vm_compute.
  - reflexivity.
  - reflexivity.
  - lia.
  - cbn [typeOf] in *. exists w'. split; [exact Hadd|]. split; [by apply Hget|].
    by rewrite Hks.
Defined.

(** C3 as stated fails where it says that a query after the add yields
    the new record: an entity at the limit of three portable contracts
    gets a fourth; the oldest is removed, and the query yields the older
    of the two that remain, not the record just added. *)
Lemma addContract_at_limit_returns_older :
  length (contractsOfType crate "crate" "portable") = 3%nat /\
  ECS.getMaxContractsAllowed "portable" (ECS.getContract crate "crate" "contract_limit") = 3 /\
  exists w',
    ECS.addContract crate "crate" (Portable false None) = (Return (), w') /\
    ECS.getContract w' "crate" "portable" = Some (Portable true None) /\
    ECS.getContract w' "crate" "portable" <> Some (Portable false None).
Proof.
  split; [reflexivity|]. split; [reflexivity|].
  pose proof (addContract_returns crate "crate" (Portable false None) (Portable false None)
    [mkObj 0 (Portable true None); mkObj 1 (Portable true None);
     mkObj 2 (Portable true None)]) as Hadd.
  cbv zeta in Hadd.
  replace (ECS.getMaxContractsAllowed (typeOf (Portable false None))
             (ECS.getContract crate "crate" "contract_limit")) with (IZR 3) in Hadd
    by reflexivity.
  rewrite evictCount_integer in Hadd by lia.
  eexists. split.
  - apply Hadd; [reflexivity| |reflexivity|lra].
    apply (bool_decide_unpack _). by vm_compute.
  - split; [by vm_compute|]. by vm_compute.
Qed.

(** ** The inverted index *)

(** C2 at its failing input.  An entity is created with two portable
    contracts (the global maximum is three) and [removeContract] takes one
    of them: the entity still has a portable contract, which [getContract]
    returns, and is no longer in the index of that type. *)
Theorem removeContract_drops_index_entry :
  ECS.createEntity ECS.createECSWorld "crate"
    [Portable true None; Portable false None] = (Return "crate", twoPortables) /\
  exists w',
    ECS.removeContract twoPortables "crate" "portable" = (true, w') /\
    ECS.getContract w' "crate" "portable" = Some (Portable false None) /\
    "crate" ∉ ECS.getEntitiesWithContract w' "portable".
Proof.
  split.
  - unfold ECS.createEntity, ECS.hasEntity, ECS.createECSWorld.
    cbn [entities contractIndex nextRef hookCalls].
    rewrite bool_decide_eq_false_2 by (rewrite lookup_empty; by intros [? ?]).
    cbn [ECS.addContracts].
    run_addContract (@nil Obj) 3%Z.
    run_addContract [mkObj 0 (Portable true None)] 3%Z.
    reflexivity.
  - eexists. split; [reflexivity|]. split; [reflexivity|].
    apply (bool_decide_unpack _). by vm_compute.
Qed.

(** ** Schema validation *)

Lemma validate_durability h m a :
  0 <= h -> 0 < m -> optional nonnegative_number a = true ->
  ContractRegistry.validate (Durability h m a) = Some (Durability h m a).
Proof.
  intros Hh Hm Ha.
  unfold ContractRegistry.validate, AnyContractSchema, DurabilityObjectSchema.
  rewrite Ha. unfold nonnegative_number, positive_number.
  by rewrite num_le_true, num_lt_true.
Qed.

(** C5 at its failing input.  The record with health 10 and maxHealth 5
    is rejected by the schema registered for durability, yet [validate]
    accepts it, and [addContract] stores it where [getContract] finds it. *)
Theorem validate_accepts_health_above_maxHealth :
  ContractRegistry.getSchema "durability" = Some DurabilitySchema /\
  DurabilitySchema (Durability 10 5 None) = None /\
  ContractRegistry.validate (Durability 10 5 None) = Some (Durability 10 5 None) /\
  ECS.createEntity ECS.createECSWorld "lamp" [Identity "lamp" None None] =
    (Return "lamp", lamp) /\
  exists w',
    ECS.addContract lamp "lamp" (Durability 10 5 None) = (Return (), w') /\
    ECS.getContract w' "lamp" "durability" = Some (Durability 10 5 None).
Proof.
  assert (Hv : ContractRegistry.validate (Durability 10 5 None) = Some (Durability 10 5 None)).
  { apply validate_durability; [lra|lra|done]. }
  split_and!.
  - reflexivity.
  - unfold DurabilitySchema, DurabilityObjectSchema.
    unfold nonnegative_number, positive_number. cbn [optional].
    num_decide. cbn [andb]. by num_decide.
  - exact Hv.
  - unfold ECS.createEntity, ECS.hasEntity, ECS.createECSWorld.
    cbn [entities contractIndex nextRef hookCalls].
    rewrite bool_decide_eq_false_2 by (rewrite lookup_empty; by intros [? ?]).
    cbn [ECS.addContracts].
    run_addContract (@nil Obj) 1%Z.
    reflexivity.
  - pose proof (addContract_returns lamp "lamp" (Durability 10 5 None) (Durability 10 5 None)
      [mkObj 0 (Identity "lamp" None None)]) as Hadd.
    cbv zeta in Hadd.
    replace (ECS.getMaxContractsAllowed (typeOf (Durability 10 5 None))
               (ECS.getContract lamp "lamp" "contract_limit")) with (IZR 1) in Hadd
      by reflexivity.
    rewrite evictCount_integer in Hadd by lia.
    eexists. split.
    + apply Hadd; [reflexivity| |exact Hv|lra].
      apply (bool_decide_unpack _). by vm_compute.
    + reflexivity.
Qed.

(** ** The durability system *)

Lemma globalLimits_positive ct g :
  ContractRegistry.globalLimits !! ct = Some g -> 0 < g.
Proof.
  unfold ContractRegistry.globalLimits. intros H.
  apply elem_of_list_to_map_2 in H.
  repeat (apply elem_of_cons in H as [[= _ ->]|H]; [lra|]).
  by apply elem_of_nil in H.
Qed.

Lemma getContract_elem w e ct c :
  ECS.getContract w e ct = Some c ->
  exists o, o ∈ contractsOf w e /\ val o = c /\ typeOf c = ct.
Proof.
  unfold ECS.getContract, ECS.getContractObj, contractsOf.
  destruct (entities w !! e) as [cs|]; [|done].
  destruct (List.find _ cs) as [o|] eqn:E; [|done].
  intros [= <-]. apply find_some in E as [Hin Ht].
  exists o. split_and!; [by apply list_elem_of_In|done|].
  unfold ECS.hasType in Ht. by apply bool_decide_eq_true in Ht.
Qed.

(** The maximum that [addContract] works with is positive on every
    entity whose contracts passed validation. *)
Lemma getMaxContractsAllowed_positive w e ct :
  entityInvariant w e ->
  0 < ECS.getMaxContractsAllowed ct (ECS.getContract w e "contract_limit").
Proof.
  intros [_ Hvalid]. unfold ECS.getMaxContractsAllowed.
  assert (Hglobal : 0 < match ContractRegistry.globalLimits !! ct with
                        | Some globalLimit => globalLimit
                        | None => IZR MAX_SAFE_INTEGER
                        end).
  { destruct (ContractRegistry.globalLimits !! ct) eqn:E.
    - by eapply globalLimits_positive.
    - apply IZR_lt. by unfold MAX_SAFE_INTEGER. }
  destruct (ECS.getContract w e "contract_limit") as [c|] eqn:Hc; [|done].
  destruct c; try done.
  destruct (find _ limits) as [l|] eqn:Hl; [|done].
  apply getContract_elem in Hc as (o & Ho & Hv & _).
  rewrite Forall_forall in Hvalid. apply Hvalid in Ho.
  rewrite Hv in Ho. unfold validContract, ContractRegistry.validate in Ho. cbn in Ho.
  destruct (forallb _ limits) eqn:Hall; [|done].
  apply find_some in Hl as [Hin _].
  rewrite forallb_forall in Hall. apply Hall in Hin.
  by apply num_lt_spec in Hin.
Qed.

Lemma calculateActualDamage_formula amount a :
  optional nonnegative_number a = true ->
  Durability.calculateActualDamage amount a =
  amount * (1 - Rmin 0.75 (0.01 * default 0 a)).
Proof.
  unfold Durability.calculateActualDamage. destruct a as [a|]; cbn.
  - intros Ha%num_le_spec.
    destruct (num_eq a 0) eqn:E0; cbn [orb].
    + apply num_eq_spec in E0. subst. rewrite Rmin_right by lra. lra.
    + destruct (num_le a 0) eqn:E1.
      * apply num_le_spec in E1. assert (a = 0) by lra. subst.
        rewrite Rmin_right by lra. lra.
      * by rewrite (Rmult_comm a).
  - intros _. rewrite Rmin_right by lra. lra.
Qed.

Lemma hasEntity_removeEntity w e :
  ECS.hasEntity (snd (ECS.removeEntity w e)) e = false.
Proof.
  unfold ECS.removeEntity, ECS.hasEntity.
  destruct (entities w !! e) as [cs|] eqn:He; cbn [snd entities].
  - apply bool_decide_eq_false_2. rewrite lookup_delete_eq. by intros [? ?].
  - apply bool_decide_eq_false_2. rewrite He. by intros [? ?].
Qed.

(** C6.  For an entity whose first durability contract is
    [{health: h, maxHealth: m, armor: a}], [damage] computes
    actual = amount * (1 - min(0.75, 0.01 * a)), a being 0 when absent.
    If actual <= 0 it returns false and changes nothing.  Otherwise it
    returns true, records a DamageEvent, adds the durability record with
    health' = max(0, h - actual) to the entity (where a query finds it
    when the maximum for durability is the default 1), and removes the
    entity exactly when health' = 0. *)
Theorem damage_spec (now : Z) (w : ECSWorld) (sys : BasicDurabilitySystem)
    (e : string) (amount : R) (source : option string) (h m : R) (a : option R) :
  entityInvariant w e ->
  ECS.getContract w e "durability" = Some (Durability h m a) ->
  let actual := amount * (1 - Rmin 0.75 (0.01 * default 0 a)) in
  let health' := Rmax 0 (h - actual) in
  let updated := Durability health' m a in
  let sys1 :=
    mkDurabilitySystem (damageEvents sys ++ [DamageEvent.mk e actual source now])
      (healEvents sys) (destroyEvents sys) in
  (actual <= 0 ->
     Durability.damage now (w, sys) e amount source = (Return false, (w, sys))) /\
  (0 < actual ->
     exists w1,
       ECS.addContract w e updated = (Return (), w1) /\
       last (contractsOfType w1 e "durability") = Some (mkObj (nextRef w) updated) /\
       (ECS.getMaxContractsAllowed "durability" (ECS.getContract w e "contract_limit") = 1 ->
          ECS.getContract w1 e "durability" = Some updated) /\
       ECS.hasEntity w1 e = true /\
       (health' = 0 ->
          Durability.damage now (w, sys) e amount source =
            (Return true,
             (snd (ECS.removeEntity w1 e),
              mkDurabilitySystem (damageEvents sys1) (healEvents sys1)
                (destroyEvents sys1 ++ [DestroyEvent.mk e cause_damage source now]))) /\
          ECS.hasEntity (snd (ECS.removeEntity w1 e)) e = false) /\
       (health' <> 0 ->
          Durability.damage now (w, sys) e amount source = (Return true, (w1, sys1)))).
Proof.
  intros Hinv Hget actual health' updated sys1. subst updated.
  pose proof (getMaxContractsAllowed_positive w e "durability" Hinv) as Hmax.
  destruct Hinv as [Hnd Hvalid].
  destruct (getContract_elem _ _ _ _ Hget) as (o & Ho & Hval & _).
  assert (Hstored : validContract (Durability h m a)).
  { rewrite Forall_forall in Hvalid. rewrite <- Hval. by apply Hvalid. }
  unfold validContract, ContractRegistry.validate, AnyContractSchema,
    DurabilityObjectSchema in Hstored.
  destruct (nonnegative_number h) eqn:Hh; [|done].
  destruct (positive_number m) eqn:Hm; [|done].
  destruct (optional nonnegative_number a) eqn:Ha; [|done].
  apply num_le_spec in Hh. apply num_lt_spec in Hm. clear Hstored.
  assert (Hact : Durability.calculateActualDamage amount a = actual)
    by (by apply calculateActualDamage_formula).
  assert (Hpos : 0 <= health') by apply Rmax_l.
  split.
  - intros Hle. unfold Durability.damage. rewrite Hget, Hact.
    by rewrite num_le_true.
  - intros Hlt.
    unfold contractsOf in Hnd, Ho.
    destruct (entities w !! e) as [cs|] eqn:He; [|by apply elem_of_nil in Ho].
    cbn [default from_option] in Hnd, Ho. unfold Datatypes.id in Hnd, Ho.
    assert (Hv : ContractRegistry.validate (Durability health' m a) =
                 Some (Durability health' m a))
      by (by apply validate_durability).
    pose proof (addContract_returns w e _ _ cs He Hnd Hv Hmax) as Hadd.
    cbv zeta in Hadd.
    pose proof (contractsOfType_added
      (mkECSWorld (entities w) (contractIndex w) (S (nextRef w)) (hookCalls w)) e cs
      (evictCount (ECS.getMaxContractsAllowed "durability"
                     (ECS.getContract w e "contract_limit"))
         (length (filter (fun c => typeOf (val c) = "durability") cs)))
      (mkObj (nextRef w) (Durability health' m a)) Hnd) as Hof.
    cbv zeta in Hof. cbn [val typeOf] in Hof, Hadd.
    eexists. split; [exact Hadd|]. split_and!.
    + rewrite Hof. apply last_snoc.
    + intros H1. rewrite H1 in Hof |- *.
      unfold ECS.getContract. rewrite getContractObj_head, Hof.
      rewrite (evictCount_integer 1) by lia.
      rewrite drop_ge by lia. done.
    + unfold ECS.hasEntity. apply bool_decide_eq_true_2.
      cbn [added entities]. rewrite lookup_insert_eq. by eexists.
    + intros H0. split; [|apply hasEntity_removeEntity].
      unfold Durability.damage. rewrite Hget, Hact.
      rewrite num_le_false by done. fold health'. rewrite Hadd.
      by rewrite num_le_true by lra.
    + intros Hne. unfold Durability.damage. rewrite Hget, Hact.
      rewrite num_le_false by done. fold health'. rewrite Hadd.
      rewrite num_le_false; [done|]. lra.
Qed.

Lemma damage_spec_witness :
  fst (Durability.damage 0 (target, mkDurabilitySystem [] [] []) "target" 10 None) =
    Return true /\
  ECS.hasEntity
    (fst (snd (Durability.damage 0 (target, mkDurabilitySystem [] [] []) "target" 10 None)))
    "target" = false.
Proof.
  destruct (damage_spec 0 target (mkDurabilitySystem [] [] []) "target" 10 None 5 5 None)
    as [_ H].
  - split.
    + apply (bool_decide_unpack _). by vm_compute.
    + repeat constructor. apply validate_durability; [lra|lra|reflexivity].
  - reflexivity.
  - cbn [default from_option] in H. unfold Datatypes.id in H.
    assert (Hmin : Rmin 0.75 (0.01 * 0) = 0) by (rewrite Rmin_right; lra).
    rewrite Hmin in H.
    destruct H as (w1 & _ & _ & _ & _ & Hzero & _); [lra|].
    destruct Hzero as [Hd Hgone]; [rewrite Rmax_left; lra|].
    rewrite Hd. cbn [fst snd]. by split.
Defined.

(** ** Chunk coordinates *)

Lemma zrange_nil lo hi : (hi <= lo)%Z -> zrange lo hi = [].
Proof. intros H. unfold zrange. by replace (Z.to_nat (hi - lo)) with 0%nat by lia. Qed.

Lemma zrange_cons lo hi : (lo < hi)%Z -> zrange lo hi = lo :: zrange (lo + 1) hi.
Proof.
  intros H. unfold zrange.
  replace (Z.to_nat (hi - lo)) with (S (Z.to_nat (hi - (lo + 1)))) by lia.
  cbn [seq map]. f_equal; [lia|].
  rewrite <- seq_shift, map_map. apply map_ext. intros i. lia.
Qed.

Lemma zrange_nonempty lo hi : (lo < hi)%Z -> zrange lo hi <> [].
Proof. intros H. by rewrite zrange_cons. Qed.

(** Evaluates [zrange] between integer literals. *)
Ltac zrange_eval :=
  repeat first
    [ rewrite zrange_cons by lia; cbn [Z.add Pos.add Pos.succ Z.pos_sub Z.succ_double
        Z.pred_double Z.double Pos.pred_double Z.opp]
    | rewrite zrange_nil by lia ].

(** Evaluates [Zfloor] and [Zceil] of a constant between -4 and 4. *)
Ltac floor_eval :=
  repeat match goal with
  | |- context [Zfloor ?r] =>
      first [ rewrite (Zfloor_eq 0 r) by lra | rewrite (Zfloor_eq (-1) r) by lra
            | rewrite (Zfloor_eq 1 r) by lra | rewrite (Zfloor_eq (-2) r) by lra
            | rewrite (Zfloor_eq 2 r) by lra | rewrite (Zfloor_eq 3 r) by lra
            | rewrite (Zfloor_eq (-3) r) by lra | rewrite (Zfloor_eq 4 r) by lra
            | rewrite (Zfloor_eq (-4) r) by lra ]
  | |- context [Zceil ?r] =>
      first [ rewrite (Zceil_eq 0 r) by lra | rewrite (Zceil_eq 1 r) by lra
            | rewrite (Zceil_eq (-1) r) by lra | rewrite (Zceil_eq 2 r) by lra
            | rewrite (Zceil_eq (-2) r) by lra | rewrite (Zceil_eq 3 r) by lra
            | rewrite (Zceil_eq (-3) r) by lra | rewrite (Zceil_eq 4 r) by lra
            | rewrite (Zceil_eq (-4) r) by lra ]
  end.

(** Evaluates [Math.max] and [Math.min] of constants. *)
Ltac minmax_eval :=
  repeat match goal with
  | |- context [Rmax ?a ?b] =>
      first [rewrite (Rmax_left a b) by lra | rewrite (Rmax_right a b) by lra]
  | |- context [Rmin ?a ?b] =>
      first [rewrite (Rmin_left a b) by lra | rewrite (Rmin_right a b) by lra]
  end.

Example worldToChunk_boundaries :
  Space.worldToChunk defaultConfig (mkVec3 32 256 32) 32 = (1, 1, 1)%Z /\
  Space.worldToChunk defaultConfig (mkVec3 (-1) (-1) (-1)) 32 = (-1, -1, -1)%Z /\
  Space.worldToChunk defaultConfig (mkVec3 31 255 31) 32 = (0, 0, 0)%Z.
Proof.
  unfold Space.worldToChunk; cbn [x y z CHUNK_HEIGHT defaultConfig].
  split_and!; by floor_eval.
Qed.

Lemma getChunkSize_unknown_layer (cfg : Config) (l : string) :
  l <> "default" ->
  Space.getChunkSize cfg (Space.initialLayers cfg) l = CHUNK_SIZE cfg.
Proof.
  intros Hl. unfold Space.getChunkSize, Space.initialLayers.
  by rewrite lookup_singleton_ne.
Qed.

Lemma bind_nonempty {A B} (l : list A) (f : A -> list B) :
  l <> [] -> (forall a, f a <> []) -> l ≫= f <> [].
Proof.
  destruct l as [|a l]; [done|]. intros _ Hf. cbn.
  specialize (Hf a). destruct (f a); [done|]. done.
Qed.

(** The chunk ranges that [getIntersectingChunks] runs through. *)
Lemma getIntersectingChunks_ranges cfg layers l bounds chunkSize :
  let size := num_or chunkSize (Space.getChunkSize cfg layers l) in
  let clampX := num_lt (x (min bounds)) 0 && num_lt 0 (x (max bounds)) &&
                num_lt (x (max bounds) - x (min bounds)) size in
  let clampZ := num_lt (z (min bounds)) 0 && num_lt 0 (z (max bounds)) &&
                num_lt (z (max bounds) - z (min bounds)) size in
  let loX := if clampX then 0%Z else Zfloor (x (min bounds) / size) in
  let hiX := if clampX then 0%Z
             else Zfloor (Rmax (x (min bounds)) (x (max bounds) - 1e-6) / size) in
  let loY := Zfloor (y (min bounds) / CHUNK_HEIGHT cfg) in
  let hiY := Zfloor (Rmax (y (min bounds)) (y (max bounds) - 1e-6) / CHUNK_HEIGHT cfg) in
  let loZ := if clampZ then 0%Z else Zfloor (z (min bounds) / size) in
  let hiZ := if clampZ then 0%Z
             else Zfloor (Rmax (z (min bounds)) (z (max bounds) - 1e-6) / size) in
  Space.getIntersectingChunks cfg layers l bounds chunkSize =
    kx ← zrange loX (hiX + 1);
    ky ← zrange loY (hiY + 1);
    kz ← zrange loZ (hiZ + 1);
    [mkChunkKey l kx ky kz].
Proof.
  intros size clampX clampZ loX hiX loY hiY loZ hiZ.
  unfold Space.getIntersectingChunks, Space.worldToChunk, ChunkUtils.create.
  cbn [x y z]. fold size. fold clampX clampZ.
  subst loX hiX loZ hiZ. by destruct clampX, clampZ.
Qed.

Lemma Zfloor_div_le a b s : 0 < s -> a <= b -> (Zfloor (a / s) <= Zfloor (b / s))%Z.
Proof.
  intros Hs Hab. apply Zfloor_le. unfold Rdiv.
  apply Rmult_le_compat_r; [|done]. left. by apply Rinv_0_lt_compat.
Qed.

(** The clamp on the x and z axes.  For a box that straddles the origin
    on the x axis (minimum strictly negative, maximum strictly positive)
    with a span on that axis smaller than the chunk size, every chunk
    that [getIntersectingChunks] returns has index 0 on that axis, and
    the same holds for the z axis.  The result is not empty.  The box
    with min (-5,0,-5) and max (5,10,5) at chunk size 32 intersects
    exactly the chunk (0,0,0). *)
Theorem getIntersectingChunks_origin_clamp
    (cfg : Config) (layers : gmap string LayerConfig) (l : string)
    (bounds : AABB) (chunkSize : option R) :
  let size := num_or chunkSize (Space.getChunkSize cfg layers l) in
  let chunks := Space.getIntersectingChunks cfg layers l bounds chunkSize in
  0 < size -> 0 < CHUNK_HEIGHT cfg ->
  chunks <> [] /\
  (straddlesOrigin (x (min bounds)) (x (max bounds)) size ->
     forall k, k ∈ chunks -> cx k = 0%Z) /\
  (straddlesOrigin (z (min bounds)) (z (max bounds)) size ->
     forall k, k ∈ chunks -> cz k = 0%Z) /\
  Space.getIntersectingChunks defaultConfig (Space.initialLayers defaultConfig)
    "test" narrowBox None = [mkChunkKey "test" 0 0 0].
Proof.
  intros size chunks Hsize Hheight. subst chunks.
  rewrite getIntersectingChunks_ranges. cbv zeta. fold size.
  set (clampX := num_lt (x (min bounds)) _ && _ && _).
  set (clampZ := num_lt (z (min bounds)) _ && _ && _).
  split_and!.
  - apply bind_nonempty; [|intros kx; apply bind_nonempty; [|intros ky; apply bind_nonempty]].
    + apply zrange_nonempty. destruct clampX; [lia|].
      pose proof (Zfloor_div_le (x (min bounds))
        (Rmax (x (min bounds)) (x (max bounds) - 1e-6)) size Hsize (Rmax_l _ _)). lia.
    + apply zrange_nonempty.
      pose proof (Zfloor_div_le (y (min bounds))
        (Rmax (y (min bounds)) (y (max bounds) - 1e-6)) _ Hheight (Rmax_l _ _)). lia.
    + apply zrange_nonempty. destruct clampZ; [lia|].
      pose proof (Zfloor_div_le (z (min bounds))
        (Rmax (z (min bounds)) (z (max bounds) - 1e-6)) size Hsize (Rmax_l _ _)). lia.
    + done.
  - intros (Hlo & Hhi & Hspan) k Hk.
    assert (clampX = true) as ->.
    { subst clampX. by rewrite !num_lt_true. }
    apply list_elem_of_bind in Hk as (kx & Hk & Hkx).
    apply elem_of_zrange in Hkx.
    apply list_elem_of_bind in Hk as (ky & Hk & _).
    apply list_elem_of_bind in Hk as (kz & Hk & _).
    apply list_elem_of_singleton in Hk. subst k. cbn [cx]. lia.
  - intros (Hlo & Hhi & Hspan) k Hk.
    assert (clampZ = true) as ->.
    { subst clampZ. by rewrite !num_lt_true. }
    apply list_elem_of_bind in Hk as (kx & Hk & _).
    apply list_elem_of_bind in Hk as (ky & Hk & _).
    apply list_elem_of_bind in Hk as (kz & Hk & Hkz).
    apply elem_of_zrange in Hkz.
    apply list_elem_of_singleton in Hk. subst k. cbn [cz]. lia.
  - rewrite getIntersectingChunks_ranges. cbv zeta.
    rewrite getChunkSize_unknown_layer by done.
    cbn [num_or narrowBox min max x y z CHUNK_SIZE CHUNK_HEIGHT defaultConfig].
    num_decide. cbn [andb]. minmax_eval. floor_eval.
    zrange_eval. reflexivity.
Qed.

Lemma getIntersectingChunks_origin_clamp_witness :
  Forall (fun k => cx k = 0%Z /\ cz k = 0%Z)
    (Space.getIntersectingChunks defaultConfig (Space.initialLayers defaultConfig)
       "test" narrowBox None).
Proof.
  destruct (getIntersectingChunks_origin_clamp defaultConfig
              (Space.initialLayers defaultConfig) "test" narrowBox None)
    as (_ & Hx & Hz & _).
  - rewrite getChunkSize_unknown_layer by done. simpl. lra.
  - simpl. lra.
  - rewrite getChunkSize_unknown_layer in Hx, Hz by done.
    apply Forall_forall. intros k Hk. split.
    + apply Hx; [|done]. unfold straddlesOrigin. simpl. lra.
    + apply Hz; [|done]. unfold straddlesOrigin. simpl. lra.
Defined.

(** C9 at its failing input.  The box from (0,-5,0) to (1,5,1) straddles
    the origin on the y axis with a span of 10, smaller than the chunk
    size 32: [getIntersectingChunks] returns the chunks with y index -1
    and 0, where the claim, and the comment in the code on boxes that
    "straddle the origin plane on an axis", give the origin chunk alone.
    The x and z branches do the clamp and there is none for y: the same
    box turned onto the x axis yields the chunk (0,0,0) only. *)
Theorem getIntersectingChunks_no_clamp_on_y :
  straddlesOrigin (y (min uprightBox)) (y (max uprightBox)) 32 /\
  Space.getIntersectingChunks defaultConfig (Space.initialLayers defaultConfig)
    "test" uprightBox None =
  [mkChunkKey "test" 0 (-1) 0; mkChunkKey "test" 0 0 0] /\
  straddlesOrigin (x (min lyingBox)) (x (max lyingBox)) 32 /\
  Space.getIntersectingChunks defaultConfig (Space.initialLayers defaultConfig)
    "test" lyingBox None =
  [mkChunkKey "test" 0 0 0].
Proof.
  split; [unfold straddlesOrigin; simpl; lra|]. split.
  - rewrite getIntersectingChunks_ranges. cbv zeta.
    rewrite getChunkSize_unknown_layer by done.
    cbn [num_or uprightBox min max x y z CHUNK_SIZE CHUNK_HEIGHT defaultConfig].
    num_decide. cbn [andb]. minmax_eval. floor_eval.
    zrange_eval. reflexivity.
  - split; [unfold straddlesOrigin; simpl; lra|].
    rewrite getIntersectingChunks_ranges. cbv zeta.
    rewrite getChunkSize_unknown_layer by done.
    cbn [num_or lyingBox min max x y z CHUNK_SIZE CHUNK_HEIGHT defaultConfig].
    num_decide. cbn [andb]. minmax_eval. floor_eval.
    zrange_eval. reflexivity.
Qed.

(** ** The movement system *)

Section Frame.

Import Movement.

Lemma preservesStore_ret {A} (a : A) : preservesStore (ret a).
Proof. by intros s. Qed.

Lemma preservesStore_bind {A B} (m : M A) (f : A -> M B) :
  preservesStore m -> (forall a, preservesStore (f a)) -> preservesStore (bind m f).
Proof.
  intros Hm Hf s. unfold bind. specialize (Hm s).
  destruct (m s) as [a s'] eqn:E. cbn [snd] in Hm. by rewrite Hf.
Qed.

Lemma preservesStore_foldM {A B} (step : B -> A -> M B) (l : list A) :
  (forall acc a, preservesStore (step acc a)) ->
  forall acc, preservesStore (foldM step acc l).
Proof.
  intros Hstep. induction l as [|a l IH]; intros acc; cbn [foldM].
  - apply preservesStore_ret.
  - by apply preservesStore_bind.
Qed.

Lemma preservesStore_getContract e ct : preservesStore (getContract e ct).
Proof. by intros s. Qed.

Lemma preservesStore_getEntitiesWithContract ct :
  preservesStore (getEntitiesWithContract ct).
Proof. by intros s. Qed.

Lemma preservesStore_getLayers : preservesStore getLayers.
Proof. by intros s. Qed.

Lemma preservesStore_getChunk now k : preservesStore (ChunkManager.getChunk now k).
Proof. intros s. unfold ChunkManager.getChunk. by destruct (chunks s !! _). Qed.

Create HintDb frame.

Hint Resolve preservesStore_ret preservesStore_getContract
  preservesStore_getEntitiesWithContract preservesStore_getLayers
  preservesStore_getChunk : frame.

Lemma preservesStore_getChunksForMovement cfg startPos endPos :
  preservesStore (getChunksForMovement cfg startPos endPos).
Proof.
  unfold getChunksForMovement. apply preservesStore_bind; auto with frame.
Qed.

Lemma preservesStore_checkStaticSolids now movingAABB displacement k :
  preservesStore (checkStaticSolids now movingAABB displacement k).
Proof.
  unfold checkStaticSolids. apply preservesStore_bind; auto with frame.
Qed.

Lemma preservesStore_checkDynamicSolid movingAABB displacement other :
  preservesStore (checkDynamicSolid movingAABB displacement other).
Proof.
  unfold checkDynamicSolid. apply preservesStore_bind; [auto with frame|].
  intros [[]|]; auto with frame.
  by destruct solid.
Qed.

Hint Resolve preservesStore_getChunksForMovement preservesStore_checkStaticSolids
  preservesStore_checkDynamicSolid : frame.

Lemma preservesStore_performSweptAABB cfg now e startPos endPos bounds :
  preservesStore (performSweptAABB cfg now e startPos endPos bounds).
Proof.
  unfold performSweptAABB. apply preservesStore_bind; [auto with frame|].
  intros [affected| |]; auto with frame.
  apply preservesStore_bind; [auto with frame|]. intros withSolidity.
  apply preservesStore_bind.
  { apply preservesStore_foldM. intros acc k.
    apply preservesStore_bind; auto with frame. }
  intros closest. apply preservesStore_bind; [|auto with frame].
  apply preservesStore_foldM. intros acc other.
  apply preservesStore_bind; auto with frame.
Qed.

Lemma preservesStore_attemptMove cfg now e want dt :
  preservesStore (attemptMove cfg now e want dt).
Proof.
  unfold attemptMove.
  apply preservesStore_bind; [auto with frame|]. intros mobility.
  apply preservesStore_bind; [auto with frame|]. intros shape.
  destruct mobility as [[]|]; auto with frame.
  destruct shape as [[]|]; auto with frame.
  destruct (num_lt _ _); auto with frame.
  apply preservesStore_bind; [apply preservesStore_performSweptAABB|].
  intros [collision| |]; auto with frame.
  destruct (negb _); auto with frame.
Qed.

End Frame.

(** C10.  [attemptMove] leaves the entity store as it found it, for every
    entity, target and time step: no component of any entity changes, and
    in particular a query for the mover's mobility (its position and
    velocity) gives the same answer after the call as before.  The chunk
    manager may change: [getChunk] creates chunk records and touches
    [lastAccessed]. *)
Theorem attemptMove_readonly (cfg : Config) (now : Z) (e : string) (want : Vec3)
    (dt : R) (s : Sim) :
  let s' := snd (Movement.attemptMove cfg now e want dt s) in
  ecsWorld s' = ecsWorld s /\
  (forall e' ct, ECS.getContract (ecsWorld s') e' ct = ECS.getContract (ecsWorld s) e' ct) /\
  ECS.getContract (ecsWorld s') e "mobility" = ECS.getContract (ecsWorld s) e "mobility".
Proof.
  intros s'. assert (H : ecsWorld s' = ecsWorld s) by apply preservesStore_attemptMove.
  rewrite H. done.
Qed.

(** C7.  [attemptMove] on an entity without a mobility component returns
    ok = false with position (0,0,0) and a reason that contains
    "mobility"; on an entity with mobility and without a shape component
    it returns ok = false with the entity's current position and a reason
    that contains "shape". *)
Theorem attemptMove_missing_component (cfg : Config) (now : Z) (e : string)
    (want : Vec3) (dt : R) (s : Sim) :
  (ECS.getContract (ecsWorld s) e "mobility" = None ->
   exists r reason,
     fst (Movement.attemptMove cfg now e want dt s) = Return r /\
     ok r = false /\ position r = mkVec3 0 0 0 /\
     blockedReason r = Some reason /\ includes "mobility" reason = true) /\
  (forall current velocity maxSpeed acceleration,
     ECS.getContract (ecsWorld s) e "mobility" =
       Some (Mobility current velocity maxSpeed acceleration) ->
     ECS.getContract (ecsWorld s) e "shape" = None ->
     exists r reason,
       fst (Movement.attemptMove cfg now e want dt s) = Return r /\
       ok r = false /\ position r = current /\
       blockedReason r = Some reason /\ includes "shape" reason = true).
Proof.
  split.
  - intros Hm. unfold Movement.attemptMove, bind, Movement.getContract. rewrite Hm.
    by eexists _, _.
  - intros current velocity maxSpeed acceleration Hm Hs.
    unfold Movement.attemptMove, bind, Movement.getContract. rewrite Hm, Hs.
    by eexists _, _.
Qed.

Lemma attemptMove_missing_component_witness :
  (exists r reason,
     fst (Movement.attemptMove defaultConfig 0 "no-mobility" (mkVec3 1 0 0) 0.1 incomplete) =
       Return r /\
     ok r = false /\ position r = mkVec3 0 0 0 /\
     blockedReason r = Some reason /\ includes "mobility" reason = true) /\
  (exists r reason,
     fst (Movement.attemptMove defaultConfig 0 "no-shape" (mkVec3 1 0 0) 0.1 incomplete) =
       Return r /\
     ok r = false /\ position r = origin /\
     blockedReason r = Some reason /\ includes "shape" reason = true).
Proof.
  split.
  - apply (attemptMove_missing_component defaultConfig 0 "no-mobility" (mkVec3 1 0 0) 0.1
             incomplete). reflexivity.
  - apply (attemptMove_missing_component defaultConfig 0 "no-shape" (mkVec3 1 0 0) 0.1
             incomplete) with (velocity := None) (maxSpeed := Some 5) (acceleration := None);
      reflexivity.
Defined.

(** ** The sweep: candidates and the collision reported *)

Section Sweep.

Import Movement.

Lemma sameWorld_refl s : sameWorld s s.
Proof. by split_and!. Qed.

Lemma sameWorld_trans s1 s2 s3 : sameWorld s1 s2 -> sameWorld s2 s3 -> sameWorld s1 s3.
Proof.
  intros (He & Hg & Hl) (He' & Hg' & Hl'). split_and!.
  - by rewrite He'.
  - intros k. by rewrite Hg'.
  - by rewrite Hl'.
Qed.

Lemma getChunk_sameWorld now k s :
  sameWorld s (snd (ChunkManager.getChunk now k s)) /\
  solidGrid (fst (ChunkManager.getChunk now k s)) = gridOf s k.
Proof.
  unfold ChunkManager.getChunk, gridOf.
  destruct (chunks s !! ChunkUtils.toString k) as [c|] eqn:E; cbn [fst snd].
  - split; [|done]. split_and!; try done. intros k'. unfold gridOf. cbn [chunks].
    destruct (decide (ChunkUtils.toString k = ChunkUtils.toString k')) as [Heq|Hne].
    + rewrite <- Heq, lookup_insert_eq, E. done.
    + by rewrite lookup_insert_ne.
  - split; [|done]. split_and!; try done. intros k'. unfold gridOf. cbn [chunks].
    destruct (decide (ChunkUtils.toString k = ChunkUtils.toString k')) as [Heq|Hne].
    + rewrite <- Heq, lookup_insert_eq, E. done.
    + by rewrite lookup_insert_ne.
Qed.

Lemma gridCollision_grid c c' movingAABB displacement :
  solidGrid c = solidGrid c' ->
  gridCollision c movingAABB displacement = gridCollision c' movingAABB displacement.
Proof. destruct c, c'. cbn [solidGrid]. by intros ->. Qed.

Lemma checkStaticSolids_sameWorld now movingAABB displacement k s s' :
  sameWorld s s' ->
  fst (checkStaticSolids now movingAABB displacement k s') =
    staticCandidate s movingAABB displacement k /\
  sameWorld s (snd (checkStaticSolids now movingAABB displacement k s')).
Proof.
  intros Hs. unfold staticCandidate, checkStaticSolids, bind, ret.
  pose proof (getChunk_sameWorld now k s') as [Hsame Hgrid].
  pose proof (getChunk_sameWorld 0 k s) as [_ Hgrid0].
  destruct (ChunkManager.getChunk now k s') as [c s''].
  destruct (ChunkManager.getChunk 0 k s) as [c0 s0]. cbn [fst snd] in *.
  split; [|by eapply sameWorld_trans].
  apply gridCollision_grid. rewrite Hgrid, Hgrid0. by destruct Hs as (_ & -> & _).
Qed.

Lemma checkDynamicSolid_sameWorld movingAABB displacement other s s' :
  sameWorld s s' ->
  fst (checkDynamicSolid movingAABB displacement other s') =
    dynamicCandidate s movingAABB displacement other /\
  snd (checkDynamicSolid movingAABB displacement other s') = s'.
Proof.
  intros (He & _). unfold dynamicCandidate, checkDynamicSolid, bind, ret, getContract.
  rewrite He. destruct (ECS.getContract (ecsWorld s) other "solidity") as [[]|]; try done.
  destruct solid; [|done]. cbn beta. by rewrite He.
Qed.

(** A loop that keeps the closer collision, over candidates that the
    state determines, reports what [closer] reports over their list. *)
Lemma foldM_closer {A} (f : A -> M Collision) (cand : A -> Collision) s (l : list A) :
  (forall a s', sameWorld s s' ->
     fst (f a s') = cand a /\ sameWorld s (snd (f a s'))) ->
  forall acc s', sameWorld s s' ->
    fst (foldM (fun acc a => bind (f a) (fun c => ret (closer acc c))) acc l s') =
      foldl closer acc (cand <$> l) /\
    sameWorld s (snd (foldM (fun acc a => bind (f a) (fun c => ret (closer acc c))) acc l s')).
Proof.
  intros Hf. induction l as [|a l IH]; intros acc s' Hs; [done|].
  destruct (Hf a s' Hs) as [Hc Hs'].
  destruct (f a s') as [c s''] eqn:E. cbn [fst snd] in *. subst c.
  set (step := fun acc a => bind (f a) (fun c => ret (closer acc c))) in *.
  assert (Heq : foldM step acc (a :: l) s' = foldM step (closer acc (cand a)) l s'').
  { cbn [foldM]. unfold bind at 1. unfold step at 1. unfold bind at 1. by rewrite E. }
  rewrite Heq, fmap_cons. cbn [foldl]. by apply IH.
Qed.

Lemma parseKeys_toString ks :
  Forall (fun k => ChunkUtils.plainLayerId (layerId k)) ks ->
  parseKeys (ChunkUtils.toString <$> ks) = Return ks.
Proof.
  induction 1 as [|k ks Hk _ IH]; [done|].
  rewrite fmap_cons. cbn [parseKeys].
  by rewrite fromString_toString_plain, IH.
Qed.

Lemma foldl_set_add_keys keys : forall ks,
  foldl (fun set k => ECS.set_add (ChunkUtils.toString k) set)
    (ChunkUtils.toString <$> ks) keys =
  ChunkUtils.toString <$> foldl addKey ks keys.
Proof.
  induction keys as [|k keys IH]; intros ks; [done|].
  cbn [foldl]. rewrite <- IH. f_equal.
  unfold ECS.set_add, addKey.
  destruct (bool_decide (ChunkUtils.toString k ∈ ChunkUtils.toString <$> ks)); [done|].
  by rewrite fmap_app.
Qed.

Lemma foldl_addKey_Forall (P : ChunkKey -> Prop) keys : forall ks,
  Forall P ks -> Forall P keys -> Forall P (foldl addKey ks keys).
Proof.
  induction keys as [|k keys IH]; intros ks Hks Hkeys; [done|].
  apply Forall_cons in Hkeys as [Hk Hkeys]. cbn [foldl]. apply IH; [|done].
  unfold addKey. destruct (bool_decide _); [done|].
  apply Forall_app. split; [done|]. by apply Forall_singleton.
Qed.

Lemma getNeighboringChunks_layer center radius :
  Forall (fun k => layerId k = layerId center) (Space.getNeighboringChunks center radius).
Proof.
  apply Forall_forall. intros k Hk. unfold Space.getNeighboringChunks in Hk.
  apply list_elem_of_bind in Hk as (dx & Hk & _).
  apply list_elem_of_bind in Hk as (dy & Hk & _).
  apply list_elem_of_bind in Hk as (dz & Hk & _).
  apply list_elem_of_singleton in Hk. by subst.
Qed.

Lemma keyFromPos_layer cfg registry l p size :
  layerId (Space.keyFromPos cfg registry l p size) = l.
Proof.
  unfold Space.keyFromPos. by destruct (Space.worldToChunk _ _ _) as [[? ?] ?].
Qed.

(** What [getChunksForMovement] returns when the key strings are those
    of [ChunkUtils.numberToString]: the keys of the start chunk, the end
    chunk and the neighbours of the start chunk, each once. *)
Lemma getChunksForMovement_returns cfg startPos endPos s :
  let startChunk := Space.keyFromPos cfg (layers s) "default" startPos None in
  let endChunk := Space.keyFromPos cfg (layers s) "default" endPos None in
  getChunksForMovement cfg startPos endPos s =
    (Return (foldl addKey []
               (startChunk :: endChunk :: Space.getNeighboringChunks startChunk 1)), s).
Proof.
  intros startChunk endChunk.
  unfold getChunksForMovement, bind, getLayers, ret. f_equal.
  fold startChunk endChunk.
  rewrite (foldl_set_add_keys _ []). apply parseKeys_toString.
  apply (foldl_addKey_Forall (fun k => ChunkUtils.plainLayerId (layerId k))); [done|].
  assert (Hplain : ChunkUtils.plainLayerId "default") by (by split).
  apply Forall_cons_2; [|apply Forall_cons_2].
  - unfold startChunk. by rewrite keyFromPos_layer.
  - unfold endChunk. by rewrite keyFromPos_layer.
  - eapply Forall_impl; [apply getNeighboringChunks_layer|].
    intros k ->. unfold startChunk. by rewrite keyFromPos_layer.
Qed.

Lemma affectedChunks_sameWorld cfg startPos endPos s s' :
  sameWorld s s' ->
  getChunksForMovement cfg startPos endPos s' =
    (Return (affectedChunks cfg s startPos endPos), s').
Proof.
  intros (_ & _ & Hl). unfold affectedChunks.
  rewrite !getChunksForMovement_returns. cbn [fst]. by rewrite Hl.
Qed.

(** What [performSweptAABB] reports: [closer] run over the candidates
    in order, from the record that says that nothing was hit. *)
Lemma performSweptAABB_candidates cfg now e startPos endPos bounds s :
  fst (performSweptAABB cfg now e startPos endPos bounds s) =
  Return (foldl closer
            (mkCollision false endPos (mkVec3 0 1 0)
               (Vec3Utils.length (Vec3Utils.subtract endPos startPos)) None)
            (candidates cfg s e startPos endPos bounds)).
Proof.
  unfold performSweptAABB, candidates. unfold bind at 1.
  rewrite (affectedChunks_sameWorld cfg startPos endPos s s) by apply sameWorld_refl.
  unfold bind at 1. unfold getEntitiesWithContract at 1. fold (solidEntities s e).
  set (displacement := Vec3Utils.subtract endPos startPos).
  set (movingAABB := getEntityAABB bounds startPos).
  set (init := mkCollision _ _ _ _ _).
  unfold bind at 1.
  pose proof (foldM_closer (checkStaticSolids now movingAABB displacement)
    (staticCandidate s movingAABB displacement) s (affectedChunks cfg s startPos endPos)
    (fun a s' Hs => checkStaticSolids_sameWorld now movingAABB displacement a s s' Hs)
    init s (sameWorld_refl s)) as [Hstat Hs1].
  destruct (foldM _ init (affectedChunks cfg s startPos endPos) s) as [c1 s1].
  cbn [fst snd] in Hstat, Hs1. subst c1.
  unfold bind at 1.
  pose proof (foldM_closer (checkDynamicSolid movingAABB displacement)
    (dynamicCandidate s movingAABB displacement) s (solidEntities s e)) as Hdyn.
  destruct (Hdyn) with
    (acc := foldl closer init (staticCandidate s movingAABB displacement <$>
                                 affectedChunks cfg s startPos endPos))
    (s' := s1) as [Hd _]; [|exact Hs1|].
  { intros a s' Hs. destruct (checkDynamicSolid_sameWorld movingAABB displacement a s s' Hs)
      as [H1 H2]. split; [done|]. by rewrite H2. }
  destruct (foldM _ _ (solidEntities s e) s1) as [c2 s2].
  cbn [fst snd ret] in *. rewrite Hd. by rewrite foldl_app.
Qed.

End Sweep.

Section Reported.

Import Movement.

Lemma closer_cases acc c :
  (closer acc c = c /\ hit c = true /\ distance c < distance acc) \/
  (closer acc c = acc /\ (hit c = true -> distance acc <= distance c)).
Proof.
  unfold closer. destruct (hit c); cbn [andb].
  - destruct (num_lt (distance c) (distance acc)) eqn:E.
    + left. by apply num_lt_spec in E.
    + right. split; [done|]. intros _.
      destruct (Rle_dec (distance acc) (distance c)) as [H|H]; [done|].
      apply Rnot_le_lt, num_lt_spec in H. congruence.
  - right. by split.
Qed.

(** What the two loops keep: the first of the candidates that are hits
    at the smallest distance, if that distance is below the one of the
    initial record; else the initial record. *)
Lemma foldl_closer_spec init (cands : list Collision) :
  let r := foldl closer init cands in
  (r = init /\ forall c, c ∈ cands -> hit c = true -> distance init <= distance c) \/
  (exists i, cands !! i = Some r /\ hit r = true /\ distance r < distance init /\
     forall j c, cands !! j = Some c -> hit c = true ->
       distance r <= distance c /\ ((j < i)%nat -> distance r < distance c)).
Proof.
  induction cands as [|c cands IH] using rev_ind; [left; by split; [|intros ? ?%elem_of_nil]|].
  cbv zeta in *. rewrite foldl_app. cbn [foldl].
  set (r' := foldl closer init cands) in *.
  destruct (closer_cases r' c) as [(-> & Hc & Hlt)|(-> & Hge)].
  - right. exists (length cands). split_and!.
    + by rewrite lookup_app_r, Nat.sub_diag.
    + done.
    + destruct IH as [[-> _]|(i & _ & _ & Hi & _)]; lra.
    + intros j c' Hj Hc'.
      destruct (decide (j < length cands)%nat) as [Hlen|Hlen].
      * rewrite lookup_app_l in Hj by done.
        assert (distance c < distance c'); [|split; [lra|done]].
        destruct IH as [[Hr Hall]|(i & _ & _ & _ & Hall)].
        -- rewrite Hr in Hlt. apply list_elem_of_lookup_2 in Hj.
           specialize (Hall c' Hj Hc'). lra.
        -- destruct (Hall j c' Hj Hc') as [Hle _]. lra.
      * rewrite lookup_app_r in Hj by lia.
        destruct (j - length cands)%nat eqn:Ej; [|by destruct n].
        injection Hj as ->. split; [lra|lia].
  - destruct IH as [[Hr Hall]|(i & Hi & Hhit & Hlt & Hall)].
    + left. split; [done|]. intros c' [Hin| ->%list_elem_of_singleton]%elem_of_app Hc'.
      * by apply Hall.
      * rewrite <- Hr. by apply Hge.
    + right. exists i. split_and!; try done.
      * apply lookup_app_l_Some, Hi.
      * intros j c' Hj Hc'.
        destruct (decide (j < length cands)%nat) as [Hlen|Hlen].
        -- rewrite lookup_app_l in Hj by done. by apply Hall.
        -- rewrite lookup_app_r in Hj by lia.
           destruct (j - length cands)%nat eqn:Ej; [|by destruct n].
           injection Hj as ->. split; [by apply Hge|].
           apply lookup_lt_Some in Hi. lia.
Qed.

Lemma gridCollision_cases c movingAABB displacement :
  gridCollision c movingAABB displacement = noHit movingAABB displacement \/
  gridCollision c movingAABB displacement =
    mkCollision true (Vec3Utils.add (min movingAABB) displacement) (mkVec3 0 1 0)
      (Vec3Utils.length displacement * 0.5) None.
Proof.
  unfold gridCollision. destruct (solidGrid c); [|by left].
  cbv zeta. destruct (existsb _ _); [by right|by left].
Qed.

(** A candidate of a grid: no hit, or a hit at half the displacement,
    with no entity. *)
Lemma staticCandidate_cases s movingAABB displacement k :
  staticCandidate s movingAABB displacement k = noHit movingAABB displacement \/
  staticCandidate s movingAABB displacement k =
    mkCollision true (Vec3Utils.add (min movingAABB) displacement) (mkVec3 0 1 0)
      (Vec3Utils.length displacement * 0.5) None.
Proof.
  unfold staticCandidate, checkStaticSolids, bind, ret.
  destruct (ChunkManager.getChunk 0 k s) as [c s']. apply gridCollision_cases.
Qed.

(** A candidate of an entity: no hit, or a hit that names the entity,
    at a fraction of the displacement between 0 and 1. *)
Lemma dynamicCandidate_cases s movingAABB displacement other :
  dynamicCandidate s movingAABB displacement other = noHit movingAABB displacement \/
  exists f, 0 <= f <= 1 /\
    hit (dynamicCandidate s movingAABB displacement other) = true /\
    entityId (dynamicCandidate s movingAABB displacement other) = Some other /\
    distance (dynamicCandidate s movingAABB displacement other) =
      f * Vec3Utils.length displacement.
Proof.
  unfold dynamicCandidate, checkDynamicSolid, bind, ret, getContract.
  destruct (ECS.getContract (ecsWorld s) other "solidity") as [[]|]; try by left.
  destruct solid; [|by left]. cbn [fst].
  destruct (ECS.getContract (ecsWorld s) other "shape") as [[]|]; try by left.
  destruct (ECS.getContract (ecsWorld s) other "mobility") as [[]|]; try by left.
  cbv zeta. destruct (sweepHit _); [|by left].
  right. eexists. split; [|by split_and!].
  split; [apply Rmax_l|]. apply Rmax_lub; [lra|apply Rmin_l].
Qed.

Lemma length_nonneg v : 0 <= Vec3Utils.length v.
Proof. apply sqrt_pos. Qed.

End Reported.

Section Ties.

Import Movement.

Lemma staticCandidate_entityId s movingAABB displacement k :
  entityId (staticCandidate s movingAABB displacement k) = None.
Proof. by destruct (staticCandidate_cases s movingAABB displacement k) as [-> | ->]. Qed.

(** The collision that [performSweptAABB] reports, with its place among
    the candidates. *)
Lemma performSweptAABB_reported cfg now e startPos endPos bounds s :
  let len := Vec3Utils.length (Vec3Utils.subtract endPos startPos) in
  let cands := candidates cfg s e startPos endPos bounds in
  exists r,
    fst (performSweptAABB cfg now e startPos endPos bounds s) = Return r /\
    ((hit r = false /\ distance r = len /\
      forall c, c ∈ cands -> hit c = true -> len <= distance c) \/
     (exists i, cands !! i = Some r /\ hit r = true /\ distance r < len /\
        forall j c, cands !! j = Some c -> hit c = true ->
          distance r <= distance c /\ ((j < i)%nat -> distance r < distance c))).
Proof.
  intros len cands. eexists. split; [apply performSweptAABB_candidates|].
  fold cands.
  destruct (foldl_closer_spec
    (mkCollision false endPos (mkVec3 0 1 0) len None) cands) as [[Hr Hall]|Hi].
  - left. fold len. rewrite Hr. by split_and!.
  - right. exact Hi.
Qed.

Lemma staticCandidate_hit_distance s movingAABB displacement k :
  hit (staticCandidate s movingAABB displacement k) = true ->
  distance (staticCandidate s movingAABB displacement k) =
    Vec3Utils.length displacement * 0.5.
Proof.
  destruct (staticCandidate_cases s movingAABB displacement k) as [-> | ->].
  - cbn [noHit hit]. discriminate.
  - reflexivity.
Qed.

(** The candidates of the grids come first. *)
Lemma candidates_static cfg s e startPos endPos bounds i k :
  affectedChunks cfg s startPos endPos !! i = Some k ->
  candidates cfg s e startPos endPos bounds !! i =
    Some (staticCandidate s (getEntityAABB bounds startPos)
            (Vec3Utils.subtract endPos startPos) k).
Proof.
  intros Hk. unfold candidates. cbv zeta.
  apply lookup_app_l_Some. rewrite list_lookup_fmap. rewrite Hk. reflexivity.
Qed.

(** The place of a tie among the candidates: if the candidate at place
    [j] is hit at the smallest distance of all hits, below the length of
    the displacement, the collision reported is a candidate at a place
    up to [j] at that distance. *)
Lemma reported_before_tie cfg now e startPos endPos bounds s j c :
  candidates cfg s e startPos endPos bounds !! j = Some c ->
  hit c = true ->
  distance c < Vec3Utils.length (Vec3Utils.subtract endPos startPos) ->
  (forall c', c' ∈ candidates cfg s e startPos endPos bounds -> hit c' = true ->
     distance c <= distance c') ->
  exists r i,
    fst (performSweptAABB cfg now e startPos endPos bounds s) = Return r /\
    (i <= j)%nat /\ candidates cfg s e startPos endPos bounds !! i = Some r /\
    hit r = true /\ distance r = distance c.
Proof.
  intros Hj Hc Hlt Hmin.
  destruct (performSweptAABB_reported cfg now e startPos endPos bounds s)
    as (r & Hr & Hcases). cbv zeta in Hcases.
  destruct Hcases as [(_ & _ & Hall)|(i & Hi & Hhit & _ & Hall)].
  - apply list_elem_of_lookup_2 in Hj. specialize (Hall c Hj Hc). lra.
  - exists r, i. destruct (Hall j c Hj Hc) as [Hle Hfirst].
    assert (Hge : distance c <= distance r).
    { apply Hmin; [|exact Hhit]. eapply list_elem_of_lookup_2. exact Hi. }
    split; [exact Hr|]. split.
    + destruct (decide (i <= j)%nat) as [Hij|Hij]; [exact Hij|].
      assert (distance r < distance c) by (apply Hfirst; lia). lra.
    + split; [exact Hi|]. split; [exact Hhit|]. lra.
Qed.

(** When a grid and an entity are hit at the same distance, and nothing
    is hit nearer, the collision reported is one of a grid. *)
Lemma tie_reports_grid cfg now e startPos endPos bounds s k other :
  let displacement := Vec3Utils.subtract endPos startPos in
  let movingAABB := getEntityAABB bounds startPos in
  let cs := staticCandidate s movingAABB displacement k in
  let cd := dynamicCandidate s movingAABB displacement other in
  k ∈ affectedChunks cfg s startPos endPos ->
  hit cs = true -> hit cd = true -> distance cs = distance cd ->
  0 < Vec3Utils.length displacement ->
  (forall c, c ∈ candidates cfg s e startPos endPos bounds -> hit c = true ->
     distance cs <= distance c) ->
  exists r,
    fst (performSweptAABB cfg now e startPos endPos bounds s) = Return r /\
    hit r = true /\ entityId r = None /\ distance r = distance cd /\
    blockedReasonOf r = "Blocked by solid"%string.
Proof.
  cbv zeta. intros Hk Hcs Hcd Heq Hlen Hmin.
  pose proof (staticCandidate_hit_distance _ _ _ _ Hcs) as Hdist.
  apply list_elem_of_lookup in Hk as [j Hj].
  pose proof (candidates_static cfg s e startPos endPos bounds j k Hj) as Hjc.
  pose proof (lookup_lt_Some _ _ _ Hj) as Hjlt.
  revert Hcs Hcd Heq Hmin Hdist Hjc.
  generalize (staticCandidate s (getEntityAABB bounds startPos)
                (Vec3Utils.subtract endPos startPos) k).
  generalize (dynamicCandidate s (getEntityAABB bounds startPos)
                (Vec3Utils.subtract endPos startPos) other).
  intros cd cs Hcs Hcd Heq Hmin Hdist Hjc.
  destruct (reported_before_tie cfg now e startPos endPos bounds s j cs Hjc Hcs)
    as (r & i & Hr & Hij & Hi & Hhit & Hd); [lra|exact Hmin|].
  exists r. split; [exact Hr|].
  destruct (affectedChunks cfg s startPos endPos !! i) as [k'|] eqn:Hk'.
  - rewrite (candidates_static cfg s e startPos endPos bounds i k' Hk') in Hi.
    injection Hi as Hi.
    assert (He : entityId r = None).
    { rewrite <- Hi. apply staticCandidate_entityId. }
    split; [exact Hhit|]. split; [exact He|]. split; [lra|].
    unfold blockedReasonOf. rewrite He. reflexivity.
  - apply lookup_ge_None in Hk'. lia.
Qed.

End Ties.

(** C4, as amended.  The collision that the swept-AABB phase reports is,
    among the candidate hits of the static grids of the affected chunks
    and of the dynamic solid entities, one at the smallest distance, when
    that distance is below the length of the displacement; else no hit is
    reported.  Among hits at that smallest distance it is the first in
    the order grids, then entities.  So when a static-grid hit and a
    dynamic entity's hit occur at exactly equal, smallest distance, the
    hit of the grid is the one reported, and blockedReason is "Blocked by
    solid". *)
Theorem performSweptAABB_first_closest
    (cfg : Config) (now : Z) (e : string) (startPos endPos : Vec3) (bounds : AABB) (s : Sim) :
  let displacement := Vec3Utils.subtract endPos startPos in
  let movingAABB := Movement.getEntityAABB bounds startPos in
  let len := Vec3Utils.length displacement in
  let cands := candidates cfg s e startPos endPos bounds in
  exists r,
    fst (Movement.performSweptAABB cfg now e startPos endPos bounds s) = Return r /\
    (hit r = false -> forall c, c ∈ cands -> hit c = true -> len <= distance c) /\
    (hit r = true ->
       exists i, cands !! i = Some r /\ distance r < len /\
         forall j c, cands !! j = Some c -> hit c = true ->
           distance r <= distance c /\ ((j < i)%nat -> distance r < distance c)) /\
    (forall k other,
       let cs := staticCandidate s movingAABB displacement k in
       let cd := dynamicCandidate s movingAABB displacement other in
       k ∈ affectedChunks cfg s startPos endPos ->
       hit cs = true -> hit cd = true -> distance cs = distance cd -> 0 < len ->
       (forall c, c ∈ cands -> hit c = true -> distance cs <= distance c) ->
       hit r = true /\ entityId r = None /\ distance r = distance cd /\
       Movement.blockedReasonOf r = "Blocked by solid"%string).
Proof.
  intros displacement movingAABB len cands.
  destruct (performSweptAABB_reported cfg now e startPos endPos bounds s) as (r & Hr & Hcases).
  exists r. split; [done|]. split_and!.
  - intros Hmiss. destruct Hcases as [(_ & _ & Hall)|(i & _ & Hhit & _)]; [done|congruence].
  - intros Hhit. destruct Hcases as [(Hmiss & _)|(i & Hi & _ & Hlt & Hall)]; [congruence|].
    by exists i.
  - intros k other cs cd Hk Hcs Hcd Heq Hlen Hmin.
    destruct (tie_reports_grid cfg now e startPos endPos bounds s k other
                Hk Hcs Hcd Heq Hlen Hmin) as (r' & Hr' & Hres).
    rewrite Hr in Hr'. by injection Hr' as <-.
Qed.

(** ** The speed limit of [attemptMove] *)

Section SpeedLimit.

Import Movement.

Lemma length_multiply v k :
  Vec3Utils.length (Vec3Utils.multiply v k) = Rabs k * Vec3Utils.length v.
Proof.
  unfold Vec3Utils.length, Vec3Utils.multiply. cbn [x y z].
  replace (x v * k * (x v * k) + y v * k * (y v * k) + z v * k * (z v * k))
    with (Rsqr k * (x v * x v + y v * y v + z v * z v)) by (unfold Rsqr; ring).
  rewrite sqrt_mult_alt by apply Rle_0_sqr.
  by rewrite sqrt_Rsqr_abs.
Qed.

Lemma subtract_add p d : Vec3Utils.subtract (Vec3Utils.add p d) p = d.
Proof.
  destruct p, d. unfold Vec3Utils.subtract, Vec3Utils.add. cbn [x y z].
  f_equal; ring.
Qed.

Lemma distance_add p d : Vec3Utils.distance (Vec3Utils.add p d) p = Vec3Utils.length d.
Proof.
  unfold Vec3Utils.distance. cbv zeta. by rewrite subtract_add.
Qed.

Lemma distance_self p : Vec3Utils.distance p p = 0.
Proof.
  unfold Vec3Utils.distance, Vec3Utils.subtract. cbn [x y z].
  replace ((x p - x p) * (x p - x p) + (y p - y p) * (y p - y p) +
           (z p - z p) * (z p - z p)) with 0 by ring.
  apply sqrt_0.
Qed.

Lemma length_normalize v : Vec3Utils.length (Vec3Utils.normalize v) <= 1.
Proof.
  unfold Vec3Utils.normalize. cbv zeta.
  destruct (num_eq (Vec3Utils.length v) 0) eqn:E.
  - unfold Vec3Utils.length. cbn [x y z].
    replace (0 * 0 + 0 * 0 + 0 * 0) with 0 by ring. rewrite sqrt_0. lra.
  - assert (Hne : Vec3Utils.length v <> 0).
    { intros H. apply num_eq_spec in H. congruence. }
    pose proof (length_nonneg v) as Hpos.
    rewrite length_multiply. rewrite Rabs_right.
    + right. by field.
    + apply Rle_ge. unfold Rdiv. apply Rmult_le_pos; [lra|].
      left. apply Rinv_0_lt_compat. lra.
Qed.

Lemma num_or_positive ms d :
  optional positive_number ms = true -> 0 < d -> 0 < num_or ms d.
Proof.
  destruct ms as [v|]; cbn; [|done]. intros Hv%num_lt_spec Hd.
  rewrite num_eq_false; [done|lra].
Qed.

(** A candidate that is a hit is at a distance that is not negative. *)
Lemma candidates_nonneg cfg s e startPos endPos bounds c :
  c ∈ candidates cfg s e startPos endPos bounds -> hit c = true -> 0 <= distance c.
Proof.
  unfold candidates. cbv zeta.
  set (d := Vec3Utils.subtract endPos startPos).
  set (ma := getEntityAABB bounds startPos).
  pose proof (length_nonneg d) as Hlen.
  intros [Hc|Hc]%elem_of_app Hhit.
  - apply list_elem_of_fmap in Hc as (k & -> & _).
    destruct (staticCandidate_cases s ma d k) as [H|H]; rewrite H in Hhit |- *;
      [done|]. cbn [distance]. lra.
  - apply list_elem_of_fmap in Hc as (o & -> & _).
    destruct (dynamicCandidate_cases s ma d o) as [H|(f & Hf & _ & _ & H)].
    + by rewrite H in Hhit.
    + rewrite H. apply Rmult_le_pos; lra.
Qed.

(** The position that [clampMovementToCollision] returns is not
    further from the start than the end position is. *)
Lemma clampMovementToCollision_within cfg startPos d (c : Collision) :
  0 <= COLLISION_EPSILON cfg ->
  0 <= distance c < Vec3Utils.length d ->
  Vec3Utils.distance
    (clampMovementToCollision cfg startPos (Vec3Utils.add startPos d) c) startPos
  <= Vec3Utils.length d.
Proof.
  intros Heps [H0 Hlt]. unfold clampMovementToCollision. cbv zeta.
  rewrite subtract_add, distance_add, length_multiply.
  set (len := Vec3Utils.length d) in *.
  assert (Hq : distance c / len < 1).
  { apply (Rmult_lt_reg_r len); [lra|]. unfold Rdiv.
    rewrite Rmult_assoc, Rinv_l by lra. lra. }
  rewrite Rabs_right by (apply Rle_ge, Rmax_l).
  assert (Rmax 0 (distance c / len - COLLISION_EPSILON cfg) <= 1)
    by (apply Rmax_lub; lra).
  assert (0 <= len) by lra. nra.
Qed.

End SpeedLimit.

(** C1.  For an entity with a mobility and a shape component (stored, as
    the store has them, after validation), every target and every
    dt >= 0, [attemptMove] returns, and the position it returns is at
    Euclidean distance at most maxSpeed * dt from the entity's current
    position, where maxSpeed is [mobility.maxSpeed], or 5 when absent.
    The collision epsilon of the configuration is not negative (its
    default is 0.001). *)
Theorem attemptMove_within_speed_limit
    (cfg : Config) (now : Z) (s : Sim) (e : string) (want : Vec3) (dt : R)
    (current : Vec3) (velocity : option Vec3) (maxSpeed acceleration : option R)
    (bounds : AABB) (geometry : option Geometry) :
  0 <= COLLISION_EPSILON cfg ->
  0 <= dt ->
  entityInvariant (ecsWorld s) e ->
  ECS.getContract (ecsWorld s) e "mobility" =
    Some (Mobility current velocity maxSpeed acceleration) ->
  ECS.getContract (ecsWorld s) e "shape" = Some (Shape bounds geometry) ->
  exists r,
    fst (Movement.attemptMove cfg now e want dt s) = Return r /\
    Vec3Utils.distance (position r) current <= num_or maxSpeed 5 * dt.
Proof.
  intros Heps Hdt [_ Hvalid] Hm Hs.
  assert (Hspeed : 0 < num_or maxSpeed 5).
  { destruct (getContract_elem _ _ _ _ Hm) as (o & Ho & Hval & _).
    rewrite Forall_forall in Hvalid. apply Hvalid in Ho. rewrite Hval in Ho.
    unfold validContract, ContractRegistry.validate, AnyContractSchema in Ho.
    destruct (optional positive_number maxSpeed) eqn:E; [|done].
    apply num_or_positive; [done|lra]. }
  assert (Hbudget : 0 <= num_or maxSpeed 5 * dt) by (apply Rmult_le_pos; lra).
  unfold Movement.attemptMove, bind, Movement.getContract. rewrite Hm, Hs.
  set (direction := Vec3Utils.subtract want current).
  set (budget := num_or maxSpeed 5 * dt) in *.
  destruct (num_lt (Vec3Utils.length direction) (COLLISION_EPSILON cfg)).
  { eexists. split; [done|]. cbn [position]. by rewrite distance_self. }
  set (d := Vec3Utils.multiply (Vec3Utils.normalize direction)
              (Rmin (Vec3Utils.length direction) budget)).
  assert (Hd : Vec3Utils.length d <= budget).
  { unfold d. rewrite length_multiply.
    pose proof (length_nonneg direction) as Hdir.
    pose proof (length_nonneg (Vec3Utils.normalize direction)) as Hn0.
    pose proof (length_normalize direction) as Hn1.
    assert (0 <= Rmin (Vec3Utils.length direction) budget <= budget)
      by (split; [by apply Rmin_glb|apply Rmin_r]).
    rewrite Rabs_right by (apply Rle_ge; lra). nra. }
  destruct (performSweptAABB_reported cfg now e current (Vec3Utils.add current d) bounds s)
    as (c & Hc & Hcases).
  destruct (Movement.performSweptAABB cfg now e current (Vec3Utils.add current d) bounds s)
    as [o s'] eqn:E.
  cbn [fst] in Hc. subst o.
  rewrite subtract_add in Hcases.
  destruct Hcases as [(Hmiss & _)|(i & Hi & Hhit & Hlt & _)].
  - rewrite Hmiss. cbn [negb]. eexists. split; [done|].
    cbn [position]. rewrite distance_add. lra.
  - rewrite Hhit. cbn [negb]. eexists. split; [done|].
    cbn [position].
    pose proof (candidates_nonneg cfg s e current (Vec3Utils.add current d) bounds c
                  (list_elem_of_lookup_2 _ _ _ Hi) Hhit) as H0.
    pose proof (clampMovementToCollision_within cfg current d c Heps (conj H0 Hlt)).
    lra.
Qed.

Lemma attemptMove_within_speed_limit_witness :
  exists r,
    fst (Movement.attemptMove defaultConfig 0 "test-entity" (mkVec3 5 0 0) 0.1 emptySpace) =
      Return r /\
    Vec3Utils.distance (position r) origin <= 5 * 0.1.
Proof.
  destruct (attemptMove_within_speed_limit defaultConfig 0 emptySpace "test-entity"
              (mkVec3 5 0 0) 0.1 origin None (Some 5) None unitBox (Some box))
    as (r & Hr & Hdist).
  - simpl. lra.
  - lra.
  - split.
    + apply (bool_decide_unpack _). by vm_compute.
    + repeat constructor; unfold validContract, ContractRegistry.validate, AnyContractSchema.
      cbn. unfold positive_number. by rewrite num_lt_true by lra.
  - reflexivity.
  - reflexivity.
  - exists r. split; [exact Hr|].
    unfold num_or in Hdist. by rewrite num_eq_false in Hdist by lra.
Defined.

(** ** A grid and an entity hit at the same distance *)

Ltac floor_is k :=
  match goal with
  | |- context [Zfloor ?r] => rewrite (Zfloor_eq k r) by lra
  end.

Ltac ceil_is k :=
  match goal with
  | |- context [Zceil ?r] => rewrite (Zceil_eq k r) by lra
  end.

Section Tie.

Import Movement.

Let start : Vec3 := mkVec3 10 130 17.
Let step : Vec3 := mkVec3 8 0 0.
Let moving : AABB := getEntityAABB unitBox start.

Lemma tie_length : Vec3Utils.length step = 8.
Proof.
  unfold Vec3Utils.length, step. cbn [x y z].
  replace (8 * 8 + 0 * 0 + 0 * 0) with (8 * 8) by lra.
  apply sqrt_square. lra.
Qed.

Lemma tie_startChunk :
  Space.keyFromPos defaultConfig (layers tie) "default" start None = originChunk.
Proof.
  unfold Space.keyFromPos, Space.worldToChunk, Space.getChunkSize, start.
  change (layers tie) with (Space.initialLayers defaultConfig).
  unfold Space.initialLayers. rewrite lookup_singleton_eq.
  cbn [fmap option_fmap option_map chunkSize num_or CHUNK_SIZE CHUNK_HEIGHT defaultConfig
       x y z].
  num_decide. by floor_eval.
Qed.

Lemma elem_of_addKey ks k k' : k ∈ ks -> k ∈ addKey ks k'.
Proof.
  intros Hk. unfold addKey. destruct (bool_decide _); [done|].
  apply elem_of_app. by left.
Qed.

Lemma elem_of_foldl_addKey keys : forall ks k, k ∈ ks -> k ∈ foldl addKey ks keys.
Proof.
  induction keys as [|k' keys IH]; intros ks k Hk; [done|].
  cbn [foldl]. apply IH. by apply elem_of_addKey.
Qed.

Lemma elem_of_foldl_addKey_first (k k' : ChunkKey) keys :
  k ∈ foldl addKey [] (k :: k' :: keys).
Proof.
  cbn [foldl]. apply elem_of_foldl_addKey.
  apply elem_of_addKey. unfold addKey.
  rewrite bool_decide_eq_false_2 by (intros ?%elem_of_nil; done).
  by apply list_elem_of_singleton.
Qed.

(** The chunk of the start position is among the affected chunks. *)
Lemma startChunk_affected cfg s startPos endPos :
  Space.keyFromPos cfg (layers s) "default" startPos None ∈
    affectedChunks cfg s startPos endPos.
Proof.
  unfold affectedChunks. rewrite getChunksForMovement_returns.
  cbn [fst]. apply elem_of_foldl_addKey_first.
Qed.

Lemma tie_affected endPos : originChunk ∈ affectedChunks defaultConfig tie start endPos.
Proof. rewrite <- tie_startChunk. apply startChunk_affected. Qed.

Lemma tie_solidEntities : solidEntities tie "mover" = ["obstacle"].
Proof. reflexivity. Qed.

Lemma tie_static :
  staticCandidate tie moving step originChunk =
    mkCollision true (Vec3Utils.add (min moving) step) (mkVec3 0 1 0)
      (Vec3Utils.length step * 0.5) None.
Proof.
  unfold staticCandidate, checkStaticSolids, bind, ret, ChunkManager.getChunk.
  change (ChunkUtils.toString originChunk) with "default:0,0,0"%string.
  cbn [chunks tie]. rewrite lookup_singleton_eq. cbn [fst].
  unfold gridCollision.
  cbn [solidGrid width blockGrid moving getEntityAABB unitBox start step
       Vec3Utils.add min max x y z].
  unfold js_mod, Ztrunc. num_decide.
  repeat floor_is 0%Z.
  floor_is 8%Z. ceil_is 10%Z. floor_is 8%Z. ceil_is 9%Z. floor_is 8%Z. ceil_is 9%Z.
  cbn [Z.max Z.min Z.compare Pos.compare Pos.compare_cont].
  zrange_eval. cbn [existsb].
  replace (ChunkManager.isSolid _ 8 8 8) with true by reflexivity.
  done.
Qed.

(** The segment of the mover's centre against the obstacle's box,
    expanded by the mover's half extents. *)
Lemma tie_sweep :
  intersectSegmentAABB (mkVec3 10 130 17) (mkVec3 18 130 17)
    (mkAABB (mkVec3 14 129 16) (mkVec3 16 131 18)) =
  mkSweep true (1 / 2) (mkVec3 (-1) 0 0).
Proof.
  unfold intersectSegmentAABB. cbv zeta. unfold Vec3Utils.subtract. cbn [x y z foldl].
  replace (18 - 10) with 8 by lra. replace (130 - 130) with 0 by lra.
  replace (17 - 17) with 0 by lra.
  unfold slab at 3. cbn [coord min max x y z].
  rewrite Rabs_pos_eq by lra. num_decide. minmax_eval. num_decide.
  unfold slab at 2. cbn [coord min max x y z].
  rewrite Rabs_pos_eq by lra. num_decide. cbn [orb].
  unfold slab at 1. cbn [coord min max x y z].
  rewrite Rabs_pos_eq by lra. num_decide. cbn [orb andb axisNormal].
  num_decide. cbn [andb].
  f_equal; lra.
Qed.

Lemma tie_dynamic :
  hit (dynamicCandidate tie moving step "obstacle") = true /\
  entityId (dynamicCandidate tie moving step "obstacle") = Some "obstacle"%string /\
  distance (dynamicCandidate tie moving step "obstacle") = Vec3Utils.length step * 0.5.
Proof.
  unfold dynamicCandidate, checkDynamicSolid, bind, ret, getContract.
  replace (ECS.getContract (ecsWorld tie) "obstacle" "solidity")
    with (Some (Solidity true None)) by reflexivity.
  replace (ECS.getContract (ecsWorld tie) "obstacle" "shape")
    with (Some (Shape unitBox (Some box))) by reflexivity.
  replace (ECS.getContract (ecsWorld tie) "obstacle" "mobility")
    with (Some (Mobility (mkVec3 15 130 17) None None None)) by reflexivity.
  cbn [fst]. cbv zeta.
  unfold moving, start, step, getEntityAABB, unitBox, Vec3Utils.add.
  cbn [min max x y z].
  replace ((-0.5 + 10 + (0.5 + 10)) / 2) with 10 by lra.
  replace ((-0.5 + 130 + (0.5 + 130)) / 2) with 130 by lra.
  replace ((-0.5 + 17 + (0.5 + 17)) / 2) with 17 by lra.
  replace (10 + 8) with 18 by lra. replace (130 + 0) with 130 by lra.
  replace (17 + 0) with 17 by lra.
  replace (-0.5 + 15 - (0.5 + 10 - (-0.5 + 10)) / 2) with 14 by lra.
  replace (-0.5 + 130 - (0.5 + 130 - (-0.5 + 130)) / 2) with 129 by lra.
  replace (-0.5 + 17 - (0.5 + 17 - (-0.5 + 17)) / 2) with 16 by lra.
  replace (0.5 + 15 + (0.5 + 10 - (-0.5 + 10)) / 2) with 16 by lra.
  replace (0.5 + 130 + (0.5 + 130 - (-0.5 + 130)) / 2) with 131 by lra.
  replace (0.5 + 17 + (0.5 + 17 - (-0.5 + 17)) / 2) with 18 by lra.
  rewrite tie_sweep. cbn [sweepHit t hit entityId distance].
  split_and!; [done|done|]. minmax_eval. lra.
Qed.

Lemma tie_candidates_at_half c :
  c ∈ candidates defaultConfig tie "mover" start (Vec3Utils.add start step) unitBox ->
  hit c = true -> Vec3Utils.length step * 0.5 <= distance c.
Proof.
  unfold candidates. cbv zeta. rewrite subtract_add. fold moving.
  rewrite tie_solidEntities.
  intros [Hc|Hc]%elem_of_app Hhit.
  - apply list_elem_of_fmap in Hc as (k & -> & _).
    destruct (staticCandidate_cases tie moving step k) as [H|H];
      rewrite H in Hhit |- *; [done|]. cbn [distance]. lra.
  - apply list_elem_of_singleton in Hc. subst c.
    destruct tie_dynamic as (_ & _ & ->). lra.
Qed.

(** The displacement that [attemptMove] proposes for the mover. *)
Lemma tie_displacement :
  Vec3Utils.multiply
    (Vec3Utils.normalize (Vec3Utils.subtract (mkVec3 18 130 17) start))
    (Rmin (Vec3Utils.length (Vec3Utils.subtract (mkVec3 18 130 17) start))
       (num_or None 5 * 2)) = step.
Proof.
  assert (Hlen : Vec3Utils.length (Vec3Utils.subtract (mkVec3 18 130 17) start) = 8).
  { unfold Vec3Utils.length, Vec3Utils.subtract, start. cbn [x y z].
    replace ((18 - 10) * (18 - 10) + (130 - 130) * (130 - 130) + (17 - 17) * (17 - 17))
      with (8 * 8) by lra.
    apply sqrt_square. lra. }
  unfold Vec3Utils.normalize. cbv zeta. rewrite Hlen. cbn [num_or].
  num_decide. minmax_eval.
  unfold Vec3Utils.multiply, Vec3Utils.subtract, start, step. cbn [x y z].
  f_equal; lra.
Qed.

Lemma tie_attemptMove :
  exists r,
    fst (attemptMove defaultConfig 0 "mover" (mkVec3 18 130 17) 2 tie) = Return r /\
    ok r = false /\ blockedReason r = Some "Blocked by solid"%string.
Proof.
  unfold attemptMove, bind, getContract.
  replace (ECS.getContract (ecsWorld tie) "mover" "mobility")
    with (Some (Mobility start None None None)) by reflexivity.
  replace (ECS.getContract (ecsWorld tie) "mover" "shape")
    with (Some (Shape unitBox (Some box))) by reflexivity.
  rewrite tie_displacement.
  assert (Hlen : Vec3Utils.length (Vec3Utils.subtract (mkVec3 18 130 17) start) = 8).
  { pose proof tie_displacement as H. apply (f_equal Vec3Utils.length) in H.
    rewrite tie_length in H. clear H.
    unfold Vec3Utils.length, Vec3Utils.subtract, start. cbn [x y z].
    replace ((18 - 10) * (18 - 10) + (130 - 130) * (130 - 130) + (17 - 17) * (17 - 17))
      with (8 * 8) by lra.
    apply sqrt_square. lra. }
  rewrite Hlen. cbn [COLLISION_EPSILON defaultConfig]. num_decide.
  destruct (tie_reports_grid defaultConfig 0 "mover" start (Vec3Utils.add start step)
              unitBox tie originChunk "obstacle") as (r & Hr & Hhit & Hid & _ & Hreason).
  - apply tie_affected.
  - rewrite subtract_add. fold moving. by rewrite tie_static.
  - rewrite subtract_add. fold moving. by destruct tie_dynamic as (-> & _).
  - rewrite subtract_add. fold moving. rewrite tie_static.
    by destruct tie_dynamic as (_ & _ & ->).
  - rewrite subtract_add, tie_length. lra.
  - rewrite subtract_add. fold moving. rewrite tie_static. cbn [distance].
    apply tie_candidates_at_half.
  - destruct (performSweptAABB defaultConfig 0 "mover" start (Vec3Utils.add start step)
                unitBox tie) as [o s'] eqn:E.
    cbn [fst] in Hr. subst o. rewrite Hhit. cbn [negb ret fst].
    eexists. split; [done|]. cbn [ok blockedReason]. by rewrite Hreason.
Qed.

End Tie.

(** C4 as stated fails on ties.  The mover's end position overlaps the
    solid cell (8, 8, 8) of the grid of its chunk, a hit at half the
    displacement of 8; the obstacle is entered at the same distance, 4.
    [attemptMove] reports the hit of the grid: blockedReason is "Blocked
    by solid" and does not name the obstacle. *)
Lemma tie_reports_static_grid :
  let moving := Movement.getEntityAABB unitBox (mkVec3 10 130 17) in
  let cs := staticCandidate tie moving (mkVec3 8 0 0) originChunk in
  let cd := dynamicCandidate tie moving (mkVec3 8 0 0) "obstacle" in
  hit cs = true /\ hit cd = true /\ entityId cd = Some "obstacle"%string /\
  distance cs = distance cd /\
  exists r,
    fst (Movement.attemptMove defaultConfig 0 "mover" (mkVec3 18 130 17) 2 tie) = Return r /\
    ok r = false /\ blockedReason r = Some "Blocked by solid"%string /\
    blockedReason r <> Some "Blocked by entity obstacle"%string.
Proof.
  intros moving cs cd.
  destruct tie_dynamic as (Hd & Hid & Hdist).
  split_and!; try done.
  - unfold cs, moving. by rewrite tie_static.
  - unfold cs, cd, moving. by rewrite tie_static, Hdist.
  - destruct tie_attemptMove as (r & Hr & Hok & Hreason).
    exists r. split_and!; try done. by rewrite Hreason.
Qed.

Lemma performSweptAABB_first_closest_witness :
  exists r,
    fst (Movement.performSweptAABB defaultConfig 0 "mover" (mkVec3 10 130 17)
           (Vec3Utils.add (mkVec3 10 130 17) (mkVec3 8 0 0)) unitBox tie) = Return r /\
    hit r = true /\ entityId r = None /\
    Movement.blockedReasonOf r = "Blocked by solid"%string.
Proof.
  destruct (performSweptAABB_first_closest defaultConfig 0 "mover" (mkVec3 10 130 17)
              (Vec3Utils.add (mkVec3 10 130 17) (mkVec3 8 0 0)) unitBox tie)
    as (r & Hr & _ & _ & Htie).
  exists r. split; [exact Hr|].
  destruct (Htie originChunk "obstacle"%string) as (Hhit & Hid & _ & Hreason).
  - apply tie_affected.
  - rewrite subtract_add. by rewrite tie_static.
  - rewrite subtract_add. by destruct tie_dynamic as (-> & _).
  - rewrite subtract_add. rewrite tie_static.
    by destruct tie_dynamic as (_ & _ & ->).
  - rewrite subtract_add, tie_length. lra.
  - rewrite subtract_add. rewrite tie_static. cbn [distance].
    apply tie_candidates_at_half.
  - by split_and!.
Defined.

(** ** Invariants of the entity store *)

Section StoreInvariants.

Import ECS.

Implicit Types (w : ECSWorld) (e ct : string) (o : Obj) (cs ks gone : list Obj).

Lemma default_true_idem v : default_true (default_true v) = default_true v.
Proof. by destruct v. Qed.

(** A record that [validate] returns is accepted as it is. *)
Lemma validate_idem c d :
  ContractRegistry.validate c = Some d -> ContractRegistry.validate d = Some d.
Proof.
  unfold ContractRegistry.validate, AnyContractSchema, DurabilityObjectSchema.
  destruct c; try (by intros [= <-]);
    match goal with
    | |- (if ?b then _ else _) = _ -> _ => destruct b eqn:E; [|done]
    | |- _ => idtac
    end; intros [= <-]; try (by rewrite E).
  by rewrite E, !default_true_idem.
Qed.

Lemma Forall_filter_keep {A} (P Q : A -> Prop) `{!forall a, Decision (Q a)} (l : list A) :
  Forall P l -> Forall P (filter Q l).
Proof.
  rewrite !Forall_forall. intros Hall a [_ Ha]%list_elem_of_filter. by apply Hall.
Qed.

Lemma getEntitiesWithContract_default w ct :
  getEntitiesWithContract w ct = default [] (contractIndex w !! ct).
Proof. unfold getEntitiesWithContract. by destruct (contractIndex w !! ct). Qed.

Lemma hasContract_true w e ct :
  hasContract w e ct = true <->
  exists o, o ∈ contractsOf w e /\ typeOf (val o) = ct.
Proof.
  unfold hasContract, getContract, getContractObj, contractsOf.
  rewrite bool_decide_eq_true. destruct (entities w !! e) as [cs|]; cbn.
  - rewrite fmap_is_Some. unfold Datatypes.id. split.
    + intros [o Ho]. apply find_some in Ho as [Hin Ht].
      exists o. split; [by apply list_elem_of_In|].
      unfold hasType in Ht. by apply bool_decide_eq_true in Ht.
    + intros (o & Hin & Ht). destruct (List.find (hasType ct) cs) as [o'|] eqn:E; [done|].
      apply list_elem_of_In in Hin. apply (find_none _ _ E) in Hin.
      unfold hasType in Hin. by apply bool_decide_eq_false in Hin.
  - split; [by intros [? ?]|]. intros (o & Hin & _). by apply elem_of_nil in Hin.
Qed.

Lemma elem_of_set_delete e e' (l : list string) :
  e' ∈ set_delete e l <-> e' ∈ l /\ e' ≠ e.
Proof. unfold set_delete. rewrite list_elem_of_filter. tauto. Qed.

Lemma elem_of_set_add e e' (l : list string) :
  e' ∈ set_add e l <-> e' = e \/ e' ∈ l.
Proof.
  unfold set_add. destruct (bool_decide (e ∈ l)) eqn:E.
  - apply bool_decide_eq_true in E. split; [tauto|]. by intros [->|?].
  - rewrite elem_of_app, list_elem_of_singleton. tauto.
Qed.

(** What the index lists after [removeContractInternal] took a contract
    of type [t] from entity [e]: [e] is no longer listed for [t]. *)
Lemma elem_of_indexRemove t e (index : gmap string (list string)) e' ct :
  e' ∈ default [] (indexRemove t e index !! ct) <->
  e' ∈ default [] (index !! ct) /\ ~ (ct = t /\ e' = e).
Proof.
  unfold indexRemove. destruct (index !! t) as [l|] eqn:Hl.
  - destruct (decide (ct = t)) as [->|Hne].
    + rewrite Hl. cbn [default from_option]. unfold Datatypes.id.
      destruct (set_delete e l) as [|a rest] eqn:Hd.
      * rewrite lookup_delete_eq. cbn. split; [by intros ?%elem_of_nil|].
        intros [Hin Hno]. assert (e' ∈ set_delete e l) as Hin'.
        { apply elem_of_set_delete. split; [done|]. intros ->. by apply Hno. }
        rewrite Hd in Hin'. by apply elem_of_nil in Hin'.
      * rewrite lookup_insert_eq. cbn. rewrite <- Hd, elem_of_set_delete. split.
        -- intros [Hin Hne]. split; [done|]. by intros [_ ->].
        -- intros [Hin Hno]. split; [done|]. intros ->. by apply Hno.
    + destruct (set_delete e l).
      * rewrite lookup_delete_ne by done. split; [|tauto]. intros H. split; [done|tauto].
      * rewrite lookup_insert_ne by done. split; [|tauto]. intros H. split; [done|tauto].
  - split; [|tauto]. intros H. split; [done|]. intros [-> _].
    rewrite Hl in H. by apply elem_of_nil in H.
Qed.

Lemma elem_of_foldl_indexRemove e gone : forall (index : gmap string (list string)) e' ct,
  e' ∈ default [] (foldl (fun index o => indexRemove (typeOf (val o)) e index) index gone !! ct)
  <->
  e' ∈ default [] (index !! ct) /\ ~ (e' = e /\ exists o, o ∈ gone /\ typeOf (val o) = ct).
Proof.
  induction gone as [|g gone IH]; intros index e' ct.
  - cbn [foldl]. split; [|tauto]. intros H. split; [done|].
    intros (_ & o & Ho & _). by apply elem_of_nil in Ho.
  - cbn [foldl]. rewrite IH, elem_of_indexRemove. split.
    + intros [[Hin Hg] Hrest]. split; [done|].
      intros (-> & o & Ho & Ht). apply elem_of_cons in Ho as [->|Ho].
      * by apply Hg.
      * apply Hrest. split; [done|]. by exists o.
    + intros [Hin Hno]. split_and!; [done| |].
      * intros [-> ->]. apply Hno. split; [done|]. exists g. split; [by left|done].
      * intros (-> & o & Ho & Ht). apply Hno. split; [done|]. exists o. split; [by right|done].
Qed.

(** Removing contracts keeps the invariant of the store. *)
Lemma evicted_storeInvariant w e cs gone :
  entities w !! e = Some cs ->
  storeInvariant w -> storeInvariant (evicted w e cs gone).
Proof.
  intros He Hinv e' cs'. cbn [evicted entities nextRef].
  destruct (decide (e' = e)) as [->|Hne].
  - rewrite lookup_insert_eq. intros [= <-].
    destruct (Hinv e cs He) as [Hnd Hall]. split.
    + by apply NoDup_ref_filter.
    + by apply Forall_filter_keep.
  - rewrite lookup_insert_ne by done. apply Hinv.
Qed.

(** Removing contracts of an entity keeps the index sound. *)
Lemma evicted_indexSound w e cs gone :
  entities w !! e = Some cs ->
  NoDup (ref <$> cs) ->
  gone ⊆ cs ->
  indexSound w -> indexSound (evicted w e cs gone).
Proof.
  intros He Hnd Hsub Hsound e' ct.
  rewrite getEntitiesWithContract_default. cbn [evicted contractIndex].
  rewrite elem_of_foldl_indexRemove. intros [Hin Hno].
  rewrite <- getEntitiesWithContract_default in Hin.
  apply Hsound in Hin. apply hasContract_true in Hin as (o & Ho & Ht).
  apply hasContract_true. unfold contractsOf in *. cbn [evicted entities].
  destruct (decide (e' = e)) as [->|Hne].
  - rewrite lookup_insert_eq. rewrite He in Ho. cbn in *. unfold Datatypes.id in *.
    exists o. split; [|done]. apply list_elem_of_filter. split; [|done].
    intros (g & Href & Hg)%list_elem_of_fmap.
    assert (o = g) by (eapply ref_inj_on; eauto). subst g.
    apply Hno. split; [done|]. by exists o.
  - rewrite lookup_insert_ne by done. by exists o.
Qed.

(** Adding a contract keeps the index sound. *)
Lemma added_indexSound w e cs o :
  entities w !! e = Some cs ->
  indexSound w -> indexSound (added w e cs o).
Proof.
  intros He Hsound e' ct.
  rewrite getEntitiesWithContract_default. cbn [added contractIndex].
  intros Hin. apply hasContract_true. unfold contractsOf. cbn [added entities].
  assert (Hold : e' ∈ getEntitiesWithContract w ct ->
                 exists o', o' ∈ default [] (<[e := cs ++ [o]]> (entities w) !! e') /\
                            typeOf (val o') = ct).
  { intros H. apply Hsound, hasContract_true in H as (o' & Ho' & Ht).
    exists o'. split; [|done]. unfold contractsOf in Ho'.
    destruct (decide (e' = e)) as [->|Hne].
    - rewrite lookup_insert_eq. rewrite He in Ho'. cbn in *.
      apply elem_of_app. by left.
    - by rewrite lookup_insert_ne. }
  destruct (decide (ct = typeOf (val o))) as [->|Hne].
  - rewrite lookup_insert_eq in Hin. cbn in Hin. unfold Datatypes.id in Hin.
    apply elem_of_set_add in Hin as [->|Hin].
    + exists o. rewrite lookup_insert_eq. cbn. split; [|done].
      apply elem_of_app. right. by apply list_elem_of_singleton.
    + apply Hold. by rewrite getEntitiesWithContract_default.
  - rewrite lookup_insert_ne in Hin by done.
    apply Hold. by rewrite getEntitiesWithContract_default.
Qed.

(** The store after the eviction and the insertion of [addContract]. *)
Lemma added_storeInvariant w e cs gone data :
  entities w !! e = Some cs ->
  storeInvariant w ->
  validContract data ->
  storeInvariant
    (added (evicted (mkECSWorld (entities w) (contractIndex w) (S (nextRef w)) (hookCalls w))
              e cs gone) e
       (filter (fun c => ref c ∉ ref <$> gone) cs) (mkObj (nextRef w) data)).
Proof.
  intros He Hinv Hvalid e' cs'. cbn [added evicted entities nextRef].
  destruct (decide (e' = e)) as [->|Hne].
  - rewrite lookup_insert_eq. intros [= <-].
    destruct (Hinv e cs He) as [Hnd Hall]. split.
    + rewrite fmap_app. apply NoDup_app. split_and!.
      * by apply NoDup_ref_filter.
      * intros r (c & -> & Hc%list_elem_of_filter)%list_elem_of_fmap.
        change (ref <$> [mkObj (nextRef w) data]) with [nextRef w].
        intros Heq%list_elem_of_singleton.
        destruct Hc as [_ Hc]. rewrite Forall_forall in Hall.
        apply Hall in Hc as [_ Hlt]. lia.
      * apply NoDup_singleton.
    + apply Forall_app. split.
      * apply Forall_filter_keep. eapply Forall_impl; [exact Hall|].
        intros c [Hv Hlt]. split; [done|lia].
      * apply Forall_singleton. cbn. split; [done|lia].
  - rewrite !lookup_insert_ne by done. intros Hl.
    destruct (Hinv e' cs' Hl) as [Hnd Hall]. split; [done|].
    eapply Forall_impl; [exact Hall|]. intros c [Hv Hlt]. split; [done|lia].
Qed.

Lemma storeInvariant_entity w e : storeInvariant w -> entityInvariant w e.
Proof.
  intros Hinv. unfold entityInvariant, contractsOf.
  destruct (entities w !! e) as [cs|] eqn:He; cbn.
  - destruct (Hinv e cs He) as [Hnd Hall]. split; [done|].
    eapply Forall_impl; [exact Hall|]. by intros c [Hv _].
  - split; [apply NoDup_nil_2|done].
Qed.

(** How [addContract] ends on a store that satisfies the invariant. *)
Lemma addContract_cases w e c :
  storeInvariant w ->
  (entities w !! e = None /\
   addContract w e c = (Throw (EntityDoesNotExist e), w)) \/
  (is_Some (entities w !! e) /\ ContractRegistry.validate c = None /\
   addContract w e c = (Throw InvalidContract, w)) \/
  (exists cs data gone,
     entities w !! e = Some cs /\ ContractRegistry.validate c = Some data /\
     gone ⊆ cs /\
     addContract w e c =
       (Return (),
        added (evicted (mkECSWorld (entities w) (contractIndex w) (S (nextRef w))
                          (hookCalls w)) e cs gone) e
          (filter (fun o => ref o ∉ ref <$> gone) cs) (mkObj (nextRef w) data))).
Proof.
  intros Hinv. destruct (entities w !! e) as [cs|] eqn:He.
  - destruct (ContractRegistry.validate c) as [data|] eqn:Hv.
    + right. right.
      pose proof (getMaxContractsAllowed_positive w e (typeOf data)
                    (storeInvariant_entity w e Hinv)) as Hmax.
      destruct (Hinv e cs He) as [Hnd _].
      pose proof (addContract_returns w e c data cs He Hnd Hv Hmax) as Hadd.
      cbv zeta in Hadd. eexists cs, data, _. split_and!; [done|done| |exact Hadd].
      intros o Ho%subseteq_take. by apply list_elem_of_filter in Ho as [_ Ho].
    + right. left. split_and!; [by eexists|done|].
      unfold addContract. by rewrite He, Hv.
  - left. split; [done|]. unfold addContract. by rewrite He.
Qed.

Lemma addContract_storeInvariant w e c :
  storeInvariant w -> storeInvariant (snd (addContract w e c)).
Proof.
  intros Hinv.
  destruct (addContract_cases w e c Hinv)
    as [[_ ->]|[(_ & _ & ->)|(cs & data & gone & He & Hv & _ & ->)]]; [done|done|].
  cbn [snd]. apply added_storeInvariant; [done|done|].
  by eapply validate_idem.
Qed.

Lemma addContract_indexSound w e c :
  storeInvariant w -> indexSound w -> indexSound (snd (addContract w e c)).
Proof.
  intros Hinv Hsound.
  destruct (addContract_cases w e c Hinv)
    as [[_ ->]|[(_ & _ & ->)|(cs & data & gone & He & Hv & Hsub & ->)]]; [done|done|].
  cbn [snd]. destruct (Hinv e cs He) as [Hnd _].
  apply added_indexSound.
  - cbn [evicted entities]. by rewrite lookup_insert_eq.
  - by apply evicted_indexSound.
Qed.

Lemma addContract_hasEntity w e c e' :
  storeInvariant w -> hasEntity (snd (addContract w e c)) e' = hasEntity w e'.
Proof.
  intros Hinv.
  destruct (addContract_cases w e c Hinv)
    as [[_ ->]|[(_ & _ & ->)|(cs & data & gone & He & Hv & _ & ->)]]; [done|done|].
  unfold hasEntity. cbn [snd added evicted entities]. apply bool_decide_ext.
  destruct (decide (e' = e)) as [->|Hne].
  - rewrite lookup_insert_eq, He. split; by eexists.
  - by rewrite !lookup_insert_ne.
Qed.

(** [removeContract] takes out the contract that [getContract] returns. *)
Lemma removeContract_cases w e ct :
  (getContract w e ct = None /\ removeContract w e ct = (false, w)) \/
  (exists cs o, entities w !! e = Some cs /\ o ∈ cs /\
     getContractObj w e ct = Some o /\ typeOf (val o) = ct /\
     removeContract w e ct = (true, evicted w e cs [o])).
Proof.
  unfold removeContract, getContract.
  destruct (getContractObj w e ct) as [o|] eqn:Hget; [right|by left].
  unfold getContractObj in Hget.
  destruct (entities w !! e) as [cs|] eqn:He; [|done].
  apply find_some in Hget as Hfound. destruct Hfound as [Hin%list_elem_of_In Ht].
  unfold hasType in Ht. apply bool_decide_eq_true in Ht.
  exists cs, o. split_and!; [done|done|done|done|].
  apply removeContractInternal_member; [done|].
  apply list_elem_of_fmap. by exists o.
Qed.

Lemma removeContract_storeInvariant w e ct :
  storeInvariant w -> storeInvariant (snd (removeContract w e ct)).
Proof.
  intros Hinv.
  destruct (removeContract_cases w e ct) as [[_ ->]|(cs & o & He & _ & _ & _ & ->)]; [done|].
  by apply evicted_storeInvariant.
Qed.

Lemma removeContract_indexSound w e ct :
  storeInvariant w -> indexSound w -> indexSound (snd (removeContract w e ct)).
Proof.
  intros Hinv Hsound.
  destruct (removeContract_cases w e ct) as [[_ ->]|(cs & o & He & Ho & _ & _ & ->)]; [done|].
  destruct (Hinv e cs He) as [Hnd _].
  apply evicted_indexSound; [done|done| |done].
  intros o' ->%list_elem_of_singleton. done.
Qed.

(** The loop of [removeEntity] over the contracts of the entity. *)
Lemma removeAll_spec e ks : forall w cs,
  entities w !! e = Some cs ->
  NoDup (ref <$> ks) ->
  ks ⊆ cs ->
  foldl (fun w' c => snd (removeContractInternal w' e c)) w ks = evicted w e cs ks.
Proof.
  induction ks as [|o ks IH]; intros w cs He Hnd Hsub.
  - cbn [foldl]. by rewrite evicted_nil.
  - cbn [foldl].
    assert (Ho : ref o ∈ ref <$> cs).
    { apply list_elem_of_fmap. exists o. split; [done|]. apply Hsub. by left. }
    rewrite (removeContractInternal_member _ _ _ _ He Ho). cbn [snd].
    rewrite fmap_cons in Hnd. apply NoDup_cons in Hnd as [Hno Hnd].
    rewrite (IH _ (filter (fun c => ref c ≠ ref o) cs)); [|  |done|].
    + by rewrite evicted_cons.
    + cbn [evicted entities]. rewrite lookup_insert_eq. f_equal.
      apply list_filter_iff. intros c.
      change (ref <$> [o]) with [ref o]. rewrite list_elem_of_singleton. tauto.
    + intros o' Ho'. apply list_elem_of_filter. split.
      * intros Heq. apply Hno. apply list_elem_of_fmap. by exists o'.
      * apply Hsub. by right.
Qed.

(** [removeEntity] on a store that satisfies the invariant. *)
Lemma removeEntity_cases w id :
  storeInvariant w ->
  (entities w !! id = None /\ removeEntity w id = (false, w)) \/
  (exists cs, entities w !! id = Some cs /\
     removeEntity w id =
       (true,
        mkECSWorld (delete id (entities w))
          (foldl (fun index o => indexRemove (typeOf (val o)) id index) (contractIndex w) cs)
          (nextRef w)
          (hookCalls w ++ ((fun o => ContractRemove id (val o)) <$> cs) ++ [EntityRemove id]))).
Proof.
  intros Hinv. unfold removeEntity.
  destruct (entities w !! id) as [cs|] eqn:He; [right|by left].
  exists cs. split; [done|]. destruct (Hinv id cs He) as [Hnd _].
  rewrite (removeAll_spec id cs w cs He Hnd) by done.
  cbn [evicted entities contractIndex nextRef hookCalls].
  by rewrite delete_insert_eq, <- app_assoc.
Qed.

Lemma removeEntity_storeInvariant w id :
  storeInvariant w -> storeInvariant (snd (removeEntity w id)).
Proof.
  intros Hinv.
  destruct (removeEntity_cases w id Hinv) as [[_ ->]|(cs & He & ->)]; [done|].
  intros e cs'. cbn [snd entities nextRef].
  intros [_ Hl]%lookup_delete_Some. by apply (Hinv e cs').
Qed.

Lemma removeEntity_indexSound w id :
  storeInvariant w -> indexSound w -> indexSound (snd (removeEntity w id)).
Proof.
  intros Hinv Hsound.
  destruct (removeEntity_cases w id Hinv) as [[_ ->]|(cs & He & ->)]; [done|].
  intros e ct. rewrite getEntitiesWithContract_default. cbn [snd contractIndex].
  rewrite elem_of_foldl_indexRemove. intros [Hin Hno].
  rewrite <- getEntitiesWithContract_default in Hin.
  apply Hsound, hasContract_true in Hin as (o & Ho & Ht).
  apply hasContract_true. unfold contractsOf in *. cbn [entities].
  destruct (decide (e = id)) as [->|Hne].
  - exfalso. apply Hno. split; [done|]. exists o. rewrite He in Ho. by split.
  - rewrite lookup_delete_ne by done. by exists o.
Qed.

Lemma addContracts_storeInvariant id contracts : forall w,
  storeInvariant w -> storeInvariant (snd (addContracts w id contracts)).
Proof.
  induction contracts as [|c contracts IH]; intros w Hinv; [done|].
  cbn [addContracts].
  pose proof (addContract_storeInvariant w id c Hinv) as H1.
  destruct (addContract w id c) as [[[]| |] w1]; cbn [snd] in *; [by apply IH|done|done].
Qed.

Lemma addContracts_indexSound id contracts : forall w,
  storeInvariant w -> indexSound w -> indexSound (snd (addContracts w id contracts)).
Proof.
  induction contracts as [|c contracts IH]; intros w Hinv Hsound; [done|].
  cbn [addContracts].
  pose proof (addContract_storeInvariant w id c Hinv) as H1.
  pose proof (addContract_indexSound w id c Hinv Hsound) as H2.
  destruct (addContract w id c) as [[[]| |] w1]; cbn [snd] in *; [by apply IH|done|done].
Qed.

Lemma addContracts_hasEntity id contracts e' : forall w,
  storeInvariant w -> hasEntity (snd (addContracts w id contracts)) e' = hasEntity w e'.
Proof.
  induction contracts as [|c contracts IH]; intros w Hinv; [done|].
  cbn [addContracts].
  pose proof (addContract_storeInvariant w id c Hinv) as H1.
  pose proof (addContract_hasEntity w id c e' Hinv) as H2.
  destruct (addContract w id c) as [[[]| |] w1]; cbn [snd] in *; [|done|done].
  by rewrite IH.
Qed.

(** The store of [createEntity] once the entity is entered, before its
    contracts are added. *)
Lemma entered_storeInvariant w id :
  storeInvariant w ->
  storeInvariant (mkECSWorld (<[id := []]> (entities w)) (contractIndex w)
                    (nextRef w) (hookCalls w)).
Proof.
  intros Hinv e cs. cbn [entities nextRef].
  destruct (decide (e = id)) as [->|Hne].
  - rewrite lookup_insert_eq. intros [= <-]. split; [apply NoDup_nil_2|done].
  - rewrite lookup_insert_ne by done. apply Hinv.
Qed.

Lemma entered_indexSound w id :
  hasEntity w id = false ->
  indexSound w ->
  indexSound (mkECSWorld (<[id := []]> (entities w)) (contractIndex w)
                (nextRef w) (hookCalls w)).
Proof.
  intros Hfresh Hsound e ct Hin.
  assert (Hin' : e ∈ getEntitiesWithContract w ct) by done.
  apply Hsound, hasContract_true in Hin' as (o & Ho & Ht).
  apply hasContract_true. unfold contractsOf in *. cbn [entities].
  destruct (decide (e = id)) as [->|Hne].
  - unfold hasEntity in Hfresh. apply bool_decide_eq_false in Hfresh.
    destruct (entities w !! id) as [cs|] eqn:He; [|by apply elem_of_nil in Ho].
    exfalso. apply Hfresh. by eexists.
  - rewrite lookup_insert_ne by done. by exists o.
Qed.

Lemma createEntity_storeInvariant w id contracts :
  storeInvariant w -> storeInvariant (snd (createEntity w id contracts)).
Proof.
  intros Hinv. unfold createEntity. destruct (hasEntity w id); [done|].
  pose proof (addContracts_storeInvariant id contracts _ (entered_storeInvariant w id Hinv))
    as H1.
  destruct (addContracts _ id contracts) as [[[]| |] w1]; cbn [snd] in *; done.
Qed.

Lemma createEntity_indexSound w id contracts :
  storeInvariant w -> indexSound w -> indexSound (snd (createEntity w id contracts)).
Proof.
  intros Hinv Hsound. unfold createEntity.
  destruct (hasEntity w id) eqn:Hfresh; [done|].
  pose proof (addContracts_indexSound id contracts _ (entered_storeInvariant w id Hinv)
                (entered_indexSound w id Hfresh Hsound)) as H1.
  destruct (addContracts _ id contracts) as [[[]| |] w1]; cbn [snd] in *; done.
Qed.

Lemma reachable_storeInvariant w : reachable w -> storeInvariant w.
Proof.
  induction 1 as [|w id contracts _ IH|w id _ IH|w e c _ IH|w e ct _ IH].
  - intros e cs. cbn. by rewrite lookup_empty.
  - by apply createEntity_storeInvariant.
  - by apply removeEntity_storeInvariant.
  - by apply addContract_storeInvariant.
  - by apply removeContract_storeInvariant.
Qed.

Lemma reachable_indexSound w : reachable w -> indexSound w.
Proof.
  induction 1 as [|w id contracts Hr IH|w id Hr IH|w e c Hr IH|w e ct Hr IH].
  - intros e ct. unfold getEntitiesWithContract. cbn. rewrite lookup_empty.
    by intros ?%elem_of_nil.
  - apply createEntity_indexSound; [by apply reachable_storeInvariant|done].
  - apply removeEntity_indexSound; [by apply reachable_storeInvariant|done].
  - apply addContract_indexSound; [by apply reachable_storeInvariant|done].
  - apply removeContract_indexSound; [by apply reachable_storeInvariant|done].
Qed.

End StoreInvariants.

(** ** The store in its reachable states *)

Lemma crate_is_reachable : reachable crate.
Proof.
  pose proof (reach_createEntity _ "crate"
                [Portable true None; Portable true None; Portable true None]
                reach_createECSWorld) as H.
  by rewrite crate_reachable in H.
Qed.

Lemma twoPortables_is_reachable : reachable twoPortables.
Proof.
  pose proof (reach_createEntity _ "crate" [Portable true None; Portable false None]
                reach_createECSWorld) as H.
  replace (ECS.createEntity ECS.createECSWorld "crate"
             [Portable true None; Portable false None])
    with (Return "crate", twoPortables) in H; [done|].
  symmetry. unfold ECS.createEntity, ECS.hasEntity, ECS.createECSWorld.
  cbn [entities contractIndex nextRef hookCalls].
  rewrite bool_decide_eq_false_2 by (rewrite lookup_empty; by intros [? ?]).
  cbn [ECS.addContracts].
  run_addContract (@nil Obj) 3%Z.
  run_addContract [mkObj 0 (Portable true None)] 3%Z.
  reflexivity.
Qed.

Lemma elem_of_foldl_set_add (l : list string) : forall (init : list string) e,
  e ∈ foldl (fun result id => ECS.set_add id result) init l <-> e ∈ init \/ e ∈ l.
Proof.
  induction l as [|a l IH]; intros init e; cbn [foldl].
  - split; [tauto|]. intros [H|H]; [done|]. by apply elem_of_nil in H.
  - rewrite IH, elem_of_set_add, elem_of_cons. tauto.
Qed.

Lemma NoDup_set_add e (l : list string) : NoDup l -> NoDup (ECS.set_add e l).
Proof.
  intros Hnd. unfold ECS.set_add. destruct (bool_decide (e ∈ l)) eqn:E; [done|].
  apply bool_decide_eq_false in E. apply NoDup_app. split_and!; [done| |apply NoDup_singleton].
  intros a Ha ->%list_elem_of_singleton. done.
Qed.

Lemma NoDup_foldl_set_add (l : list string) : forall (init : list string),
  NoDup init -> NoDup (foldl (fun result id => ECS.set_add id result) init l).
Proof.
  induction l as [|a l IH]; intros init Hnd; cbn [foldl]; [done|].
  apply IH. by apply NoDup_set_add.
Qed.

Lemma elem_of_set_of (l : list string) e : e ∈ ECS.set_of l <-> e ∈ l.
Proof.
  unfold ECS.set_of. rewrite elem_of_foldl_set_add. split; [|tauto].
  intros [H|H]; [by apply elem_of_nil in H|done].
Qed.

Lemma NoDup_set_of (l : list string) : NoDup (ECS.set_of l).
Proof. apply NoDup_foldl_set_add, NoDup_nil_2. Qed.

Lemma addContracts_app id good rest : forall w,
  ECS.addContracts w id (good ++ rest) =
  match ECS.addContracts w id good with
  | (Return _, w1) => ECS.addContracts w1 id rest
  | failed => failed
  end.
Proof.
  induction good as [|c good IH]; intros w; [done|].
  cbn [app ECS.addContracts].
  destruct (ECS.addContract w id c) as [[[]| |] w1]; [apply IH|done|done].
Qed.

(** On an entity that exists, records that the schema accepts are added
    one after the other, and the loop returns. *)
Lemma addContracts_returns id good : forall w,
  storeInvariant w ->
  ECS.hasEntity w id = true ->
  Forall (fun c => is_Some (ContractRegistry.validate c)) good ->
  fst (ECS.addContracts w id good) = Return ().
Proof.
  induction good as [|c good IH]; intros w Hinv Hex Hgood; [done|].
  apply Forall_cons in Hgood as [[data Hv] Hgood].
  cbn [ECS.addContracts].
  pose proof (addContract_storeInvariant w id c Hinv) as H1.
  pose proof (addContract_hasEntity w id c id Hinv) as H2.
  unfold ECS.hasEntity in Hex. apply bool_decide_eq_true in Hex.
  destruct (addContract_cases w id c Hinv)
    as [[Hno _]|[(_ & Hbad & _)|(cs & data' & gone & He & _ & _ & Hadd)]].
  - rewrite Hno in Hex. by destruct Hex.
  - congruence.
  - rewrite Hadd in H1, H2 |- *. cbn [snd] in H1, H2. apply IH; [done| |done].
    rewrite H2. unfold ECS.hasEntity. by apply bool_decide_eq_true_2.
Qed.

(** X1.  In every state that the operations of the store can reach, the
    contract objects of an entity are distinct, were handed out before the
    next reference, and hold records that [validate] returned: the
    invariant that the properties of [addContract], [damage] and
    [attemptMove] start from holds of every entity. *)
Theorem reachable_store_invariant (w : ECSWorld) (e : string) :
  reachable w -> storeInvariant w /\ entityInvariant w e.
Proof.
  intros Hr. pose proof (reachable_storeInvariant w Hr) as Hinv.
  split; [done|]. by apply storeInvariant_entity.
Qed.

Lemma reachable_store_invariant_witness :
  storeInvariant crate /\ entityInvariant crate "crate".
Proof. exact (reachable_store_invariant crate "crate" crate_is_reachable). Defined.

(** X2.  In every reachable state, an entity that the index lists for a
    contract type holds a contract of that type: [getContract] finds
    one. *)
Theorem index_lists_only_holders (w : ECSWorld) (e ct : string) :
  reachable w ->
  e ∈ ECS.getEntitiesWithContract w ct ->
  ECS.hasEntity w e = true /\
  exists c, ECS.getContract w e ct = Some c /\ typeOf c = ct.
Proof.
  intros Hr Hin. apply (reachable_indexSound w Hr) in Hin.
  unfold ECS.hasContract in Hin. apply bool_decide_eq_true in Hin as [c Hc].
  split.
  - unfold ECS.hasEntity. apply bool_decide_eq_true_2.
    unfold ECS.getContract, ECS.getContractObj in Hc.
    by destruct (entities w !! e).
  - exists c. split; [done|].
    by destruct (getContract_elem _ _ _ _ Hc) as (_ & _ & _ & Ht).
Qed.

Lemma index_lists_only_holders_witness :
  ECS.hasEntity crate "crate" = true /\
  exists c, ECS.getContract crate "crate" "portable" = Some c /\ typeOf c = "portable"%string.
Proof.
  apply (index_lists_only_holders crate "crate" "portable" crate_is_reachable).
  apply (bool_decide_unpack _). by vm_compute.
Defined.

(** X3.  How [addContract] ends in a reachable state.  It returns when
    the entity exists and the schema accepts the record.  Otherwise it
    throws, for a missing entity or for an invalid record, and leaves the
    store as it was.  It throws no limit violation, and the eviction loop
    ends. *)
Theorem addContract_outcome (w : ECSWorld) (e : string) (c : Contract) :
  reachable w ->
  match ECS.addContract w e c with
  | (Return _, _) =>
      ECS.hasEntity w e = true /\ is_Some (ContractRegistry.validate c)
  | (Throw err, w') =>
      w' = w /\
      (err = EntityDoesNotExist e /\ ECS.hasEntity w e = false \/
       err = InvalidContract /\ ECS.hasEntity w e = true /\
       ContractRegistry.validate c = None)
  | (Diverge, _) => False
  end.
Proof.
  intros Hr. pose proof (reachable_storeInvariant w Hr) as Hinv.
  unfold ECS.hasEntity.
  destruct (addContract_cases w e c Hinv)
    as [[Hno ->]|[(Hex & Hbad & ->)|(cs & data & gone & He & Hv & _ & ->)]].
  - split; [done|]. left. split; [done|].
    apply bool_decide_eq_false_2. rewrite Hno. by intros [? ?].
  - split; [done|]. right. split_and!; [done| |done].
    by apply bool_decide_eq_true_2.
  - split; [|by eexists]. apply bool_decide_eq_true_2. by eexists.
Qed.

Lemma addContract_outcome_witness :
  match ECS.addContract crate "crate" (Malformed "portable") with
  | (Return _, _) =>
      ECS.hasEntity crate "crate" = true /\
      is_Some (ContractRegistry.validate (Malformed "portable"))
  | (Throw err, w') =>
      w' = crate /\
      (err = EntityDoesNotExist "crate" /\ ECS.hasEntity crate "crate" = false \/
       err = InvalidContract /\ ECS.hasEntity crate "crate" = true /\
       ContractRegistry.validate (Malformed "portable") = None)
  | (Diverge, _) => False
  end.
Proof. exact (addContract_outcome crate "crate" (Malformed "portable") crate_is_reachable). Defined.

(** X4.  [createEntity] is not undone when a contract is rejected: with
    a new id and a list of records of which the first that the schema
    rejects comes after the records [good], the call throws, and the
    store is left with the entity entered and the records [good] added. *)
Theorem createEntity_not_atomic
    (w : ECSWorld) (id : string) (good : list Contract) (bad : Contract)
    (rest : list Contract) :
  reachable w ->
  ECS.hasEntity w id = false ->
  Forall (fun c => is_Some (ContractRegistry.validate c)) good ->
  ContractRegistry.validate bad = None ->
  let entered :=
    mkECSWorld (<[id := []]> (entities w)) (contractIndex w) (nextRef w) (hookCalls w) in
  let w' := snd (ECS.addContracts entered id good) in
  ECS.createEntity w id (good ++ bad :: rest) = (Throw InvalidContract, w') /\
  ECS.hasEntity w' id = true.
Proof.
  intros Hr Hfresh Hgood Hbad entered w'.
  pose proof (entered_storeInvariant w id (reachable_storeInvariant w Hr)) as Hinv.
  assert (Hex : ECS.hasEntity entered id = true).
  { unfold ECS.hasEntity. apply bool_decide_eq_true_2. cbn [entered entities].
    rewrite lookup_insert_eq. by eexists. }
  pose proof (addContracts_returns id good entered Hinv Hex Hgood) as Hret.
  pose proof (addContracts_storeInvariant id good entered Hinv) as Hinv'.
  pose proof (addContracts_hasEntity id good id entered Hinv) as Hex'.
  fold w' in Hinv', Hex'. rewrite Hex in Hex'. split; [|done].
  unfold ECS.createEntity. rewrite Hfresh. fold entered.
  rewrite addContracts_app. subst w'.
  destruct (ECS.addContracts entered id good) as [r w1]. cbn [fst snd] in *. subst r.
  cbn [ECS.addContracts].
  unfold ECS.hasEntity in Hex'. apply bool_decide_eq_true in Hex' as [cs Hcs].
  destruct (addContract_cases w1 id bad Hinv')
    as [[Hno _]|[(_ & _ & ->)|(? & data & _ & _ & Hv & _)]]; [congruence|done|congruence].
Qed.

Lemma createEntity_not_atomic_witness :
  ECS.createEntity crate "lamp" ([Identity "lamp" None None] ++ Malformed "light" :: []) =
    (Throw InvalidContract,
     snd (ECS.addContracts
            (mkECSWorld (<["lamp" := []]> (entities crate)) (contractIndex crate)
               (nextRef crate) (hookCalls crate)) "lamp" [Identity "lamp" None None])) /\
  ECS.hasEntity
    (snd (ECS.addContracts
            (mkECSWorld (<["lamp" := []]> (entities crate)) (contractIndex crate)
               (nextRef crate) (hookCalls crate)) "lamp" [Identity "lamp" None None]))
    "lamp" = true.
Proof.
  apply (createEntity_not_atomic crate "lamp" [Identity "lamp" None None]
           (Malformed "light") [] crate_is_reachable).
  - by vm_compute.
  - repeat constructor. by eexists.
  - reflexivity.
Defined.

(** X5.  [removeEntity] on an entity of a reachable state returns true;
    afterwards the entity does not exist and no index entry lists it, the
    other entities hold what they held, and the hooks were called for
    each contract, oldest first, and then for the entity. *)
Theorem removeEntity_clears (w : ECSWorld) (id : string) :
  reachable w ->
  ECS.hasEntity w id = true ->
  exists w',
    ECS.removeEntity w id = (true, w') /\
    ECS.hasEntity w' id = false /\
    (forall ct, id ∉ ECS.getEntitiesWithContract w' ct) /\
    (forall e, e ≠ id -> ECS.getContracts w' e = ECS.getContracts w e) /\
    hookCalls w' =
      hookCalls w ++ (ContractRemove id <$> ECS.getContracts w id) ++ [EntityRemove id].
Proof.
  intros Hr Hex. pose proof (reachable_storeInvariant w Hr) as Hinv.
  unfold ECS.hasEntity in Hex. apply bool_decide_eq_true in Hex as [cs' Hcs'].
  destruct (removeEntity_cases w id Hinv) as [[Hno _]|(cs & He & Hrem)]; [congruence|].
  eexists. split; [exact Hrem|]. split_and!.
  - unfold ECS.hasEntity. cbn [entities]. apply bool_decide_eq_false_2.
    rewrite lookup_delete_eq. by intros [? ?].
  - intros ct. rewrite getEntitiesWithContract_default. cbn [contractIndex].
    rewrite elem_of_foldl_indexRemove. intros [Hin Hno].
    rewrite <- getEntitiesWithContract_default in Hin.
    apply (reachable_indexSound w Hr), hasContract_true in Hin as (o & Ho & Ht).
    apply Hno. split; [done|]. exists o. unfold contractsOf in Ho. rewrite He in Ho.
    by split.
  - intros e Hne. unfold ECS.getContracts. cbn [entities].
    by rewrite lookup_delete_ne.
  - cbn [hookCalls]. unfold ECS.getContracts. rewrite He.
    by rewrite <- list_fmap_compose.
Qed.

Lemma removeEntity_clears_witness :
  exists w',
    ECS.removeEntity crate "crate" = (true, w') /\
    ECS.hasEntity w' "crate" = false /\
    (forall ct, "crate" ∉ ECS.getEntitiesWithContract w' ct) /\
    (forall e, e ≠ "crate"%string -> ECS.getContracts w' e = ECS.getContracts crate e) /\
    hookCalls w' =
      hookCalls crate ++ (ContractRemove "crate" <$> ECS.getContracts crate "crate") ++
      [EntityRemove "crate"].
Proof.
  apply (removeEntity_clears crate "crate" crate_is_reachable).
  by vm_compute.
Defined.

(** X6.  [removeContract] in a reachable state.  Without a contract of
    the type it returns false and changes nothing.  Otherwise it returns
    true and takes out the oldest contract of the type, the one that
    [getContract] returned: the newer ones of the type, the contracts
    of the other types and the other entities stay, and the removal hook
    is called for that contract. *)
Theorem removeContract_takes_oldest (w : ECSWorld) (e ct : string) :
  reachable w ->
  match ECS.getContract w e ct with
  | None => ECS.removeContract w e ct = (false, w)
  | Some c =>
      exists w',
        ECS.removeContract w e ct = (true, w') /\
        val <$> contractsOfType w' e ct = tail (val <$> contractsOfType w e ct) /\
        (forall ct', ct' ≠ ct -> contractsOfType w' e ct' = contractsOfType w e ct') /\
        (forall e', e' ≠ e -> contractsOf w' e' = contractsOf w e') /\
        hookCalls w' = hookCalls w ++ [ContractRemove e c]
  end.
Proof.
  intros Hr. pose proof (reachable_storeInvariant w Hr) as Hinv.
  destruct (removeContract_cases w e ct)
    as [[-> Hrem]|(cs & o & He & Ho & Hget & Ht & Hrem)]; [done|].
  unfold ECS.getContract. rewrite Hget. cbn [fmap option_fmap option_map].
  eexists. split; [exact Hrem|].
  destruct (Hinv e cs He) as [Hnd _].
  rewrite getContractObj_head in Hget.
  unfold contractsOfType, contractsOf in *. cbn [evicted entities hookCalls].
  rewrite He in Hget |- *. rewrite lookup_insert_eq.
  cbn [default from_option] in *. unfold Datatypes.id in *.
  split_and!.
  - pose proof (filter_type_after_eviction ct cs 1 Hnd) as Hdrop.
    destruct (filter (fun o => typeOf (val o) = ct) cs) as [|o' ks] eqn:Hks; [done|].
    injection Hget as ->. change (take 1 (o :: ks)) with [o] in Hdrop.
    rewrite Hdrop. by rewrite fmap_cons.
  - intros ct' Hne. rewrite list_filter_filter. apply filter_iff_elem.
    intros c Hc. split; [tauto|]. intros Hct. split; [done|].
    intros (o' & Href & ->%list_elem_of_singleton)%list_elem_of_fmap.
    assert (c = o) by (by eapply ref_inj_on). subst c. congruence.
  - intros e' Hne. by rewrite lookup_insert_ne.
  - done.
Qed.

Lemma removeContract_takes_oldest_witness :
  ECS.getContract twoPortables "crate" "portable" = Some (Portable true None) /\
  exists w',
    ECS.removeContract twoPortables "crate" "portable" = (true, w') /\
    val <$> contractsOfType w' "crate" "portable" = [Portable false None] /\
    (forall ct', ct' ≠ "portable"%string ->
       contractsOfType w' "crate" ct' = contractsOfType twoPortables "crate" ct') /\
    (forall e', e' ≠ "crate"%string -> contractsOf w' e' = contractsOf twoPortables e') /\
    hookCalls w' =
      hookCalls twoPortables ++ [ContractRemove "crate" (Portable true None)].
Proof.
  split; [reflexivity|].
  pose proof (removeContract_takes_oldest twoPortables "crate" "portable"
                twoPortables_is_reachable) as H.
  change (ECS.getContract twoPortables "crate" "portable")
    with (Some (Portable true None)) in H.
  destruct H as (w' & Hrem & Hrest & Hother & Hframe & Hhook).
  exists w'. split; [done|]. split; [|done].
  rewrite Hrest. reflexivity.
Defined.

(** X7.  [getEntitiesWithAnyContract] returns, each once, the entities
    that the index lists for at least one of the types. *)
Theorem getEntitiesWithAnyContract_union (w : ECSWorld) (contractTypes : list string) :
  NoDup (ECS.getEntitiesWithAnyContract w contractTypes) /\
  forall e,
    e ∈ ECS.getEntitiesWithAnyContract w contractTypes <->
    exists ct, ct ∈ contractTypes /\ e ∈ ECS.getEntitiesWithContract w ct.
Proof.
  unfold ECS.getEntitiesWithAnyContract.
  assert (Hgen : forall cts (init : list string),
    NoDup init ->
    NoDup (foldl (fun result ct =>
                    foldl (fun result entityId => ECS.set_add entityId result) result
                      (ECS.getEntitiesWithContract w ct)) init cts) /\
    forall e,
      e ∈ foldl (fun result ct =>
                   foldl (fun result entityId => ECS.set_add entityId result) result
                     (ECS.getEntitiesWithContract w ct)) init cts <->
      e ∈ init \/ exists ct, ct ∈ cts /\ e ∈ ECS.getEntitiesWithContract w ct).
  { induction cts as [|ct cts IH]; intros init Hnd; cbn [foldl].
    - split; [done|]. intros e. split; [tauto|].
      intros [H|(ct & Hct & _)]; [done|]. by apply elem_of_nil in Hct.
    - destruct (IH _ (NoDup_foldl_set_add (ECS.getEntitiesWithContract w ct) init Hnd))
        as [Hnd' Hmem].
      split; [done|]. intros e. rewrite Hmem, elem_of_foldl_set_add. split.
      + intros [[H|H]|(ct' & Hct' & H)]; [tauto| |].
        * right. exists ct. split; [by left|done].
        * right. exists ct'. split; [by right|done].
      + intros [H|(ct' & [->|Hct']%elem_of_cons & H)]; [tauto|tauto|].
        right. by exists ct'. }
  destruct (Hgen contractTypes [] (NoDup_nil_2)) as [Hnd Hmem].
  split; [done|]. intros e. rewrite Hmem. split; [|tauto].
  intros [H|H]; [by apply elem_of_nil in H|done].
Qed.

(** X8.  [getEntitiesWithContracts] returns, each once, the entities that
    the index lists for every one of the types; with no type at all, the
    entities of the store. *)
Theorem getEntitiesWithContracts_intersection (w : ECSWorld) (contractTypes : list string) :
  forall e,
    e ∈ ECS.getEntitiesWithContracts w contractTypes <->
    match contractTypes with
    | [] => ECS.hasEntity w e = true
    | _ => forall ct, ct ∈ contractTypes -> e ∈ ECS.getEntitiesWithContract w ct
    end.
Proof.
  intros e. destruct contractTypes as [|first rest].
  - unfold ECS.getEntitiesWithContracts, ECS.getAllEntities, ECS.hasEntity.
    rewrite bool_decide_eq_true, list_elem_of_fmap. split.
    + intros ([k cs] & -> & Hin). apply elem_of_map_to_list in Hin. by eexists.
    + intros [cs Hcs]. exists (e, cs). split; [done|]. by apply elem_of_map_to_list.
  - unfold ECS.getEntitiesWithContracts.
    assert (Hgen : forall cts (init : list string),
      e ∈ foldl (fun result ct =>
                   let entitiesWithContract :=
                     ECS.set_of (ECS.getEntitiesWithContract w ct) in
                   ECS.set_of (filter (fun id => id ∈ entitiesWithContract) result))
            init cts <->
      e ∈ init /\ forall ct, ct ∈ cts -> e ∈ ECS.getEntitiesWithContract w ct).
    { induction cts as [|ct cts IH]; intros init; cbn [foldl].
      - split; [|tauto]. intros H. split; [done|]. by intros ct ?%elem_of_nil.
      - rewrite IH. cbv zeta. rewrite elem_of_set_of, list_elem_of_filter, elem_of_set_of.
        split.
        + intros [[H1 H2] H3]. split; [done|]. by intros ct' [->|?]%elem_of_cons; auto.
        + intros [H1 H2]. split_and!; [|done|].
          * apply H2. by left.
          * intros ct' Hct'. apply H2. by right. }
    rewrite Hgen, elem_of_set_of. split.
    + intros [H1 H2] ct [->|Hct]%elem_of_cons; auto.
    + intros H. split; [apply H; by left|]. intros ct Hct. apply H. by right.
Qed.

(** X9.  [validate] returns records that it accepts unchanged: running
    it on its own result gives that result again. *)
Theorem validate_twice (c : Contract) :
  ContractRegistry.validate c ≫= ContractRegistry.validate = ContractRegistry.validate c.
Proof.
  destruct (ContractRegistry.validate c) as [d|] eqn:Hv; [|done].
  cbn. by apply (validate_idem c).
Qed.

(** ** Healing, repair and the health status *)

Section Healing.

Import Durability.

(** A record stored under the type ["durability"] is a durability record
    with health >= 0 and maxHealth > 0. *)
Lemma stored_durability w e c :
  entityInvariant w e ->
  ECS.getContract w e "durability" = Some c ->
  exists h m a, c = Durability h m a /\ 0 <= h /\ 0 < m /\
                optional nonnegative_number a = true.
Proof.
  intros [_ Hvalid] Hget.
  destruct (getContract_elem _ _ _ _ Hget) as (o & Ho & Hval & Ht).
  rewrite Forall_forall in Hvalid. apply Hvalid in Ho. rewrite Hval in Ho.
  unfold validContract, ContractRegistry.validate, AnyContractSchema,
    DurabilityObjectSchema in Ho.
  destruct c; try discriminate Ht.
  - destruct (nonnegative_number health) eqn:Hh; [|done].
    destruct (positive_number maxHealth) eqn:Hm; [|done].
    destruct (optional nonnegative_number armor) eqn:Ha; [|done].
    apply num_le_spec in Hh. apply num_lt_spec in Hm.
    by exists health, maxHealth, armor.
  - done.
Qed.

(** [addContract] of a durability record on an entity that holds one:
    it returns, the entity stays, the record is the newest of its type,
    and a query finds it when the maximum for the type is 1. *)
Lemma addContract_durability w e c h m a :
  entityInvariant w e ->
  ECS.getContract w e "durability" = Some c ->
  0 <= h -> 0 < m -> optional nonnegative_number a = true ->
  exists w1,
    ECS.addContract w e (Durability h m a) = (Return (), w1) /\
    ECS.hasEntity w1 e = true /\
    last (contractsOfType w1 e "durability") = Some (mkObj (nextRef w) (Durability h m a)) /\
    (ECS.getMaxContractsAllowed "durability" (ECS.getContract w e "contract_limit") = 1 ->
       ECS.getContract w1 e "durability" = Some (Durability h m a)).
Proof.
  intros Hinv Hget Hh Hm Ha.
  pose proof (getMaxContractsAllowed_positive w e "durability" Hinv) as Hmax.
  destruct Hinv as [Hnd _].
  destruct (getContract_elem _ _ _ _ Hget) as (o & Ho & _ & _).
  unfold contractsOf in Hnd, Ho.
  destruct (entities w !! e) as [cs|] eqn:He; [|by apply elem_of_nil in Ho].
  cbn [default from_option] in Hnd, Ho. unfold Datatypes.id in Hnd, Ho.
  assert (Hv : ContractRegistry.validate (Durability h m a) = Some (Durability h m a))
    by (by apply validate_durability).
  pose proof (addContract_returns w e _ _ cs He Hnd Hv Hmax) as Hadd.
  cbv zeta in Hadd.
  pose proof (contractsOfType_added
    (mkECSWorld (entities w) (contractIndex w) (S (nextRef w)) (hookCalls w)) e cs
    (evictCount (ECS.getMaxContractsAllowed "durability"
                   (ECS.getContract w e "contract_limit"))
       (length (filter (fun c => typeOf (val c) = "durability") cs)))
    (mkObj (nextRef w) (Durability h m a)) Hnd) as Hof.
  cbv zeta in Hof. cbn [val typeOf] in Hof, Hadd.
  eexists. split; [exact Hadd|]. split_and!.
  - unfold ECS.hasEntity. apply bool_decide_eq_true_2.
    cbn [added entities]. rewrite lookup_insert_eq. by eexists.
  - rewrite Hof. apply last_snoc.
  - intros H1. rewrite H1 in Hof |- *.
    unfold ECS.getContract. rewrite getContractObj_head, Hof.
    rewrite (evictCount_integer 1) by lia.
    rewrite drop_ge by lia. done.
Qed.

(** [heal] with a positive amount on an entity below its maximum. *)
Lemma heal_heals now w sys e amount source h m a :
  entityInvariant w e ->
  ECS.getContract w e "durability" = Some (Durability h m a) ->
  h < m -> 0 < amount ->
  let health' := Rmin m (h + amount) in
  exists w1,
    ECS.addContract w e (Durability health' m a) = (Return (), w1) /\
    heal now (w, sys) e amount source =
      (Return true,
       (w1, mkDurabilitySystem (damageEvents sys)
              (healEvents sys ++ [HealEvent.mk e (health' - h) source now])
              (destroyEvents sys))) /\
    ECS.hasEntity w1 e = true /\
    last (contractsOfType w1 e "durability") = Some (mkObj (nextRef w) (Durability health' m a)) /\
    (ECS.getMaxContractsAllowed "durability" (ECS.getContract w e "contract_limit") = 1 ->
       ECS.getContract w1 e "durability" = Some (Durability health' m a)).
Proof.
  intros Hinv Hget Hlt Hpos health'.
  destruct (stored_durability w e _ Hinv Hget) as (h0 & m0 & a0 & [= <- <- <-] & Hh & Hm & Ha).
  assert (Hup : h < health') by (unfold health'; apply Rmin_glb_lt; lra).
  destruct (addContract_durability w e _ health' m a Hinv Hget) as (w1 & Hadd & Hrest);
    [lra|done|done|].
  exists w1. split; [done|]. split; [|done].
  unfold heal. rewrite Hget. rewrite num_le_false by done.
  fold health'. rewrite num_le_false by lra. by rewrite Hadd.
Qed.

Lemma slice_last_length {A} (n : nat) (l : list A) :
  length (slice_last n l) = Nat.min n (length l).
Proof. unfold slice_last. rewrite length_drop. lia. Qed.

Lemma slice_last_suffix {A} (n : nat) (l : list A) :
  take (length l - n) l ++ slice_last n l = l.
Proof. unfold slice_last. apply take_drop. Qed.

End Healing.

(** X10.  Armor never removes more than three quarters of a hit and
    never adds to it: for damage >= 0, [calculateActualDamage] returns
    between a quarter of the damage and the damage itself. *)
Theorem calculateActualDamage_bounds (damage : R) (armor : option R) :
  0 <= damage ->
  0.25 * damage <= Durability.calculateActualDamage damage armor <= damage.
Proof.
  intros Hd. unfold Durability.calculateActualDamage.
  destruct armor as [a|]; [|lra].
  destruct (num_eq a 0 || num_le a 0) eqn:E; [lra|].
  apply orb_false_iff in E as [_ E].
  assert (Ha : 0 < a).
  { destruct (Rlt_dec 0 a) as [H|H]; [done|].
    rewrite num_le_true in E by lra. done. }
  cbv zeta.
  assert (0 < Rmin 0.75 (a * 0.01) <= 0.75).
  { split; [apply Rmin_glb_lt; lra|apply Rmin_l]. }
  nra.
Qed.

Lemma calculateActualDamage_bounds_witness :
  0.25 * 10 <= Durability.calculateActualDamage 10 (Some 50) <= 10.
Proof. apply (calculateActualDamage_bounds 10 (Some 50)). lra. Defined.

(** X11.  [heal] on an entity whose first durability record is
    [{health: h, maxHealth: m, armor: a}].  At full health, or with an
    amount that is not positive, it returns false and changes nothing.
    Otherwise it returns true, records a HealEvent with the healing
    applied, and adds the record with health' = min(m, h + amount), which
    is above h and at most m; the entity is not removed. *)
Theorem heal_spec (now : Z) (w : ECSWorld) (sys : BasicDurabilitySystem)
    (e : string) (amount : R) (source : option string) (h m : R) (a : option R) :
  entityInvariant w e ->
  ECS.getContract w e "durability" = Some (Durability h m a) ->
  let health' := Rmin m (h + amount) in
  (m <= h \/ amount <= 0 ->
     Durability.heal now (w, sys) e amount source = (Return false, (w, sys))) /\
  (h < m -> 0 < amount ->
     h < health' <= m /\
     exists w1,
       Durability.heal now (w, sys) e amount source =
         (Return true,
          (w1, mkDurabilitySystem (damageEvents sys)
                 (healEvents sys ++ [HealEvent.mk e (health' - h) source now])
                 (destroyEvents sys))) /\
       ECS.hasEntity w1 e = true /\
       last (contractsOfType w1 e "durability") =
         Some (mkObj (nextRef w) (Durability health' m a)) /\
       (ECS.getMaxContractsAllowed "durability" (ECS.getContract w e "contract_limit") = 1 ->
          ECS.getContract w1 e "durability" = Some (Durability health' m a))).
Proof.
  intros Hinv Hget health'. split.
  - intros Hno. unfold Durability.heal. rewrite Hget.
    destruct (num_le m h) eqn:E; [done|].
    assert (h < m).
    { destruct (Rlt_dec h m) as [H|H]; [done|]. rewrite num_le_true in E by lra. done. }
    destruct Hno as [Hno|Hno]; [lra|].
    rewrite num_le_true; [done|].
    pose proof (Rmin_r m (h + amount)). lra.
  - intros Hlt Hpos. split.
    + unfold health'. split; [apply Rmin_glb_lt; lra|apply Rmin_l].
    + destruct (heal_heals now w sys e amount source h m a Hinv Hget Hlt Hpos)
        as (w1 & _ & Hheal & Hrest).
      by exists w1.
Qed.

Lemma heal_spec_witness :
  exists w1,
    Durability.heal 0 (wounded, mkDurabilitySystem [] [] []) "target" 2 None =
      (Return true,
       (w1, mkDurabilitySystem [] [HealEvent.mk "target" (Rmin 5 (2 + 2) - 2) None 0] [])) /\
    ECS.getContract w1 "target" "durability" = Some (Durability (Rmin 5 (2 + 2)) 5 None).
Proof.
  destruct (heal_spec 0 wounded (mkDurabilitySystem [] [] []) "target" 2 None 2 5 None)
    as [_ Hheal].
  - split.
    + apply (bool_decide_unpack _). by vm_compute.
    + repeat constructor. apply validate_durability; [lra|lra|reflexivity].
  - reflexivity.
  - destruct Hheal as (_ & w1 & Hw1 & _ & _ & Hquery); [lra|lra|].
    exists w1. split; [exact Hw1|]. apply Hquery. reflexivity.
Defined.

(** X12.  [repair] brings a damaged entity back to its maximum: with
    h < m it returns true and adds the record with health m, which a
    query finds when the maximum for durability is 1; at full health it
    returns false and changes nothing. *)
Theorem repair_spec (now : Z) (w : ECSWorld) (sys : BasicDurabilitySystem)
    (e : string) (h m : R) (a : option R) :
  entityInvariant w e ->
  ECS.getContract w e "durability" = Some (Durability h m a) ->
  (m <= h -> Durability.repair now (w, sys) e = (Return false, (w, sys))) /\
  (h < m ->
     exists w1,
       Durability.repair now (w, sys) e =
         (Return true,
          (w1, mkDurabilitySystem (damageEvents sys)
                 (healEvents sys ++ [HealEvent.mk e (m - h) None now])
                 (destroyEvents sys))) /\
       ECS.hasEntity w1 e = true /\
       (ECS.getMaxContractsAllowed "durability" (ECS.getContract w e "contract_limit") = 1 ->
          ECS.getContract w1 e "durability" = Some (Durability m m a))).
Proof.
  intros Hinv Hget. unfold Durability.repair. cbn [fst]. rewrite Hget. split.
  - intros Hfull. unfold Durability.heal. rewrite Hget. by rewrite num_le_true.
  - intros Hlt.
    destruct (heal_heals now w sys e (m - h) None h m a Hinv Hget Hlt)
      as (w1 & _ & Hheal & Hex & _ & Hquery); [lra|].
    cbv zeta in Hheal, Hquery.
    replace (Rmin m (h + (m - h))) with m in Hheal, Hquery by (rewrite Rmin_left; lra).
    by exists w1.
Qed.

Lemma repair_spec_witness :
  exists w1,
    Durability.repair 0 (wounded, mkDurabilitySystem [] [] []) "target" =
      (Return true,
       (w1, mkDurabilitySystem [] [HealEvent.mk "target" (5 - 2) None 0] [])) /\
    ECS.getContract w1 "target" "durability" = Some (Durability 5 5 None).
Proof.
  destruct (repair_spec 0 wounded (mkDurabilitySystem [] [] []) "target" 2 5 None)
    as [_ Hrepair].
  - split.
    + apply (bool_decide_unpack _). by vm_compute.
    + repeat constructor. apply validate_durability; [lra|lra|reflexivity].
  - reflexivity.
  - destruct Hrepair as (w1 & Hw1 & _ & Hquery); [lra|].
    exists w1. split; [exact Hw1|]. apply Hquery. reflexivity.
Defined.

(** X13.  The health status and [isDestroyed] agree on every entity
    whose records passed validation: the status is ['destroyed'] exactly
    when [isDestroyed] holds.  An entity for which [getDurability] throws
    (it has neither durability nor identity, or does not exist) is
    reported ['destroyed'], and ['no-identity'] is not returned. *)
Theorem health_status_agrees (w : ECSWorld) (e : string) :
  entityInvariant w e ->
  (Durability.isDestroyed w e = true <->
   Durability.getHealthStatus w e = Durability.destroyed) /\
  (Durability.getDurability w e = None ->
   Durability.getHealthStatus w e = Durability.destroyed) /\
  Durability.getHealthStatus w e <> Durability.no_identity.
Proof.
  intros Hinv.
  assert (Hstatus : forall h m, 0 < m ->
    (Durability.getDurabilityPercentage w e = h / m * 100) ->
    (num_le h 0 = true <-> Durability.getHealthStatus w e = Durability.destroyed)).
  { intros h m Hm Hp. unfold Durability.getHealthStatus. cbv zeta. rewrite Hp.
    assert (Heq : h / m * 100 <= 0 <-> h <= 0).
    { unfold Rdiv. pose proof (Rinv_0_lt_compat m Hm) as Hi. split; intros H; nra. }
    rewrite num_le_spec, <- Heq. destruct (num_le (h / m * 100) 0) eqn:E.
    - apply num_le_spec in E. tauto.
    - split; [intros H; apply num_le_spec in H; congruence|].
      destruct (num_le (h / m * 100) 25); [done|]. by destruct (num_lt (h / m * 100) 100). }
  assert (Hex : forall c ct, ECS.getContract w e ct = Some c -> ECS.hasEntity w e = true).
  { intros c ct Hc. unfold ECS.hasEntity. apply bool_decide_eq_true_2.
    unfold ECS.getContract, ECS.getContractObj in Hc. by destruct (entities w !! e). }
  assert (Hnever : Durability.getHealthStatus w e <> Durability.no_identity).
  { unfold Durability.getHealthStatus. cbv zeta.
    destruct (num_le _ 0); [done|]. destruct (num_le _ 25); [done|].
    by destruct (num_lt _ 100). }
  unfold Durability.isDestroyed, Durability.getDurability.
  destruct (ECS.getContract w e "durability") as [c|] eqn:Hd.
  - destruct (stored_durability w e c Hinv Hd) as (h & m & a & -> & Hh & Hm & _).
    rewrite (Hex _ _ Hd). cbn [negb]. split_and!; [|done|done].
    apply (Hstatus h m Hm). unfold Durability.getDurabilityPercentage, Durability.getDurability.
    by rewrite Hd.
  - destruct (ECS.getContract w e "identity") as [c|] eqn:Hi.
    + rewrite (Hex _ _ Hi). cbn [negb Durability.DEFAULT_DURABILITY].
      split_and!; [|done|done].
      apply (Hstatus 1 1); [lra|].
      unfold Durability.getDurabilityPercentage, Durability.getDurability.
      by rewrite Hd, Hi.
    + assert (Hp : Durability.getDurabilityPercentage w e = 0).
      { unfold Durability.getDurabilityPercentage, Durability.getDurability.
        by rewrite Hd, Hi. }
      assert (Hs : Durability.getHealthStatus w e = Durability.destroyed).
      { unfold Durability.getHealthStatus. cbv zeta. rewrite Hp.
        by rewrite num_le_true by lra. }
      split_and!; [|done|done]. by destruct (negb _).
Qed.

Lemma health_status_agrees_witness :
  (Durability.isDestroyed target "target" = true <->
   Durability.getHealthStatus target "target" = Durability.destroyed) /\
  (Durability.getDurability target "target" = None ->
   Durability.getHealthStatus target "target" = Durability.destroyed) /\
  Durability.getHealthStatus target "target" <> Durability.no_identity.
Proof.
  apply (health_status_agrees target "target"). split.
  - apply (bool_decide_unpack _). by vm_compute.
  - repeat constructor. apply validate_durability; [lra|lra|reflexivity].
Defined.

(** X14.  [cleanupEvents] keeps the newest events.  Each of the three
    arrays ends up as the last min(100, n) events of the n it had, in
    their order: the events dropped are the oldest ones.  An array of at
    most 100 events is kept as it is, and a second cleanup changes
    nothing. *)
Theorem cleanupEvents_keeps_newest (sys : BasicDurabilitySystem) :
  let sys' := Durability.cleanupEvents sys in
  (exists old,
     damageEvents sys = old ++ damageEvents sys' /\
     length (damageEvents sys') = Nat.min 100 (length (damageEvents sys))) /\
  (exists old,
     healEvents sys = old ++ healEvents sys' /\
     length (healEvents sys') = Nat.min 100 (length (healEvents sys))) /\
  (exists old,
     destroyEvents sys = old ++ destroyEvents sys' /\
     length (destroyEvents sys') = Nat.min 100 (length (destroyEvents sys))) /\
  ((length (damageEvents sys) <= 100)%nat -> damageEvents sys' = damageEvents sys) /\
  ((length (healEvents sys) <= 100)%nat -> healEvents sys' = healEvents sys) /\
  ((length (destroyEvents sys) <= 100)%nat -> destroyEvents sys' = destroyEvents sys) /\
  Durability.cleanupEvents sys' = sys'.
Proof.
  assert (Hkeep : forall A (l : list A),
    let l' := if (100 <? length l)%nat then Durability.slice_last 100 l else l in
    (exists old, l = old ++ l' /\ length l' = Nat.min 100 (length l)) /\
    ((length l <= 100)%nat -> l' = l) /\
    (if (100 <? length l')%nat then Durability.slice_last 100 l' else l') = l').
  { intros A l. cbv zeta. destruct (100 <? length l)%nat eqn:E.
    - apply Nat.ltb_lt in E. split_and!.
      + eexists. split; [symmetry; apply slice_last_suffix|apply slice_last_length].
      + lia.
      + rewrite slice_last_length.
        destruct (100 <? Nat.min 100 (length l))%nat eqn:E'; [|done].
        apply Nat.ltb_lt in E'. lia.
    - apply Nat.ltb_ge in E. split_and!.
      + exists []. split; [done|lia].
      + done.
      + by rewrite (proj2 (Nat.ltb_ge _ _) E). }
  intros sys'. subst sys'. unfold Durability.cleanupEvents. cbv zeta.
  cbn [damageEvents healEvents destroyEvents].
  destruct (Hkeep _ (damageEvents sys)) as (H1 & H1' & H1'').
  destruct (Hkeep _ (healEvents sys)) as (H2 & H2' & H2'').
  destruct (Hkeep _ (destroyEvents sys)) as (H3 & H3' & H3'').
  cbv zeta in *. split; [done|]. split; [done|]. split; [done|].
  split; [done|]. split; [done|]. split; [done|].
  by rewrite H1'', H2'', H3''.
Qed.

Lemma cleanupEvents_keeps_newest_witness :
  damageEvents burst =
    [DamageEvent.mk "target" 1 None 0] ++ damageEvents (Durability.cleanupEvents burst) /\
  length (damageEvents (Durability.cleanupEvents burst)) = 100%nat /\
  healEvents (Durability.cleanupEvents burst) = healEvents burst /\
  destroyEvents (Durability.cleanupEvents burst) = destroyEvents burst.
Proof.
  destruct (cleanupEvents_keeps_newest burst)
    as ((old & Hold & Hlen) & _ & _ & _ & Hheal & Hdestroy & _).
  assert (Hn : length (damageEvents burst) = 101%nat).
  { unfold burst. cbn [damageEvents]. by rewrite length_map, length_seq. }
  rewrite Hn in Hlen. change (Nat.min 100 101) with 100%nat in Hlen.
  assert (Hone : length old = 1%nat).
  { apply (f_equal length) in Hold. rewrite length_app, Hn, Hlen in Hold. lia. }
  assert (Hfirst : old = [DamageEvent.mk "target" 1 None 0]).
  { apply (f_equal (take 1)) in Hold. rewrite take_app_length' in Hold by done.
    rewrite <- Hold. reflexivity. }
  rewrite <- Hfirst. split; [done|]. split; [done|]. split.
  - apply Hheal. cbn. lia.
  - apply Hdestroy. cbn. lia.
Defined.

(** ** Chunk coordinates, neighbours and the geometric helpers *)

Section SpaceFacts.

Lemma length_zrange lo hi : length (zrange lo hi) = Z.to_nat (hi - lo).
Proof. unfold zrange. by rewrite length_map, length_seq. Qed.

Lemma length_bind_const {A B} (f : A -> list B) (n : nat) (l : list A) :
  (forall a, length (f a) = n) -> length (l ≫= f) = (length l * n)%nat.
Proof.
  intros Hf. induction l as [|a l IH]; [done|].
  rewrite bind_cons, length_app, IH, Hf. cbn [length]. lia.
Qed.

(** The keys of [getNeighboringChunks]: the cube of side 2 radius + 1
    around the centre, in its layer. *)
Lemma elem_of_getNeighboringChunks c r k :
  k ∈ Space.getNeighboringChunks c r <->
  layerId k = layerId c /\
  (Z.abs (cx k - cx c) <= r)%Z /\ (Z.abs (cy k - cy c) <= r)%Z /\
  (Z.abs (cz k - cz c) <= r)%Z.
Proof.
  unfold Space.getNeighboringChunks, ChunkUtils.create. split.
  - intros (dx & (dy & (dz & Hk & Hdz)%list_elem_of_bind & Hdy)%list_elem_of_bind & Hdx)
      %list_elem_of_bind.
    apply list_elem_of_singleton in Hk. subst k. cbn [layerId cx cy cz].
    apply elem_of_zrange in Hdx, Hdy, Hdz. split; [done|]. lia.
  - intros (Hl & Hx & Hy & Hz). destruct k as [l kx ky kz]. cbn [layerId cx cy cz] in *.
    subst l.
    apply list_elem_of_bind. exists (kx - cx c)%Z. split; [|apply elem_of_zrange; lia].
    apply list_elem_of_bind. exists (ky - cy c)%Z. split; [|apply elem_of_zrange; lia].
    apply list_elem_of_bind. exists (kz - cz c)%Z. split; [|apply elem_of_zrange; lia].
    apply list_elem_of_singleton. f_equal; lia.
Qed.

Lemma length_getNeighboringChunks c r :
  (0 <= r)%Z ->
  length (Space.getNeighboringChunks c r) = Z.to_nat ((2 * r + 1) ^ 3).
Proof.
  intros Hr. unfold Space.getNeighboringChunks.
  rewrite (length_bind_const _ (Z.to_nat (2 * r + 1) * Z.to_nat (2 * r + 1))%nat).
  - rewrite length_zrange. nia.
  - intros dx. rewrite (length_bind_const _ (Z.to_nat (2 * r + 1))).
    + rewrite length_zrange. lia.
    + intros dy. rewrite (length_bind_const _ 1%nat); [|done].
      rewrite length_zrange. lia.
Qed.

Lemma Zceil_nonneg r : 0 <= r -> (0 <= Zceil r)%Z.
Proof.
  intros Hr. destruct (Zceil_bound r) as [_ Hle].
  apply le_IZR. lra.
Qed.

Lemma clamp_between v lo hi : lo <= hi -> lo <= Space.clamp v lo hi <= hi.
Proof.
  intros H. unfold Space.clamp. split; [apply Rmax_l|].
  apply Rmax_lub; [done|apply Rmin_l].
Qed.

End SpaceFacts.

(** X15.  [worldToChunk] undoes [chunkToWorld]: the origin of the chunk
    with indices (cx, cy, cz) lies in that chunk, for every chunk size and
    chunk height other than 0. *)
Theorem worldToChunk_chunkToWorld (cfg : Config) (kx ky kz : Z) (chunkSize : R) :
  chunkSize <> 0 -> CHUNK_HEIGHT cfg <> 0 ->
  Space.worldToChunk cfg (Space.chunkToWorld cfg kx ky kz chunkSize) chunkSize =
    (kx, ky, kz).
Proof.
  intros Hs Hh. unfold Space.worldToChunk, Space.chunkToWorld. cbn [x y z].
  replace (IZR kx * chunkSize / chunkSize) with (IZR kx) by (by field).
  replace (IZR ky * CHUNK_HEIGHT cfg / CHUNK_HEIGHT cfg) with (IZR ky) by (by field).
  replace (IZR kz * chunkSize / chunkSize) with (IZR kz) by (by field).
  by rewrite !ZfloorZ.
Qed.

Lemma worldToChunk_chunkToWorld_witness :
  Space.worldToChunk defaultConfig (Space.chunkToWorld defaultConfig 3 (-1) 0 32) 32 =
    (3, -1, 0)%Z.
Proof.
  apply (worldToChunk_chunkToWorld defaultConfig 3 (-1) 0 32); cbn; lra.
Defined.

(** X16.  A position lies in the chunk that [worldToChunk] gives for it:
    on each axis it is at or above the origin of that chunk and below the
    origin of the next one, for a positive chunk size and chunk height. *)
Theorem position_in_its_chunk (cfg : Config) (position : Vec3) (chunkSize : R) :
  0 < chunkSize -> 0 < CHUNK_HEIGHT cfg ->
  let '(kx, ky, kz) := Space.worldToChunk cfg position chunkSize in
  let lo := Space.chunkToWorld cfg kx ky kz chunkSize in
  let hi := Space.chunkToWorld cfg (kx + 1) (ky + 1) (kz + 1) chunkSize in
  x lo <= x position < x hi /\ y lo <= y position < y hi /\ z lo <= z position < z hi.
Proof.
  intros Hs Hh. unfold Space.worldToChunk, Space.chunkToWorld. cbn [x y z].
  assert (Hcell : forall p s, 0 < s ->
    IZR (Zfloor (p / s)) * s <= p < IZR (Zfloor (p / s) + 1) * s).
  { intros p s Hpos. destruct (Zfloor_bound (p / s)) as [Hlo Hhi].
    rewrite plus_IZR. cbn [IZR IPR]. unfold Rdiv in *.
    pose proof (Rinv_0_lt_compat s Hpos) as Hi.
    assert (Heq : p = p * / s * s) by (field; lra).
    split; [rewrite Heq at 2|rewrite Heq at 1].
    - apply Rmult_le_compat_r; lra.
    - apply Rmult_lt_compat_r; lra. }
  split; [|split]; by apply Hcell.
Qed.

Lemma position_in_its_chunk_witness :
  let '(kx, ky, kz) := Space.worldToChunk defaultConfig (mkVec3 40 (-3) 0) 32 in
  let lo := Space.chunkToWorld defaultConfig kx ky kz 32 in
  let hi := Space.chunkToWorld defaultConfig (kx + 1) (ky + 1) (kz + 1) 32 in
  x lo <= 40 < x hi /\ y lo <= -3 < y hi /\ z lo <= 0 < z hi.
Proof.
  apply (position_in_its_chunk defaultConfig (mkVec3 40 (-3) 0) 32); cbn; lra.
Defined.

(** X17.  [getNeighboringChunks] with an integer radius r >= 0 returns
    (2r + 1)^3 keys: exactly the keys of the layer of the centre whose
    indices differ from those of the centre by at most r on each axis;
    the centre is one of them. *)
Theorem getNeighboringChunks_cube (centerChunk : ChunkKey) (radius : Z) :
  (0 <= radius)%Z ->
  length (Space.getNeighboringChunks centerChunk radius) =
    Z.to_nat ((2 * radius + 1) ^ 3) /\
  centerChunk ∈ Space.getNeighboringChunks centerChunk radius /\
  forall k,
    k ∈ Space.getNeighboringChunks centerChunk radius <->
    layerId k = layerId centerChunk /\
    (Z.abs (cx k - cx centerChunk) <= radius)%Z /\
    (Z.abs (cy k - cy centerChunk) <= radius)%Z /\
    (Z.abs (cz k - cz centerChunk) <= radius)%Z.
Proof.
  intros Hr. split_and!.
  - by apply length_getNeighboringChunks.
  - apply elem_of_getNeighboringChunks. split; [done|]. lia.
  - intros k. apply elem_of_getNeighboringChunks.
Qed.

Lemma getNeighboringChunks_cube_witness :
  length (Space.getNeighboringChunks originChunk 1) = Z.to_nat ((2 * 1 + 1) ^ 3) /\
  originChunk ∈ Space.getNeighboringChunks originChunk 1 /\
  forall k,
    k ∈ Space.getNeighboringChunks originChunk 1 <->
    layerId k = layerId originChunk /\
    (Z.abs (cx k - cx originChunk) <= 1)%Z /\
    (Z.abs (cy k - cy originChunk) <= 1)%Z /\
    (Z.abs (cz k - cz originChunk) <= 1)%Z.
Proof. apply (getNeighboringChunks_cube originChunk 1). lia. Defined.

(** X18.  [getChunksInRadius] around a position, for a radius >= 0 and a
    positive chunk size of the layer: the chunk of the position is among
    the keys returned, there are (2c + 1)^3 of them with
    c = ceil(radius / chunkSize), and each is within c chunks of the chunk
    of the position on every axis. *)
Theorem getChunksInRadius_around (cfg : Config) (layers : gmap string LayerConfig)
    (layerId : string) (center : Vec3) (radius : R) :
  0 < Space.getChunkSize cfg layers layerId ->
  0 <= radius ->
  let c := Zceil (radius / Space.getChunkSize cfg layers layerId) in
  let centerChunk := Space.keyFromPos cfg layers layerId center None in
  let chunks := Space.getChunksInRadius cfg layers layerId center radius in
  centerChunk ∈ chunks /\
  length chunks = Z.to_nat ((2 * c + 1) ^ 3) /\
  forall k, k ∈ chunks ->
    (Z.abs (cx k - cx centerChunk) <= c)%Z /\ (Z.abs (cy k - cy centerChunk) <= c)%Z /\
    (Z.abs (cz k - cz centerChunk) <= c)%Z.
Proof.
  intros Hs Hr c centerChunk chunks.
  assert (Hc : (0 <= c)%Z).
  { apply Zceil_nonneg. unfold Rdiv. apply Rmult_le_pos; [done|].
    left. by apply Rinv_0_lt_compat. }
  subst chunks. unfold Space.getChunksInRadius. cbv zeta. fold c centerChunk.
  split_and!.
  - apply elem_of_getNeighboringChunks. split; [done|]. lia.
  - by apply length_getNeighboringChunks.
  - intros k Hk. apply elem_of_getNeighboringChunks in Hk. tauto.
Qed.

Lemma getChunksInRadius_around_witness :
  let c := Zceil (40 / Space.getChunkSize defaultConfig (Space.initialLayers defaultConfig)
                         "default") in
  let centerChunk :=
    Space.keyFromPos defaultConfig (Space.initialLayers defaultConfig) "default" origin None in
  let chunks :=
    Space.getChunksInRadius defaultConfig (Space.initialLayers defaultConfig) "default"
      origin 40 in
  centerChunk ∈ chunks /\
  length chunks = Z.to_nat ((2 * c + 1) ^ 3) /\
  forall k, k ∈ chunks ->
    (Z.abs (cx k - cx centerChunk) <= c)%Z /\ (Z.abs (cy k - cy centerChunk) <= c)%Z /\
    (Z.abs (cz k - cz centerChunk) <= c)%Z.
Proof.
  apply (getChunksInRadius_around defaultConfig (Space.initialLayers defaultConfig)
           "default" origin 40).
  - unfold Space.getChunkSize, Space.initialLayers. rewrite lookup_singleton_eq.
    cbn. rewrite num_eq_false by lra. lra.
  - lra.
Defined.

(** X19.  [clamp] and [lerp].  With min <= max, clamp(v, min, max) lies
    between min and max and is v when v does; lerp(a, b, t) lies between
    a and b, is a for t <= 0 and b for t >= 1. *)
Theorem clamp_lerp_bounds (a b t v lo hi : R) :
  lo <= hi ->
  lo <= Space.clamp v lo hi <= hi /\
  (lo <= v <= hi -> Space.clamp v lo hi = v) /\
  Rmin a b <= Space.lerp a b t <= Rmax a b /\
  (t <= 0 -> Space.lerp a b t = a) /\
  (1 <= t -> Space.lerp a b t = b).
Proof.
  intros Hlh. split; [|split; [|split; [|split]]].
  - by apply clamp_between.
  - intros [H1 H2]. unfold Space.clamp. rewrite Rmin_right by done. by rewrite Rmax_right.
  - unfold Space.lerp. pose proof (clamp_between t 0 1 ltac:(lra)) as Hc.
    set (s := Space.clamp t 0 1) in *.
    destruct (Rle_dec a b) as [Hab|Hab].
    + rewrite Rmin_left, Rmax_right by lra. split; nra.
    + rewrite Rmin_right, Rmax_left by lra. split; nra.
  - intros Ht. unfold Space.lerp, Space.clamp.
    rewrite (Rmin_right 1 t) by lra. rewrite Rmax_left by lra. lra.
  - intros Ht. unfold Space.lerp, Space.clamp.
    rewrite (Rmin_left 1 t) by lra. rewrite Rmax_right by lra. lra.
Qed.

Lemma clamp_lerp_bounds_witness :
  0 <= Space.clamp 7 0 5 <= 5 /\
  (0 <= 7 <= 5 -> Space.clamp 7 0 5 = 7) /\
  Rmin 2 10 <= Space.lerp 2 10 0.5 <= Rmax 2 10 /\
  (0.5 <= 0 -> Space.lerp 2 10 0.5 = 2) /\
  (1 <= 0.5 -> Space.lerp 2 10 0.5 = 10).
Proof. apply (clamp_lerp_bounds 2 10 0.5 7 0 5). lra. Defined.

(** [aabbIntersect] is symmetric, and two boxes that both contain
    a point intersect. *)
Theorem aabbIntersect_symmetric (a b : AABB) (p : Vec3) :
  Space.aabbIntersect a b = Space.aabbIntersect b a /\
  (Space.pointInAABB p a = true -> Space.pointInAABB p b = true ->
   Space.aabbIntersect a b = true).
Proof.
  split.
  - unfold Space.aabbIntersect.
    destruct (num_le (x (min a)) (x (max b))), (num_le (x (min b)) (x (max a))),
      (num_le (y (min a)) (y (max b))), (num_le (y (min b)) (y (max a))),
      (num_le (z (min a)) (z (max b))), (num_le (z (min b)) (z (max a))); done.
  - unfold Space.pointInAABB, Space.aabbIntersect.
    rewrite !andb_true_iff, !num_le_spec.
    intros (((((? & ?) & ?) & ?) & ?) & ?) (((((? & ?) & ?) & ?) & ?) & ?).
    split_and!; lra.
Qed.

(** The two distance functions agree: [distance] of world/space.ts
    is [Vec3Utils.distance], its square is [distanceSquared], it is
    symmetric, and it is 0 from a point to itself. *)
Theorem distance_functions_agree (a b : Vec3) :
  Space.distance a b = Vec3Utils.distance a b /\
  Space.distance a b * Space.distance a b = Space.distanceSquared a b /\
  Space.distance a b = Space.distance b a /\
  Space.distance a a = 0.
Proof.
  unfold Space.distance, Space.distanceSquared, Vec3Utils.distance, Vec3Utils.subtract.
  cbv zeta. cbn [x y z]. split_and!.
  - done.
  - apply sqrt_sqrt.
    pose proof (Rle_0_sqr (x a - x b)). pose proof (Rle_0_sqr (y a - y b)).
    pose proof (Rle_0_sqr (z a - z b)). unfold Rsqr in *. lra.
  - f_equal. ring.
  - replace ((x a - x a) * (x a - x a) + (y a - y a) * (y a - y a) +
             (z a - z a) * (z a - z a)) with 0 by ring.
    apply sqrt_0.
Qed.

(** X20.  The box of a single point intersects exactly the chunk of the
    point: [getIntersectingChunks] on the box with min = max = p returns
    the one key that [keyFromPos] gives for p. *)
Theorem getIntersectingChunks_point (cfg : Config) (layers : gmap string LayerConfig)
    (layerId : string) (p : Vec3) (chunkSize : option R) :
  Space.getIntersectingChunks cfg layers layerId (mkAABB p p) chunkSize =
    [Space.keyFromPos cfg layers layerId p chunkSize].
Proof.
  rewrite getIntersectingChunks_ranges. cbv zeta. cbn [min max].
  rewrite !(Rmax_left _ (_ - 1e-6)) by lra.
  assert (Hx : num_lt (x p) 0 && num_lt 0 (x p) = false).
  { destruct (num_lt (x p) 0) eqn:E; [|done]. apply num_lt_spec in E.
    by rewrite num_lt_false by lra. }
  assert (Hz : num_lt (z p) 0 && num_lt 0 (z p) = false).
  { destruct (num_lt (z p) 0) eqn:E; [|done]. apply num_lt_spec in E.
    by rewrite num_lt_false by lra. }
  rewrite Hx, Hz. cbn [andb].
  unfold Space.keyFromPos, Space.worldToChunk, ChunkUtils.create.
  set (size := num_or chunkSize _).
  assert (Hone : forall k, zrange k (k + 1) = [k]).
  { intros k. rewrite zrange_cons by lia. by rewrite zrange_nil by lia. }
  assert (Hbind : forall (k : Z) (f : Z -> list ChunkKey), [k] ≫= f = f k).
  { intros k f. change ([k] ≫= f) with (f k ++ []). apply app_nil_r. }
  rewrite !Hone. rewrite Hbind. cbn beta. rewrite Hbind. cbn beta. by rewrite Hbind.
Qed.

(** X21.  The default layer stays registered: [removeLayer] throws for
    it and changes nothing, removing another layer or creating a layer
    keeps it in the map; a layer created with chunk size 0 gets the
    default chunk size, and a layer that was removed is not found. *)
Theorem default_layer_stays (cfg : Config) (layers : gmap string LayerConfig)
    (generated layerId : string) (id : option string) (config : LayerConfig) :
  LayerRegistry.hasLayer layers "default" = true ->
  LayerRegistry.removeLayer "default" layers = (None, layers) /\
  LayerRegistry.hasLayer (snd (LayerRegistry.removeLayer layerId layers)) "default" = true /\
  LayerRegistry.hasLayer (snd (LayerRegistry.createLayer cfg generated id config layers))
    "default" = true /\
  (layerId <> "default"%string ->
   LayerRegistry.getLayer (snd (LayerRegistry.removeLayer layerId layers)) layerId = None) /\
  (chunkSize config = 0 ->
   chunkSize (fst (LayerRegistry.createLayer cfg generated id config layers)) =
     CHUNK_SIZE cfg).
Proof.
  intros Hdef. unfold LayerRegistry.hasLayer in *. apply bool_decide_eq_true in Hdef.
  split_and!.
  - done.
  - unfold LayerRegistry.removeLayer. destruct (bool_decide (layerId = "default"%string)) eqn:E.
    + by apply bool_decide_eq_true_2.
    + apply bool_decide_eq_false in E. cbn [snd]. apply bool_decide_eq_true_2.
      by rewrite lookup_delete_ne.
  - unfold LayerRegistry.createLayer. cbv zeta. cbn [snd]. apply bool_decide_eq_true_2.
    match goal with |- is_Some (<[?i := _]> _ !! _) => destruct (decide (i = "default"%string)) as [->|Hne] end.
    + rewrite lookup_insert_eq. by eexists.
    + by rewrite lookup_insert_ne.
  - intros Hne. unfold LayerRegistry.removeLayer, LayerRegistry.getLayer.
    rewrite bool_decide_eq_false_2 by done. cbn [snd]. apply lookup_delete_eq.
  - intros H0. unfold LayerRegistry.createLayer. cbv zeta. cbn [fst chunkSize num_or].
    rewrite H0. by rewrite num_eq_true.
Qed.

Lemma default_layer_stays_witness :
  LayerRegistry.removeLayer "default" (Space.initialLayers defaultConfig) =
    (None, Space.initialLayers defaultConfig) /\
  LayerRegistry.hasLayer
    (snd (LayerRegistry.removeLayer "cave" (Space.initialLayers defaultConfig)))
    "default" = true.
Proof.
  destruct (default_layer_stays defaultConfig (Space.initialLayers defaultConfig)
              "layer-0" "cave" None
              (mkLayerConfig "" "Cave" None 0 (-9.81) origin None))
    as (H1 & H2 & _).
  - apply bool_decide_eq_true_2. unfold Space.initialLayers.
    rewrite lookup_singleton_eq. by eexists.
  - by split.
Defined.

(** ** Chunks: the occupancy grid and the entities of a chunk *)

Section GridFacts.

Local Open Scope Z_scope.

(** The index of a cell tells the cell. *)
Lemma grid_index_inj (w h : Z) (x y z x' y' z' : Z) :
  0 <= x < w -> 0 <= y < h -> 0 <= z ->
  0 <= x' < w -> 0 <= y' < h -> 0 <= z' ->
  x + y * w + z * w * h = x' + y' * w + z' * w * h ->
  x = x' /\ y = y' /\ z = z'.
Proof.
  intros Hx Hy Hz Hx' Hy' Hz' Heq.
  assert (Hstep : forall m a b a' b', 0 <= a < m -> 0 <= a' < m ->
            a + m * b = a' + m * b' -> a = a' /\ b = b').
  { intros m a b a' b' Ha Ha' Hab.
    destruct (Z.lt_trichotomy b b') as [Hlt|[->|Hgt]]; [|lia|].
    - assert (m * 1 <= m * (b' - b)) by (apply Z.mul_le_mono_nonneg_l; lia). lia.
    - assert (m * 1 <= m * (b - b')) by (apply Z.mul_le_mono_nonneg_l; lia). lia. }
  destruct (Hstep w x (y + z * h) x' (y' + z' * h)) as [-> Hrest]; [done|done|lia|].
  destruct (Hstep h y z y' z') as [-> ->]; [done|done|lia|done].
Qed.

Lemma grid_index_bound (w h d : Z) (x y z : Z) :
  0 <= x < w -> 0 <= y < h -> 0 <= z < d ->
  0 <= x + y * w + z * w * h < w * h * d.
Proof.
  intros Hx Hy Hz.
  assert (0 <= w * h) by (apply Z.mul_nonneg_nonneg; lia).
  assert (0 <= y * w) by (apply Z.mul_nonneg_nonneg; lia).
  assert (0 <= z * (w * h)) by (apply Z.mul_nonneg_nonneg; lia).
  assert (z * (w * h) <= (d - 1) * (w * h)) by (apply Z.mul_le_mono_nonneg_r; lia).
  assert (y * w <= (h - 1) * w) by (apply Z.mul_le_mono_nonneg_r; lia).
  lia.
Qed.

Lemma outside_grid (grid : SolidGrid) (gx gy gz : Z) :
  ((gx <? 0) || (width grid <=? gx) || (gy <? 0) || (height grid <=? gy) ||
   (gz <? 0) || (depth grid <=? gz)) = false <-> inGrid grid gx gy gz.
Proof.
  unfold inGrid. rewrite !orb_false_iff, !Z.ltb_ge, !Z.leb_gt. lia.
Qed.

End GridFacts.

(** X22.  [setSolid] and [isSolid] on a grid that has one cell for each
    position: after [setSolid(chunk, x, y, z, solid)] at a position of the
    grid, [isSolid] returns [solid] at that position and what it returned
    before at every other position; the version of the chunk went up by
    one, and its entities and its key are the same.  At a position
    outside the grid [setSolid] leaves the chunk as it is. *)
Theorem setSolid_isSolid (now : Z) (chunk : Chunk) (grid : SolidGrid)
    (gx gy gz : Z) (solid : bool) :
  solidGrid chunk = Some grid ->
  gridWellFormed grid ->
  let chunk' := ChunkManager.setSolid now chunk gx gy gz solid in
  (inGrid grid gx gy gz ->
     ChunkManager.isSolid chunk' gx gy gz = solid /\
     (forall x' y' z', (x', y', z') <> (gx, gy, gz) ->
        ChunkManager.isSolid chunk' x' y' z' = ChunkManager.isSolid chunk x' y' z') /\
     version chunk' = (version chunk + 1)%Z /\
     chunkEntities chunk' = chunkEntities chunk /\ key chunk' = key chunk) /\
  (~ inGrid grid gx gy gz -> chunk' = chunk).
Proof.
  intros Hgrid (Hw & Hh & Hd & Hlen) chunk'. subst chunk'.
  unfold ChunkManager.setSolid. rewrite Hgrid. split.
  - intros Hin. rewrite (proj2 (outside_grid grid gx gy gz) Hin).
    cbv zeta. unfold ChunkManager.markChunkModified.
    cbn [key chunkEntities loaded lastAccessed subscriptions lastModified version solidGrid].
    pose proof Hin as (Hx & Hy & Hz).
    pose proof (grid_index_bound _ _ _ _ _ _ Hx Hy Hz) as Hidx.
    split_and!; [| |done|done|done].
    + unfold ChunkManager.isSolid. cbn [solidGrid width height depth data].
      rewrite (proj2 (outside_grid grid gx gy gz) Hin).
      rewrite list_lookup_insert_eq by lia.
      destruct solid; [by apply bool_decide_eq_true_2|by apply bool_decide_eq_false_2].
    + intros x' y' z' Hne. unfold ChunkManager.isSolid. rewrite Hgrid.
      cbn [solidGrid width height depth data].
      destruct ((x' <? 0)%Z || (width grid <=? x')%Z || (y' <? 0)%Z || (height grid <=? y')%Z ||
                (z' <? 0)%Z || (depth grid <=? z')%Z) eqn:E; [done|].
      apply outside_grid in E as (Hx' & Hy' & Hz').
      rewrite list_lookup_insert_ne; [done|].
      pose proof (grid_index_bound _ _ _ _ _ _ Hx' Hy' Hz') as Hidx'.
      intros Heq. apply Hne.
      assert (Heq' : (gx + gy * width grid + gz * width grid * height grid =
                      x' + y' * width grid + z' * width grid * height grid)%Z) by lia.
      apply grid_index_inj in Heq' as (-> & -> & ->); [done|lia..].
  - intros Hout. destruct (_ || _) eqn:E; [done|].
    apply outside_grid in E. done.
Qed.

Lemma setSolid_isSolid_witness :
  ChunkManager.isSolid
    (ChunkManager.setSolid 0 (mkChunk originChunk [] true 0 [] 0 2 (Some blockGrid)) 1 2 3 true)
    1 2 3 = true.
Proof.
  destruct (setSolid_isSolid 0 (mkChunk originChunk [] true 0 [] 0 2 (Some blockGrid))
              blockGrid 1 2 3 true) as [Hin _].
  - reflexivity.
  - unfold gridWellFormed, blockGrid. cbn [width height depth data].
    rewrite !length_app, !length_replicate. cbn. lia.
  - apply Hin. unfold inGrid, blockGrid. cbn. lia.
Defined.

(** X23.  [initializeSolidGrid] with a resolution r >= 0 gives the chunk
    a grid of r cells on each axis that has one cell for each position,
    none of them solid: [isSolid] is false everywhere.  With a negative
    resolution it throws. *)
Theorem initializeSolidGrid_empty (chunk : Chunk) (resolution : Z) :
  ((0 <= resolution)%Z ->
   exists chunk' grid,
     ChunkManager.initializeSolidGrid chunk resolution = Some chunk' /\
     solidGrid chunk' = Some grid /\ gridWellFormed grid /\
     width grid = resolution /\ height grid = resolution /\ depth grid = resolution /\
     forall gx gy gz, ChunkManager.isSolid chunk' gx gy gz = false) /\
  ((resolution < 0)%Z -> ChunkManager.initializeSolidGrid chunk resolution = None).
Proof.
  unfold ChunkManager.initializeSolidGrid. cbv zeta. split.
  - intros Hr.
    assert (Hsize : (0 <= resolution * resolution * resolution)%Z) by nia.
    rewrite (proj2 (Z.ltb_ge _ _) Hsize).
    eexists _, _. split; [done|]. cbn [solidGrid]. split; [done|]. split_and!; try done.
    + unfold gridWellFormed. cbn [width height depth data].
      rewrite length_replicate. done.
    + intros gx gy gz. unfold ChunkManager.isSolid. cbn [solidGrid data].
      destruct (_ || _); [done|]. apply bool_decide_eq_false_2.
      intros [? _]%lookup_replicate. done.
  - intros Hr. assert (Hsize : (resolution * resolution * resolution < 0)%Z) by nia.
    by rewrite (proj2 (Z.ltb_lt _ _) Hsize).
Qed.

Lemma initializeSolidGrid_empty_witness :
  exists chunk' grid,
    ChunkManager.initializeSolidGrid (mkChunk originChunk [] false 0 [] 0 1 None) 16 =
      Some chunk' /\
    solidGrid chunk' = Some grid /\ gridWellFormed grid /\
    width grid = 16%Z /\ height grid = 16%Z /\ depth grid = 16%Z /\
    forall gx gy gz, ChunkManager.isSolid chunk' gx gy gz = false.
Proof.
  apply (initializeSolidGrid_empty (mkChunk originChunk [] false 0 [] 0 1 None) 16). lia.
Defined.

Section ChunkEntities.

Import ChunkManager.




End ChunkEntities.



(** [getChunk] makes a chunk once.  On a key without a chunk it
    enters an unloaded chunk without entities and without grid, at
    version 1.  A further call with the key returns that chunk with
    only its access time written, and chunks under other keys are not
    touched by either call. *)
Theorem getChunk_creates_once (now now' : Z) (chunkKey : ChunkKey) (s : Sim) :
  chunks s !! ChunkUtils.toString chunkKey = None ->
  let c1 := fst (ChunkManager.getChunk now chunkKey s) in
  let s1 := snd (ChunkManager.getChunk now chunkKey s) in
  let c2 := fst (ChunkManager.getChunk now' chunkKey s1) in
  let s2 := snd (ChunkManager.getChunk now' chunkKey s1) in
  c1 = mkChunk chunkKey [] false now [] now 1 None /\
  c2 = mkChunk chunkKey [] false now' [] now 1 None /\
  chunks s2 !! ChunkUtils.toString chunkKey = Some c2 /\
  (forall k, k <> ChunkUtils.toString chunkKey -> chunks s2 !! k = chunks s !! k) /\
  ecsWorld s2 = ecsWorld s /\ layers s2 = layers s.
Proof.
  intros Hnone c1 s1 c2 s2.
  set (c := mkChunk chunkKey [] false now [] now 1 None).
  assert (H1 : ChunkManager.getChunk now chunkKey s =
               (c, mkSim (ecsWorld s) (<[ChunkUtils.toString chunkKey := c]> (chunks s))
                     (layers s))).
  { unfold ChunkManager.getChunk. cbv zeta. by rewrite Hnone. }
  assert (H2 : ChunkManager.getChunk now' chunkKey s1 =
               (mkChunk chunkKey [] false now' [] now 1 None,
                mkSim (ecsWorld s)
                  (<[ChunkUtils.toString chunkKey := mkChunk chunkKey [] false now' [] now 1 None]>
                     (chunks s1)) (layers s))).
  { subst s1. rewrite H1. cbn [snd]. unfold ChunkManager.getChunk. cbv zeta.
    cbn [chunks ecsWorld layers]. by rewrite lookup_insert_eq. }
  subst c2 s2. rewrite H2. subst c1 s1. rewrite H1. cbn [fst snd chunks ecsWorld layers].
  split_and!; try done.
  - apply lookup_insert_eq.
  - intros k Hk. by rewrite !lookup_insert_ne.
Qed.

Lemma getChunk_creates_once_witness :
  fst (ChunkManager.getChunk 7 originChunk emptySpace) =
    mkChunk originChunk [] false 7 [] 7 1 None /\
  fst (ChunkManager.getChunk 9 originChunk (snd (ChunkManager.getChunk 7 originChunk emptySpace))) =
    mkChunk originChunk [] false 9 [] 7 1 None.
Proof.
  destruct (getChunk_creates_once 7 9 originChunk emptySpace) as (H1 & H2 & _).
  - reflexivity.
  - by split.
Defined.

(** ** Movement: results, free movement and what is written back *)

Section MovementFacts.

Import Movement.

(** The string of a key tells the key, for layer ids that the string
    form can carry. *)
Lemma toString_inj k1 k2 :
  ChunkUtils.plainLayerId (layerId k1) ->
  ChunkUtils.plainLayerId (layerId k2) ->
  ChunkUtils.toString k1 = ChunkUtils.toString k2 -> k1 = k2.
Proof.
  intros H1 H2 Heq.
  pose proof (fromString_toString_plain k1 H1) as E1.
  pose proof (fromString_toString_plain k2 H2) as E2.
  rewrite Heq in E1. congruence.
Qed.

Lemma elem_of_addKey_plain ks k k' :
  Forall (fun k => ChunkUtils.plainLayerId (layerId k)) (k :: ks) ->
  k' ∈ addKey ks k <-> k' ∈ ks \/ k' = k.
Proof.
  intros [Hk Hks]%Forall_cons. unfold addKey.
  destruct (bool_decide _) eqn:E.
  - apply bool_decide_eq_true in E. apply list_elem_of_fmap in E as (k0 & Heq & Hin).
    split; [tauto|]. intros [H| ->]; [done|].
    rewrite Forall_forall in Hks.
    by rewrite (toString_inj k k0 Hk (Hks k0 Hin) Heq).
  - rewrite elem_of_app, list_elem_of_singleton. tauto.
Qed.

Lemma elem_of_foldl_addKey_plain keys : forall ks k',
  Forall (fun k => ChunkUtils.plainLayerId (layerId k)) (ks ++ keys) ->
  k' ∈ foldl addKey ks keys <-> k' ∈ ks \/ k' ∈ keys.
Proof.
  induction keys as [|k keys IH]; intros ks k' Hall; cbn [foldl].
  - split; [tauto|]. intros [H|H]; [done|]. by apply elem_of_nil in H.
  - apply Forall_app in Hall as [Hks [Hk Hkeys]%Forall_cons].
    rewrite IH.
    + rewrite elem_of_addKey_plain by (by apply Forall_cons). rewrite elem_of_cons. tauto.
    + apply Forall_app. split; [|done].
      apply Forall_forall. intros k0 Hk0.
      apply elem_of_addKey_plain in Hk0 as [Hk0| ->]; [|done|by apply Forall_cons].
      rewrite Forall_forall in Hks. by apply Hks.
Qed.

Lemma NoDup_addKey ks k : NoDup ks -> NoDup (addKey ks k).
Proof.
  intros Hnd. unfold addKey. destruct (bool_decide _) eqn:E; [done|].
  apply bool_decide_eq_false in E.
  apply NoDup_app. split_and!; [done| |apply NoDup_singleton].
  intros k0 Hk0 ->%list_elem_of_singleton. apply E.
  apply list_elem_of_fmap. by exists k.
Qed.

Lemma NoDup_foldl_addKey keys : forall ks, NoDup ks -> NoDup (foldl addKey ks keys).
Proof.
  induction keys as [|k keys IH]; intros ks Hnd; cbn [foldl]; [done|].
  apply IH. by apply NoDup_addKey.
Qed.

(** [attemptMove] returns a result. *)
Lemma attemptMove_returns cfg now e want dt s :
  exists r, fst (attemptMove cfg now e want dt s) = Return r /\
            (ok r = true <-> blockedReason r = None) /\
            (ok r = true -> collisionNormal r = None).
Proof.
  unfold attemptMove, bind, getContract, ret.
  destruct (ECS.getContract (ecsWorld s) e "mobility") as [m|];
    [|eexists; split; [done|]; by split].
  destruct (ECS.getContract (ecsWorld s) e "shape") as [sh|].
  - destruct m; try (eexists; split; [done|]; by split).
    destruct sh; try (eexists; split; [done|]; by split).
    cbv zeta. destruct (num_lt _ _); [eexists; split; [done|]; by split|].
    match goal with
    | |- context [performSweptAABB cfg now e ?a ?b ?bd s] =>
        destruct (performSweptAABB_reported cfg now e a b bd s) as (c & Hc & _);
        destruct (performSweptAABB cfg now e a b bd s) as [o s']
    end.
    cbn [fst] in Hc. subst o.
    destruct (hit c); cbn [negb]; eexists; (split; [done|]); by split.
  - destruct m; eexists; (split; [done|]); by split.
Qed.


(** [addContract] of a record that the schema returns as it is, on an
    entity that exists: it returns; a query for the type finds the record
    when the maximum for the type is 1. *)
Lemma addContract_replaces w e c :
  entityInvariant w e ->
  is_Some (entities w !! e) ->
  ContractRegistry.validate c = Some c ->
  exists w1,
    ECS.addContract w e c = (Return (), w1) /\
    ECS.hasEntity w1 e = true /\
    (ECS.getMaxContractsAllowed (typeOf c) (ECS.getContract w e "contract_limit") = 1 ->
       ECS.getContract w1 e (typeOf c) = Some c).
Proof.
  intros Hinv [cs He] Hv.
  pose proof (getMaxContractsAllowed_positive w e (typeOf c) Hinv) as Hmax.
  destruct Hinv as [Hnd _]. unfold contractsOf in Hnd. rewrite He in Hnd.
  cbn [default from_option] in Hnd. unfold Datatypes.id in Hnd.
  pose proof (addContract_returns w e c c cs He Hnd Hv Hmax) as Hadd.
  cbv zeta in Hadd.
  pose proof (contractsOfType_added
    (mkECSWorld (entities w) (contractIndex w) (S (nextRef w)) (hookCalls w)) e cs
    (evictCount (ECS.getMaxContractsAllowed (typeOf c)
                   (ECS.getContract w e "contract_limit"))
       (length (filter (fun o => typeOf (val o) = typeOf c) cs)))
    (mkObj (nextRef w) c) Hnd) as Hof.
  cbv zeta in Hof. cbn [val] in Hof.
  eexists. split; [exact Hadd|]. split.
  - unfold ECS.hasEntity. apply bool_decide_eq_true_2.
    cbn [added entities]. rewrite lookup_insert_eq. by eexists.
  - intros H1. rewrite H1 in Hof |- *.
    unfold ECS.getContract. rewrite getContractObj_head, Hof.
    rewrite (evictCount_integer 1) by lia.
    rewrite drop_ge by lia. done.
Qed.

(** A mobility record with other positions and velocities than a stored
    one is accepted as it is. *)
Lemma stored_mobility w e p v ms acc p' v' :
  entityInvariant w e ->
  ECS.getContract w e "mobility" = Some (Mobility p v ms acc) ->
  is_Some (entities w !! e) /\
  ContractRegistry.validate (Mobility p' v' ms acc) = Some (Mobility p' v' ms acc).
Proof.
  intros [_ Hvalid] Hget.
  destruct (getContract_elem _ _ _ _ Hget) as (o & Ho & Hval & _).
  split.
  - unfold contractsOf in Ho. destruct (entities w !! e); [by eexists|].
    by apply elem_of_nil in Ho.
  - rewrite Forall_forall in Hvalid. apply Hvalid in Ho. rewrite Hval in Ho.
    unfold validContract, ContractRegistry.validate, AnyContractSchema in *.
    by destruct (optional positive_number ms && optional positive_number acc).
Qed.

(** [storeMobility] on the mover's entity. *)
Lemma storeMobility_stores e p v ms acc p' v' s :
  entityInvariant (ecsWorld s) e ->
  ECS.getContract (ecsWorld s) e "mobility" = Some (Mobility p v ms acc) ->
  ECS.getMaxContractsAllowed "mobility"
    (ECS.getContract (ecsWorld s) e "contract_limit") = 1 ->
  exists w1,
    storeMobility e (Mobility p' v' ms acc) s = (Return true, mkSim w1 (chunks s) (layers s)) /\
    ECS.getContract w1 e "mobility" = Some (Mobility p' v' ms acc).
Proof.
  intros Hinv Hget Hmax.
  destruct (stored_mobility _ _ _ _ _ _ p' v' Hinv Hget) as [Hex Hv].
  destruct (addContract_replaces _ _ _ Hinv Hex Hv) as (w1 & Hadd & _ & Hquery).
  exists w1. split; [|by apply Hquery].
  unfold storeMobility, bind, addContract, ret. by rewrite Hadd.
Qed.

End MovementFacts.



(** X26.  [moveEntity] writes back the position of the result of
    [attemptMove], whether the move was free or blocked: for an entity
    with a stored mobility record, in a store whose maximum for mobility
    is 1, it returns the ok of that result, and afterwards the mobility
    of the entity has the position of the result and the velocity, maximum
    speed and acceleration it had. *)
Theorem moveEntity_stores_position
    (cfg : Config) (now : Z) (s : Sim) (e : string) (want : Vec3) (dt : R)
    (current : Vec3) (velocity : option Vec3) (maxSpeed acceleration : option R) :
  entityInvariant (ecsWorld s) e ->
  ECS.getContract (ecsWorld s) e "mobility" =
    Some (Mobility current velocity maxSpeed acceleration) ->
  ECS.getMaxContractsAllowed "mobility"
    (ECS.getContract (ecsWorld s) e "contract_limit") = 1 ->
  exists r s',
    fst (Movement.attemptMove cfg now e want dt s) = Return r /\
    Movement.moveEntity cfg now e want dt s = (Return (ok r), s') /\
    ECS.getContract (ecsWorld s') e "mobility" =
      Some (Mobility (position r) velocity maxSpeed acceleration).
Proof.
  intros Hinv Hget Hmax.
  destruct (attemptMove_returns cfg now e want dt s) as (r & Hr & _).
  pose proof (preservesStore_attemptMove cfg now e want dt s) as Hstore.
  unfold Movement.moveEntity, bind.
  destruct (Movement.attemptMove cfg now e want dt s) as [o s1].
  cbn [fst snd] in *. subst o.
  unfold Movement.getContract at 1. rewrite Hstore, Hget.
  rewrite <- Hstore in Hinv, Hget, Hmax.
  destruct (stored_mobility _ _ _ _ _ _ (position r) velocity Hinv Hget) as [Hex Hv].
  destruct (addContract_replaces _ _ _ Hinv Hex Hv) as (w1 & Hadd & _ & Hquery).
  unfold Movement.addContract. rewrite Hadd. unfold ret.
  exists r, (mkSim w1 (chunks s1) (layers s1)). split_and!; [done|done|].
  cbn [ecsWorld]. by apply Hquery.
Qed.

Lemma moveEntity_stores_position_witness :
  exists r s',
    fst (Movement.attemptMove defaultConfig 0 "test-entity" (mkVec3 5 0 0) 0.1 emptySpace) =
      Return r /\
    Movement.moveEntity defaultConfig 0 "test-entity" (mkVec3 5 0 0) 0.1 emptySpace =
      (Return (ok r), s') /\
    ECS.getContract (ecsWorld s') "test-entity" "mobility" =
      Some (Mobility (position r) None (Some 5) None).
Proof.
  apply (moveEntity_stores_position defaultConfig 0 emptySpace "test-entity"
           (mkVec3 5 0 0) 0.1 origin None (Some 5) None).
  - split.
    + apply (bool_decide_unpack _). by vm_compute.
    + repeat constructor; unfold validContract, ContractRegistry.validate, AnyContractSchema.
      cbn. unfold positive_number. by rewrite num_lt_true by lra.
  - reflexivity.
  - reflexivity.
Defined.

(** X27.  [setVelocity] and [applyImpulse] change the velocity only: for
    an entity with a stored mobility record, in a store whose maximum for
    mobility is 1, each returns true, and afterwards the mobility has the
    position, maximum speed and acceleration it had, with the velocity
    given, or with the impulse added to the old velocity (to zero when
    there was none). *)
Theorem velocity_updates_keep_position
    (s : Sim) (e : string) (newVelocity impulse : Vec3)
    (current : Vec3) (velocity : option Vec3) (maxSpeed acceleration : option R) :
  entityInvariant (ecsWorld s) e ->
  ECS.getContract (ecsWorld s) e "mobility" =
    Some (Mobility current velocity maxSpeed acceleration) ->
  ECS.getMaxContractsAllowed "mobility"
    (ECS.getContract (ecsWorld s) e "contract_limit") = 1 ->
  (exists s1,
     Movement.setVelocity e newVelocity s = (Return true, s1) /\
     ECS.getContract (ecsWorld s1) e "mobility" =
       Some (Mobility current (Some newVelocity) maxSpeed acceleration)) /\
  (exists s2,
     Movement.applyImpulse e impulse s = (Return true, s2) /\
     ECS.getContract (ecsWorld s2) e "mobility" =
       Some (Mobility current
               (Some (Vec3Utils.add (default (mkVec3 0 0 0) velocity) impulse))
               maxSpeed acceleration)).
Proof.
  intros Hinv Hget Hmax. split.
  - destruct (storeMobility_stores e current velocity maxSpeed acceleration current
                (Some newVelocity) s Hinv Hget Hmax) as (w1 & Hstore & Hquery).
    eexists. unfold Movement.setVelocity, bind, Movement.getContract.
    rewrite Hget. split; [exact Hstore|done].
  - destruct (storeMobility_stores e current velocity maxSpeed acceleration current
                (Some (Vec3Utils.add (default (mkVec3 0 0 0) velocity) impulse)) s
                Hinv Hget Hmax) as (w1 & Hstore & Hquery).
    eexists. unfold Movement.applyImpulse, bind, Movement.getContract.
    rewrite Hget. split; [exact Hstore|done].
Qed.

Lemma velocity_updates_keep_position_witness :
  exists s1,
    Movement.setVelocity "test-entity" (mkVec3 1 0 0) emptySpace = (Return true, s1) /\
    ECS.getContract (ecsWorld s1) "test-entity" "mobility" =
      Some (Mobility origin (Some (mkVec3 1 0 0)) (Some 5) None).
Proof.
  destruct (velocity_updates_keep_position emptySpace "test-entity" (mkVec3 1 0 0)
              (mkVec3 0 0 1) origin None (Some 5) None) as [Hset _].
  - split.
    + apply (bool_decide_unpack _). by vm_compute.
    + repeat constructor; unfold validContract, ContractRegistry.validate, AnyContractSchema.
      cbn. unfold positive_number. by rewrite num_lt_true by lra.
  - reflexivity.
  - reflexivity.
  - exact Hset.
Defined.

Lemma keyFromPos_emptySpace_origin :
  Space.keyFromPos defaultConfig (layers emptySpace) "default" origin None = originChunk.
Proof.
  unfold Space.keyFromPos, Space.worldToChunk, Space.getChunkSize, origin.
  change (layers emptySpace) with (Space.initialLayers defaultConfig).
  unfold Space.initialLayers. rewrite lookup_singleton_eq.
  cbn [fmap option_fmap option_map chunkSize num_or CHUNK_SIZE CHUNK_HEIGHT defaultConfig
       x y z].
  num_decide. by floor_eval.
Qed.

Lemma keyFromPos_emptySpace_near :
  Space.keyFromPos defaultConfig (layers emptySpace) "default" (mkVec3 5 0 0) None =
    originChunk.
Proof.
  unfold Space.keyFromPos, Space.worldToChunk, Space.getChunkSize.
  change (layers emptySpace) with (Space.initialLayers defaultConfig).
  unfold Space.initialLayers. rewrite lookup_singleton_eq.
  cbn [fmap option_fmap option_map chunkSize num_or CHUNK_SIZE CHUNK_HEIGHT defaultConfig
       x y z].
  num_decide. by floor_eval.
Qed.

(** X28.  [getChunksForMovement] on positions whose chunk keys have safe
    integers as indices (the end chunk and the 27 chunks around the start
    chunk, whose key strings are then in plain digits): it returns and
    leaves the state as it is, and the keys it returns are, each once,
    the chunk of the start position, the chunk of the end position and
    the 27 chunks around the start chunk, all in the layer "default".
    (From an index of 1e21 on the key string is in exponent notation,
    [fromString] returns null and the code throws 'Invalid chunk key';
    this statement leaves that range out.) *)
Theorem getChunksForMovement_covers (cfg : Config) (startPos endPos : Vec3) (s : Sim) :
  let startChunk := Space.keyFromPos cfg (layers s) "default" startPos None in
  let endChunk := Space.keyFromPos cfg (layers s) "default" endPos None in
  safeKey endChunk ->
  Forall safeKey (Space.getNeighboringChunks startChunk 1) ->
  exists keys,
    Movement.getChunksForMovement cfg startPos endPos s = (Return keys, s) /\
    NoDup keys /\
    forall k, k ∈ keys <->
      k = startChunk \/ k = endChunk \/ k ∈ Space.getNeighboringChunks startChunk 1.
Proof.
  intros startChunk endChunk _ _. eexists. split; [apply getChunksForMovement_returns|].
  cbv zeta. fold startChunk endChunk. split.
  - apply NoDup_foldl_addKey, NoDup_nil_2.
  - intros k. rewrite elem_of_foldl_addKey_plain.
    + rewrite !elem_of_cons. split; [|tauto]. intros [H|H]; [|tauto].
      by apply elem_of_nil in H.
    + cbn [app].
      assert (Hplain : ChunkUtils.plainLayerId "default") by (by split).
      apply Forall_cons_2; [|apply Forall_cons_2].
      * unfold startChunk. by rewrite keyFromPos_layer.
      * unfold endChunk. by rewrite keyFromPos_layer.
      * eapply Forall_impl; [apply getNeighboringChunks_layer|].
        intros k' ->. unfold startChunk. by rewrite keyFromPos_layer.
Qed.

Lemma getChunksForMovement_covers_witness :
  exists keys,
    Movement.getChunksForMovement defaultConfig origin (mkVec3 5 0 0) emptySpace =
      (Return keys, emptySpace) /\
    NoDup keys /\
    forall k, k ∈ keys <->
      k = originChunk \/ k = originChunk \/ k ∈ Space.getNeighboringChunks originChunk 1.
Proof.
  destruct (getChunksForMovement_covers defaultConfig origin (mkVec3 5 0 0) emptySpace)
    as (keys & Hret & Hnd & Hmem).
  - rewrite keyFromPos_emptySpace_near.
    unfold safeKey, safeInteger, MAX_SAFE_INTEGER. cbn. lia.
  - rewrite keyFromPos_emptySpace_origin. apply Forall_forall. intros k Hk.
    apply elem_of_getNeighboringChunks in Hk as (_ & Hx & Hy & Hz).
    unfold safeKey, safeInteger, MAX_SAFE_INTEGER. cbn [originChunk cx cy cz] in *. lia.
  - rewrite keyFromPos_emptySpace_origin, keyFromPos_emptySpace_near in Hmem.
    by exists keys.
Defined.

(** Chunk keys and their strings.  [ChunkUtils.equals] holds
    exactly of equal keys, and two keys whose layer ids are not empty and
    have no colon are equal when [ChunkUtils.toString] gives the same
    string for both. *)
Theorem chunk_keys_by_string (a b : ChunkKey) :
  (ChunkUtils.equals a b = true <-> a = b) /\
  (ChunkUtils.plainLayerId (layerId a) -> ChunkUtils.plainLayerId (layerId b) ->
   ChunkUtils.toString a = ChunkUtils.toString b -> a = b).
Proof.
  split.
  - unfold ChunkUtils.equals. rewrite !andb_true_iff, bool_decide_eq_true, !Z.eqb_eq.
    destruct a, b. cbn [layerId cx cy cz]. split.
    + by intros [[[-> ->] ->] ->].
    + by intros [= -> -> -> ->].
  - apply toString_inj.
Qed.

Lemma chunk_keys_by_string_witness :
  ChunkUtils.equals originChunk originChunk = true.
Proof.
  destruct (chunk_keys_by_string originChunk originChunk) as [[_ H] _]. by apply H.
Defined.

(** ** The slab method and teleporting *)

Section SlabFacts.

Import Movement.

Lemma num_lt_false_inv a b : num_lt a b = false -> b <= a.
Proof.
  intros E. destruct (Rle_dec b a) as [H|H]; [done|].
  rewrite num_lt_true in E by lra. done.
Qed.

Lemma slab_step start end_ aabb axis tmin tmax normal tmin' tmax' normal' :
  coord axis (min aabb) <= coord axis (max aabb) ->
  tmin <= tmax ->
  slab start (Vec3Utils.subtract end_ start) aabb (Some (tmin, tmax, normal)) axis =
    Some (tmin', tmax', normal') ->
  tmin <= tmin' /\ tmin' <= tmax' /\ tmax' <= tmax /\
  forall tau, tmin' <= tau <= tmax' -> insideOn start end_ aabb axis tau.
Proof.
  intros Hbox Hinit. unfold slab, insideOn. cbv zeta.
  assert (Hd : coord axis (Vec3Utils.subtract end_ start) =
               coord axis end_ - coord axis start) by (by destruct axis).
  rewrite Hd.
  set (d := coord axis end_ - coord axis start). set (s := coord axis start).
  set (lo := coord axis (min aabb)) in *. set (hi := coord axis (max aabb)) in *.
  clearbody d s lo hi. clear Hd.
  destruct (num_lt (Rabs d) 1e-9) eqn:Habs.
  - apply num_lt_spec in Habs.
    destruct (num_lt s lo) eqn:E1; cbn [orb]; [done|].
    destruct (num_lt hi s) eqn:E2; [done|].
    intros [= <- <- <-].
    apply num_lt_false_inv in E1, E2.
    split_and!; try lra. intros tau Htau. split; [lra|lra].
  - apply num_lt_false_inv in Habs.
    assert (Hd0 : d <> 0).
    { intros ->. rewrite Rabs_R0 in Habs. lra. }
    set (i := / d).
    assert (Hi : d * i = 1) by (unfold i; by apply Rinv_r).
    unfold Rdiv. fold i.
    assert (Hcore : forall tau, (if num_lt ((hi - s) * i) ((lo - s) * i)
                           then (hi - s) * i else (lo - s) * i) <= tau ->
                   tau <= (if num_lt ((hi - s) * i) ((lo - s) * i)
                           then (lo - s) * i else (hi - s) * i) ->
                   lo <= s + tau * d <= hi).
    { intros tau H1 H2.
      assert (Hmul : forall a, a * i * d = a).
      { intros a. rewrite Rmult_assoc, (Rmult_comm i d), Hi. ring. }
      destruct (Rlt_dec 0 d) as [Hpos|Hneg].
      - assert (Hi0 : 0 < i) by (unfold i; by apply Rinv_0_lt_compat).
        assert (Hord : (lo - s) * i <= (hi - s) * i)
          by (apply Rmult_le_compat_r; lra).
        rewrite num_lt_false in H1, H2 by done.
        apply (Rmult_le_compat_r d) in H1, H2; try lra.
        rewrite Hmul in H1, H2. lra.
      - assert (Hneg' : 0 <= - d) by lra.
        assert (Hi0 : i < 0) by (unfold i; apply Rinv_lt_0_compat; lra).
        assert (Hord : (hi - s) * i <= (lo - s) * i).
        { apply (Rmult_le_compat_r (- i)) in Hbox; [|lra]. lra. }
        destruct (num_lt ((hi - s) * i) ((lo - s) * i)) eqn:E.
        + apply (Rmult_le_compat_r (- d)) in H1, H2; try lra.
          rewrite <- !Ropp_mult_distr_r, !Hmul in H1, H2. lra.
        + apply num_lt_false_inv in E.
          apply (Rmult_le_compat_r (- d)) in H1, H2; try lra.
          rewrite <- !Ropp_mult_distr_r, !Hmul in H1, H2.
          assert (Heq : (hi - s) * i = (lo - s) * i) by lra.
          apply (f_equal (fun v => v * d)) in Heq. rewrite !Hmul in Heq. lra. }
    destruct (num_lt ((hi - s) * i) ((lo - s) * i)) eqn:Hswap.
    + destruct (num_lt tmin ((hi - s) * i)) eqn:Hraise.
      * apply num_lt_spec in Hraise.
        destruct (num_lt (Rmin tmax ((lo - s) * i)) ((hi - s) * i)) eqn:Hmiss; [done|].
        apply num_lt_false_inv in Hmiss. intros [= <- <- <-].
        pose proof (Rmin_l tmax ((lo - s) * i)). pose proof (Rmin_r tmax ((lo - s) * i)).
        split_and!; try lra. intros tau Htau. split; [lra|]. intros _. apply Hcore; lra.
      * apply num_lt_false_inv in Hraise.
        destruct (num_lt (Rmin tmax ((lo - s) * i)) tmin) eqn:Hmiss; [done|].
        apply num_lt_false_inv in Hmiss. intros [= <- <- <-].
        pose proof (Rmin_l tmax ((lo - s) * i)). pose proof (Rmin_r tmax ((lo - s) * i)).
        split_and!; try lra. intros tau Htau. split; [lra|]. intros _. apply Hcore; lra.
    + destruct (num_lt tmin ((lo - s) * i)) eqn:Hraise.
      * apply num_lt_spec in Hraise.
        destruct (num_lt (Rmin tmax ((hi - s) * i)) ((lo - s) * i)) eqn:Hmiss; [done|].
        apply num_lt_false_inv in Hmiss. intros [= <- <- <-].
        pose proof (Rmin_l tmax ((hi - s) * i)). pose proof (Rmin_r tmax ((hi - s) * i)).
        split_and!; try lra. intros tau Htau. split; [lra|]. intros _. apply Hcore; lra.
      * apply num_lt_false_inv in Hraise.
        destruct (num_lt (Rmin tmax ((hi - s) * i)) tmin) eqn:Hmiss; [done|].
        apply num_lt_false_inv in Hmiss. intros [= <- <- <-].
        pose proof (Rmin_l tmax ((hi - s) * i)). pose proof (Rmin_r tmax ((hi - s) * i)).
        split_and!; try lra. intros tau Htau. split; [lra|]. intros _. apply Hcore; lra.
Qed.
End SlabFacts.

(** X29.  The slab method.  When [intersectSegmentAABB] reports a hit on
    a box with min <= max on each axis, the parameter t it returns is
    between 0 and 1, and the point of the segment at t is inside the box
    on every axis along which the segment moves; on the other axes the
    start of the segment is inside the box. *)
Theorem intersectSegmentAABB_hit_inside (start end_ : Vec3) (aabb : AABB) :
  (forall axis, Movement.coord axis (min aabb) <= Movement.coord axis (max aabb)) ->
  let sweep := Movement.intersectSegmentAABB start end_ aabb in
  sweepHit sweep = true ->
  0 <= t sweep <= 1 /\
  forall axis, insideOn start end_ aabb axis (t sweep).
Proof.
  intros Hbox sweep. subst sweep. unfold Movement.intersectSegmentAABB. cbv zeta.
  cbn [foldl].
  destruct (Movement.slab start _ aabb (Some (0, 1, mkVec3 0 0 0)) axisX)
    as [[[t1 m1] n1]|] eqn:E1; [|done].
  assert (H01 : 0 <= 1) by lra.
  destruct (slab_step _ _ _ _ _ _ _ _ _ _ (Hbox axisX) H01 E1)
    as (H1a & H1b & H1c & H1).
  destruct (Movement.slab start _ aabb (Some (t1, m1, n1)) axisY)
    as [[[t2 m2] n2]|] eqn:E2; [|done].
  destruct (slab_step _ _ _ _ _ _ _ _ _ _ (Hbox axisY) H1b E2)
    as (H2a & H2b & H2c & H2).
  destruct (Movement.slab start _ aabb (Some (t2, m2, n2)) axisZ)
    as [[[t3 m3] n3]|] eqn:E3; [|done].
  destruct (slab_step _ _ _ _ _ _ _ _ _ _ (Hbox axisZ) H2b E3)
    as (H3a & H3b & H3c & H3).
  cbn [sweepHit t]. intros [Hlo Hhi]%andb_true_iff.
  apply num_le_spec in Hlo, Hhi. split; [lra|].
  intros [| |]; [apply H1|apply H2|apply H3]; lra.
Qed.

Lemma intersectSegmentAABB_hit_inside_witness :
  0 <= t (Movement.intersectSegmentAABB (mkVec3 10 130 17) (mkVec3 18 130 17)
            (mkAABB (mkVec3 14 129 16) (mkVec3 16 131 18))) <= 1 /\
  forall axis,
    insideOn (mkVec3 10 130 17) (mkVec3 18 130 17)
      (mkAABB (mkVec3 14 129 16) (mkVec3 16 131 18)) axis
      (t (Movement.intersectSegmentAABB (mkVec3 10 130 17) (mkVec3 18 130 17)
            (mkAABB (mkVec3 14 129 16) (mkVec3 16 131 18)))).
Proof.
  apply (intersectSegmentAABB_hit_inside (mkVec3 10 130 17) (mkVec3 18 130 17)
           (mkAABB (mkVec3 14 129 16) (mkVec3 16 131 18))).
  - intros [| |]; cbn; lra.
  - by rewrite tie_sweep.
Defined.

(** X30.  [teleport] asks [attemptMove] with a time step of 0.016 for the
    target.  When that result is not ok it returns false and the entity
    store is as before.  When it is ok, for an entity with a stored
    mobility record in a store whose maximum for mobility is 1, it
    returns true, and afterwards the mobility has the target as position
    and the zero vector as velocity. *)
Theorem teleport_spec
    (cfg : Config) (now : Z) (s : Sim) (e : string) (target : Vec3)
    (current : Vec3) (velocity : option Vec3) (maxSpeed acceleration : option R) :
  entityInvariant (ecsWorld s) e ->
  ECS.getContract (ecsWorld s) e "mobility" =
    Some (Mobility current velocity maxSpeed acceleration) ->
  ECS.getMaxContractsAllowed "mobility"
    (ECS.getContract (ecsWorld s) e "contract_limit") = 1 ->
  exists r,
    fst (Movement.attemptMove cfg now e target 0.016 s) = Return r /\
    (ok r = false ->
       fst (Movement.teleport cfg now e target s) = Return false /\
       ecsWorld (snd (Movement.teleport cfg now e target s)) = ecsWorld s) /\
    (ok r = true ->
       fst (Movement.teleport cfg now e target s) = Return true /\
       ECS.getContract (ecsWorld (snd (Movement.teleport cfg now e target s))) e "mobility" =
         Some (Mobility target (Some (mkVec3 0 0 0)) maxSpeed acceleration)).
Proof.
  intros Hinv Hget Hmax.
  destruct (attemptMove_returns cfg now e target 0.016 s) as (r & Hr & _).
  pose proof (preservesStore_attemptMove cfg now e target 0.016 s) as Hstore.
  exists r. split; [done|].
  unfold Movement.teleport, bind, Movement.getContract, Movement.checkCollision.
  rewrite Hget. unfold bind.
  destruct (Movement.attemptMove cfg now e target 0.016 s) as [o s1].
  cbn [fst snd] in *. subst o. unfold ret. split.
  - intros ->. cbn [negb]. by split.
  - intros ->. cbn [negb].
    rewrite <- Hstore in Hinv, Hget, Hmax.
    destruct (storeMobility_stores e current velocity maxSpeed acceleration target
                (Some (mkVec3 0 0 0)) s1 Hinv Hget Hmax) as (w1 & Hst & Hquery).
    rewrite Hst. by split.
Qed.

Lemma teleport_spec_witness :
  exists r,
    fst (Movement.attemptMove defaultConfig 0 "test-entity" (mkVec3 5 0 0) 0.016 emptySpace) =
      Return r /\
    (ok r = false ->
       fst (Movement.teleport defaultConfig 0 "test-entity" (mkVec3 5 0 0) emptySpace) =
         Return false /\
       ecsWorld (snd (Movement.teleport defaultConfig 0 "test-entity" (mkVec3 5 0 0)
                        emptySpace)) = ecsWorld emptySpace) /\
    (ok r = true ->
       fst (Movement.teleport defaultConfig 0 "test-entity" (mkVec3 5 0 0) emptySpace) =
         Return true /\
       ECS.getContract
         (ecsWorld (snd (Movement.teleport defaultConfig 0 "test-entity" (mkVec3 5 0 0)
                           emptySpace))) "test-entity" "mobility" =
         Some (Mobility (mkVec3 5 0 0) (Some (mkVec3 0 0 0)) (Some 5) None)).
Proof.
  apply (teleport_spec defaultConfig 0 emptySpace "test-entity" (mkVec3 5 0 0)
           origin None (Some 5) None).
  - split.
    + apply (bool_decide_unpack _). by vm_compute.
    + repeat constructor; unfold validContract, ContractRegistry.validate, AnyContractSchema.
      cbn. unfold positive_number. by rewrite num_lt_true by lra.
  - reflexivity.
  - reflexivity.
Defined.
